(** * Vista-3D segmentation validation and cleanup

    A shallow embedding of [frontend/utils/segmentation_validator.py]
    (the validator, the cleaner and [validate_and_clean]) and of
    [generate_validation_report] from [frontend/utils/segment.py],
    together with the properties of the written specification that
    were checked against them.

    Conventions of the embedding.
    - A numpy array of label IDs is a [shape] (three extents) and the
      flat, C-ordered list of its voxels; boolean masks and the output
      of [ndimage.label] are flat lists over the same shape.
    - Python numbers that come out of a true division ([a / b]) or
      that are written as decimal literals ([0.95], [0.1], [1e-3]) are
      exact rationals ([Q]); the comparison of two such numbers agrees
      with the one on IEEE doubles as long as voxel counts stay below
      2^52, which every array that fits in memory does.
    - Arrays that the code copies and then updates in place live in a
      [heap]; a Python reference to an array is a location. *)

From Stdlib Require Import ZArith QArith Qabs Lia Bool Arith PeanoNat.
From Stdlib Require Import Strings.Ascii Numbers.DecimalString.
From stdpp Require Import base option list strings gmap.

Local Open Scope Z_scope.

(** ** Python text formatting *)

Module Py.

(** [str(n)] for an integer. *)
Definition str_int (z : Z) : string := NilZero.string_of_int (Z.to_int z).

(** [sep.join(parts)]. *)
Fixpoint join (sep : string) (parts : list string) : string :=
  match parts with
  | [] => ""
  | [p] => p
  | p :: rest => p +:+ sep +:+ join sep rest
  end.

(** [str(l)] for a list of integers: [[30, 31, 32]]. *)
Definition str_list (l : list Z) : string :=
  "[" +:+ join ", " (map str_int l) +:+ "]".

(** [needle in haystack] for strings. *)
Fixpoint contains (needle haystack : string) : bool :=
  String.prefix needle haystack
  || match haystack with
     | EmptyString => false
     | String _ rest => contains needle rest
     end.

(** [s.rjust(width)]: pad with blanks on the left. *)
Definition rjust (width : nat) (s : string) : string :=
  String.string_of_list_ascii (replicate (width - String.length s) " "%char) +:+ s.

(** [s.zfill(width)] for the digits of a non-negative number. *)
Definition zfill (width : nat) (s : string) : string :=
  String.string_of_list_ascii (replicate (width - String.length s) "0"%char) +:+ s.

(** [str(a)] for a one-dimensional numpy array of integers: the
    elements, right-aligned to a common width, between brackets and
    separated by one blank (numpy's line folding of long arrays is
    left out). *)
Definition str_ndarray (l : list Z) : string :=
  let cells := map str_int l in
  let w := foldr Nat.max 0%nat (map String.length cells) in
  "[" +:+ join " " (map (rjust w) cells) +:+ "]".

(** Rounding of an exact rational to the nearest integer, ties to the
    even neighbour, as Python's number formatting rounds. *)
Definition round_half_even (q : Q) : Z :=
  let n := Qnum q in
  let d := Zpos (Qden q) in
  let f := n / d in
  let r := n mod d in
  if 2 * r <? d then f
  else if d <? 2 * r then f + 1
  else if Z.even f then f else f + 1.

(** [f"{q:.<digits>f}"]. *)
Definition fmt_fixed (digits : nat) (q : Q) : string :=
  let unit := 10 ^ Z.of_nat digits in
  let scaled := Z.abs (round_half_even (q * inject_Z unit)) in
  (if Qnum q <? 0 then "-" else "")
  +:+ str_int (scaled / unit)
  +:+ match digits with
     | O => ""
     | _ => "." +:+ zfill digits (str_int (scaled mod unit))
     end.

(** [f"{q:.<digits>%}"]. *)
Definition fmt_pct (digits : nat) (q : Q) : string :=
  fmt_fixed digits (q * 100) +:+ "%".

(** Groups of three digits from the right, separated by commas. *)
Fixpoint group3 (fuel : nat) (n : Z) : string :=
  match fuel with
  | O => str_int n
  | S fuel' =>
      if n <? 1000 then str_int n
      else group3 fuel' (n / 1000) +:+ "," +:+ zfill 3 (str_int (n mod 1000))
  end.

(** [f"{n:,}"] for an integer. *)
Definition fmt_comma (n : Z) : string :=
  (if n <? 0 then "-" else "") +:+ group3 (Z.to_nat (Z.log2 (Z.abs n))) (Z.abs n).

End Py.

(** ** numpy arrays *)

Module Np.

(** The extents of a three-dimensional array along axes 0, 1 and 2. *)
Definition shape : Type := nat * nat * nat.

Definition extent (s : shape) (dim : nat) : nat :=
  let '(nx, ny, nz) := s in
  match dim with O => nx | 1%nat => ny | _ => nz end.

(** [np.prod(shape)], also [a.size]. *)
Definition size (s : shape) : nat :=
  let '(nx, ny, nz) := s in (nx * ny * nz)%nat.

(** An integer array: its shape and its voxels in C order (the last
    axis varies fastest). *)
Record ndarray : Type := mk_ndarray { arr_shape : shape; arr_data : list Z }.

(** What numpy guarantees of every array it builds. *)
Definition wf (a : ndarray) : Prop := length (arr_data a) = size (arr_shape a).

(** The index of a voxel along [dim], from its flat position. *)
Definition coord (s : shape) (dim : nat) (i : nat) : nat :=
  let '(_, ny, nz) := s in
  match dim with
  | O => ((i / nz) / ny)%nat
  | 1%nat => ((i / nz) mod ny)%nat
  | _ => (i mod nz)%nat
  end.

(** Insertion into a strictly increasing list. *)
Fixpoint insert_sorted (x : Z) (l : list Z) : list Z :=
  match l with
  | [] => [x]
  | y :: rest =>
      if x <? y then x :: l
      else if x =? y then l
      else y :: insert_sorted x rest
  end.

(** [np.unique(a)]: the distinct values of the array, ascending. *)
Definition unique (l : list Z) : list Z := foldr insert_sorted [] l.

(** [np.count_nonzero(a)] for an integer array. *)
Definition count_nonzero (l : list Z) : Z :=
  Z.of_nat (length (List.filter (fun x => negb (x =? 0)) l)).

(** [np.count_nonzero(m)] for a boolean array. *)
Definition count_true (m : list bool) : Z :=
  Z.of_nat (length (List.filter id m)).

(** [a == v], elementwise. *)
Definition eq_mask (l : list Z) (v : Z) : list bool := map (fun x => x =? v) l.

(** [a > 0], elementwise. *)
Definition pos_mask (l : list Z) : list bool := map (fun x => 0 <? x) l.

(** [m1 & m2], elementwise. *)
Definition and_mask (m1 m2 : list bool) : list bool :=
  map (fun p : bool * bool => fst p && snd p) (zip m1 m2).

(** The value of [a] after [a[m] = 0]. *)
Definition zero_where (m : list bool) (l : list Z) : list Z :=
  map (fun p : bool * Z => if fst p then 0 else snd p) (zip m l).

(** [a[m]]: the elements selected by a boolean mask. *)
Definition select (m : list bool) (l : list Z) : list Z :=
  map snd (List.filter (fun p : bool * Z => fst p) (zip m l)).

End Np.

(** The nonzero labels of a volume, ascending:
    [unique_labels = np.unique(seg_data); unique_labels[unique_labels != 0]]. *)
Definition unique_labels (seg_data : list Z) : list Z :=
  List.filter (fun x => negb (x =? 0)) (Np.unique seg_data).

(** ** scipy.ndimage.label

    [ndimage.label(mask)] with its default structuring element, which
    for a three-dimensional input joins face-adjacent voxels
    (6-connectivity).  The library routine is modelled by a raster scan
    that flood-fills every component from its first voxel, so that the
    components are numbered 1..K in the order in which the scan meets
    them. *)

Module Ndimage.

(** The face-adjacent neighbours of the voxel at flat position [i]. *)
Definition neighbours (s : Np.shape) (i : nat) : list nat :=
  let '(nx, ny, nz) := s in
  let x := Np.coord s 0 i in
  let y := Np.coord s 1 i in
  let z := Np.coord s 2 i in
  (if (0 <? x)%nat then [(i - ny * nz)%nat] else [])
  ++ (if (x + 1 <? nx)%nat then [(i + ny * nz)%nat] else [])
  ++ (if (0 <? y)%nat then [(i - nz)%nat] else [])
  ++ (if (y + 1 <? ny)%nat then [(i + nz)%nat] else [])
  ++ (if (0 <? z)%nat then [(i - 1)%nat] else [])
  ++ (if (z + 1 <? nz)%nat then [(i + 1)%nat] else []).

(** One flood fill: every voxel of the mask that is still unlabelled
    and is met from the stack receives the component number [c]. *)
Fixpoint flood (s : Np.shape) (mask : list bool) (c : nat)
    (fuel : nat) (stack : list nat) (lab : list nat) : list nat :=
  match fuel with
  | O => lab
  | S fuel' =>
      match stack with
      | [] => lab
      | i :: rest =>
          if nth i mask false && (nth i lab 0 =? 0)%nat
          then flood s mask c fuel' (neighbours s i ++ rest) (<[i := c]> lab)
          else flood s mask c fuel' rest lab
      end
  end.

(** Fuel that lets a flood fill of [mask] run until its stack is empty. *)
Definition flood_fuel (mask : list bool) : nat := (7 * length mask + 1)%nat.

(** The raster scan: position [i] starts component [k + 1] when it is
    in the mask and not yet labelled. *)
Definition scan_step (s : Np.shape) (mask : list bool)
    (st : list nat * nat) (i : nat) : list nat * nat :=
  let '(lab, k) := st in
  if nth i mask false && (nth i lab 0 =? 0)%nat
  then (flood s mask (S k) (flood_fuel mask) [i] lab, S k)
  else (lab, k).

(** [labeled_array, num_features = ndimage.label(mask)]. *)
Definition label (s : Np.shape) (mask : list bool) : list nat * nat :=
  foldl (scan_step s mask) (replicate (length mask) 0%nat, 0%nat)
        (seq 0 (length mask)).

(** [np.count_nonzero(labeled_array == c)]. *)
Definition component_size (lab : list nat) (c : nat) : Z :=
  Z.of_nat (length (List.filter (fun x => (x =? c)%nat) lab)).

(** [labeled_array == c], elementwise. *)
Definition component_mask (lab : list nat) (c : nat) : list bool :=
  map (fun x => (x =? c)%nat) lab.

End Ndimage.

(** ** Configuration and label catalog *)

(** The configuration dictionary.  A key that is absent is [None];
    [config.get(key, default)] is [default _ (field config)]. *)
Record Config : Type := mk_config {
  cfg_enable_validation : option bool;
  cfg_enable_cleanup : option bool;
  cfg_min_voxels_per_label : option Z;
  cfg_min_voxels_per_component : option Z;
  cfg_max_segmentation_ratio : option Q;
  cfg_min_segmentation_ratio : option Q
}.

(** An entry of the label dictionary; only its ['name'] key is read. *)
Record LabelInfo : Type := mk_label_info { li_name : option string }.

(** [label_dict: Dict[int, Any]]. *)
Abbreviation LabelDict := (gmap Z LabelInfo).

(** ** SegmentationValidator *)

(** The validator object: the four thresholds that [__init__] reads
    from the configuration, with their defaults. *)
Record SegmentationValidator : Type := mk_validator {
  min_voxels_per_label : Z;
  min_voxels_per_component : Z;
  max_segmentation_ratio : Q;
  min_segmentation_ratio : Q
}.

Definition SegmentationValidator_init (config : Config) : SegmentationValidator :=
  {| min_voxels_per_label := default 10 (cfg_min_voxels_per_label config);
     min_voxels_per_component := default 10 (cfg_min_voxels_per_component config);
     max_segmentation_ratio := default (95 # 100)%Q (cfg_max_segmentation_ratio config);
     min_segmentation_ratio := default (1 # 1000)%Q (cfg_min_segmentation_ratio config) |}.

(** What every check returns: [(is_valid, warnings, errors)]. *)
Definition findings : Type := bool * list string * list string.

(** [len(errors) == 0]. *)
Definition no_errors (errors : list string) : bool :=
  (length errors =? 0)%nat.

(** *** validate_labels *)

(** The loop that collects the label IDs missing from the dictionary. *)
Definition unknown_labels (seg_data : list Z) (label_dict : LabelDict) : list Z :=
  List.filter (fun label_id => negb (bool_decide (is_Some (label_dict !! label_id))))
              (unique_labels seg_data).

Definition unknown_labels_warning (unknown : list Z) : string :=
  "Found " +:+ Py.str_int (Z.of_nat (length unknown))
  +:+ " unknown label(s): " +:+ Py.str_list (take 10 unknown)
  +:+ (if (10 <? length unknown)%nat then " (showing first 10)" else "").

Definition validate_labels (self : SegmentationValidator)
    (seg_data : Np.ndarray) (label_dict : LabelDict) : findings :=
  let labels := unique_labels (Np.arr_data seg_data) in
  let unknown := unknown_labels (Np.arr_data seg_data) label_dict in
  let warnings :=
    match unknown with
    | [] => []
    | _ => [unknown_labels_warning unknown]
    end in
  let negative_labels := List.filter (fun l => l <? 0) labels in
  let errors :=
    if (0 <? length negative_labels)%nat
    then ["Found negative label IDs: " +:+ Py.str_ndarray negative_labels]
    else [] in
  (no_errors errors, warnings, errors).

(** *** validate_voxel_counts *)

(** [segmented_voxels / total_voxels if total_voxels > 0 else 0]. *)
Definition ratio_of (segmented_voxels total_voxels : Z) : Q :=
  if 0 <? total_voxels
  then (inject_Z segmented_voxels / inject_Z total_voxels)%Q
  else 0%Q.

(** [a < b] and [a > b] on rationals, as booleans. *)
Definition Qltb (a b : Q) : bool := negb (Qle_bool b a).

Definition over_segmentation_warning (self : SegmentationValidator) (ratio : Q) : string :=
  "Segmentation covers " +:+ Py.fmt_pct 1 ratio +:+ " of volume "
  +:+ "(exceeds " +:+ Py.fmt_pct 1 (max_segmentation_ratio self)
  +:+ " threshold) - possible over-segmentation".

Definition under_segmentation_warning (self : SegmentationValidator) (ratio : Q) : string :=
  "Segmentation covers only " +:+ Py.fmt_pct 1 ratio +:+ " of volume "
  +:+ "(below " +:+ Py.fmt_pct 1 (min_segmentation_ratio self)
  +:+ " threshold) - possible under-segmentation".

(** The [if ... elif ...] on the overall segmentation ratio. *)
Definition ratio_warnings (self : SegmentationValidator) (ratio : Q) : list string :=
  if Qltb (max_segmentation_ratio self) ratio
  then [over_segmentation_warning self ratio]
  else if Qltb ratio (min_segmentation_ratio self)
  then [under_segmentation_warning self ratio]
  else [].

(** [label_dict.get(int(label_id), {}).get('name', fallback)]. *)
Definition label_name_or (label_dict : LabelDict) (label_id : Z) (fallback : string) : string :=
  match label_dict !! label_id with
  | Some info => default fallback (li_name info)
  | None => fallback
  end.

(** The loop over the labels that collects the under-sized ones. *)
Definition small_labels (self : SegmentationValidator)
    (seg_data : list Z) (label_dict : LabelDict) : list string :=
  omap (fun label_id =>
          let voxel_count := Np.count_true (Np.eq_mask seg_data label_id) in
          if voxel_count <? min_voxels_per_label self
          then
            let label_name :=
              label_name_or label_dict label_id ("Label " +:+ Py.str_int label_id) in
            Some (label_name +:+ " (ID: " +:+ Py.str_int label_id +:+ "): "
                  +:+ Py.str_int voxel_count +:+ " voxels")
          else None)
       (unique_labels seg_data).

Definition small_labels_warning (self : SegmentationValidator) (small : list string) : string :=
  "Found " +:+ Py.str_int (Z.of_nat (length small)) +:+ " label(s) with < "
  +:+ Py.str_int (min_voxels_per_label self) +:+ " voxels: "
  +:+ Py.join ", " (take 5 small)
  +:+ (if (5 <? length small)%nat
       then " (showing first 5 of " +:+ Py.str_int (Z.of_nat (length small)) +:+ ")"
       else "").

Definition validate_voxel_counts (self : SegmentationValidator)
    (seg_data : Np.ndarray) (label_dict : LabelDict) (total_voxels : Z) : findings :=
  let segmented_voxels := Np.count_nonzero (Np.arr_data seg_data) in
  let segmentation_ratio := ratio_of segmented_voxels total_voxels in
  let small := small_labels self (Np.arr_data seg_data) label_dict in
  let warnings :=
    ratio_warnings self segmentation_ratio
    ++ match small with
       | [] => []
       | _ => [small_labels_warning self small]
       end in
  (no_errors [], warnings, []).

(** *** validate_spatial_consistency *)

(** The body of the loop over the labels: the number of small
    components that one label adds to [total_small_components]. *)
Definition small_components_of (self : SegmentationValidator)
    (seg_data : Np.ndarray) (label_id : Z) : Z :=
  let label_mask := Np.eq_mask (Np.arr_data seg_data) label_id in
  let '(labeled_array, num_features) :=
    Ndimage.label (Np.arr_shape seg_data) label_mask in
  if (1 <? num_features)%nat
  then
    let component_sizes :=
      map (Ndimage.component_size labeled_array) (seq 1 num_features) in
    let small_components :=
      List.filter (fun size => size <? min_voxels_per_component self) component_sizes in
    Z.of_nat (length small_components)
  else 0.

Definition total_small_components (self : SegmentationValidator)
    (seg_data : Np.ndarray) : Z :=
  foldl (fun total label_id => total + small_components_of self seg_data label_id)
        0 (unique_labels (Np.arr_data seg_data)).

Definition small_components_warning (self : SegmentationValidator) (total : Z) : string :=
  "Found " +:+ Py.str_int total +:+ " small isolated component(s) "
  +:+ "(< " +:+ Py.str_int (min_voxels_per_component self)
  +:+ " voxels each) - possible noise".

Definition validate_spatial_consistency (self : SegmentationValidator)
    (seg_data : Np.ndarray) : findings :=
  let total := total_small_components self seg_data in
  let warnings :=
    if 0 <? total then [small_components_warning self total] else [] in
  (no_errors [], warnings, []).

(** *** validate_statistics *)

(** [label_counts]: a dictionary filled in ascending label order, kept
    as the list of its items in insertion order. *)
Definition label_counts (seg_data : list Z) : list (Z * Z) :=
  omap (fun label_id =>
          if negb (label_id =? 0)
          then Some (label_id, Np.count_true (Np.eq_mask seg_data label_id))
          else None)
       (Np.unique seg_data).

(** [max(values)] of a non-empty dictionary. *)
Definition max_value (items : list (Z * Z)) : Z :=
  match items with
  | [] => 0
  | (_, c) :: rest => foldl Z.max c (map snd rest)
  end.

(** [max(d, key=d.get)]: the first key, in insertion order, whose
    value is maximal. *)
Definition max_key (items : list (Z * Z)) : Z :=
  match items with
  | [] => 0
  | first :: rest =>
      fst (foldl (fun best item => if snd best <? snd item then item else best)
                 first rest)
  end.

Definition dominance_warning (max_label_id : Z) (max_ratio : Q) : string :=
  "Single label (ID: " +:+ Py.str_int max_label_id +:+ ") dominates segmentation "
  +:+ "(" +:+ Py.fmt_pct 1 max_ratio +:+ " of segmented voxels)".

Definition empty_segmentation_error : string :=
  "Segmentation is completely empty (only background)".

Definition validate_statistics (self : SegmentationValidator)
    (seg_data : Np.ndarray) (input_data : option Np.ndarray) : findings :=
  let labels := Np.unique (Np.arr_data seg_data) in
  if (length labels =? 1)%nat && (nth 0 labels 1 =? 0)
  then (false, [], [empty_segmentation_error])
  else
    let counts := label_counts (Np.arr_data seg_data) in
    let warnings :=
      match counts with
      | [] => []
      | _ =>
          let total_segmented := foldr Z.add 0 (map snd counts) in
          let max_label_count := max_value counts in
          let max_ratio := ratio_of max_label_count total_segmented in
          if Qltb (9 # 10)%Q max_ratio
          then [dominance_warning (max_key counts) max_ratio]
          else []
      end in
    (no_errors [], warnings, []).

(** *** validate_dimensions *)

(** A NIfTI image as the validator sees it: the shape, the affine
    matrix (its sixteen entries, row by row), the header, and the
    voxel values.  Label volumes and reference volumes are
    three-dimensional. *)
Record Nifti1Image : Type := mk_image {
  img_shape : Np.shape;
  img_affine : list Q;
  img_header : string;
  img_dataobj : list Z
}.

(** The shape as the tuple that Python sees. *)
Definition shape_tuple (s : Np.shape) : list nat :=
  let '(nx, ny, nz) := s in [nx; ny; nz].

(** [str(t)] for a shape tuple. *)
Definition str_shape (s : Np.shape) : string :=
  "(" +:+ Py.join ", " (map (fun n => Py.str_int (Z.of_nat n)) (shape_tuple s)) +:+ ")".

(** [np.allclose(a, b, atol=atol)] with the default [rtol = 1e-5]:
    [|a - b| <= atol + rtol * |b|] at every entry. *)
Definition allclose (a b : list Q) (atol : Q) : bool :=
  forallb (fun p : Q * Q =>
             Qle_bool (Qabs (fst p - snd p)) (atol + (1 # 100000) * Qabs (snd p)))
          (zip a b).

Definition validate_dimensions (self : SegmentationValidator)
    (seg_img : Nifti1Image) (input_img : option Nifti1Image)
    : bool * list string :=
  let seg_shape := img_shape seg_img in
  if (length (shape_tuple seg_shape) <? 3)%nat
  then (false, ["Segmentation has invalid dimensions: " +:+ str_shape seg_shape])
  else
    let errors :=
      match input_img with
      | Some input =>
          let input_shape := img_shape input in
          (if bool_decide (seg_shape = input_shape) then []
           else ["Dimension mismatch: segmentation " +:+ str_shape seg_shape
                 +:+ " != input " +:+ str_shape input_shape])
          ++ (if allclose (img_affine seg_img) (img_affine input) (1 # 1000)%Q then []
              else ["Affine matrix mismatch between segmentation and input"])
      | None => []
      end in
    (no_errors errors, errors).

(** ** The store of arrays

    The cleaner copies its argument and then assigns into the copy, so
    its arrays are objects in a store: a [heap] lists the arrays
    allocated so far, and a reference is a position in it. *)

Abbreviation loc := nat (only parsing).
Abbreviation heap := (list Np.ndarray) (only parsing).

#[global] Instance ndarray_inhabited : Inhabited Np.ndarray :=
  populate (Np.mk_ndarray (0, 0, 0)%nat []).

(** Computations that read and update the store. *)
Definition M (A : Type) : Type := heap -> A * heap.

#[global] Instance M_ret : MRet M := fun A x h => (x, h).
#[global] Instance M_bind : MBind M :=
  fun A B f m h => let '(x, h') := m h in f x h'.

(** A new array object holding [a]. *)
Definition alloc (a : Np.ndarray) : M loc := fun h => (length h, h ++ [a]).

(** The array that a reference denotes. *)
Definition read (r : loc) : M Np.ndarray := fun h => (h !!! r, h).

(** [a.copy()]. *)
Definition np_copy (r : loc) : M loc := a ← read r; alloc a.

(** [a[mask] = 0]: an assignment into the array object at [r]. *)
Definition assign_zero (r : loc) (mask : list bool) : M unit :=
  fun h =>
    (tt, alter (fun a => Np.mk_ndarray (Np.arr_shape a)
                           (Np.zero_where mask (Np.arr_data a))) r h).

(** A [for] loop that threads a value and the store through its body. *)
Fixpoint for_each {A B : Type} (body : B -> A -> M B) (acc : B) (l : list A) : M B :=
  match l with
  | [] => mret acc
  | x :: rest => acc' ← body acc x; for_each body acc' rest
  end.

(** ** SegmentationCleaner *)

Record SegmentationCleaner : Type := mk_cleaner {
  cleaner_min_voxels_per_component : Z
}.

Definition SegmentationCleaner_init (config : Config) : SegmentationCleaner :=
  {| cleaner_min_voxels_per_component :=
       default 10 (cfg_min_voxels_per_component config) |}.

(** *** remove_small_components *)

(** The inner loop: [for i, size in enumerate(component_sizes, start=1)]. *)
Definition remove_components (cleaned_data : loc) (min_voxels : Z)
    (labeled_array : list nat) (total_removed : Z)
    (sizes : list (nat * Z)) : M Z :=
  for_each (fun total_removed (entry : nat * Z) =>
              let '(i, size) := entry in
              if size <? min_voxels
              then
                _ ← assign_zero cleaned_data (Ndimage.component_mask labeled_array i);
                mret (total_removed + 1)
              else mret total_removed)
           total_removed sizes.

(** The body of the loop [for label_id in unique_labels]. *)
Definition remove_label (cleaned_data : loc) (min_voxels : Z)
    (total_removed : Z) (label_id : Z) : M Z :=
  cur ← read cleaned_data;
  let label_mask := Np.eq_mask (Np.arr_data cur) label_id in
  let '(labeled_array, num_features) :=
    Ndimage.label (Np.arr_shape cur) label_mask in
  if (0 <? num_features)%nat
  then
    let component_sizes :=
      map (Ndimage.component_size labeled_array) (seq 1 num_features) in
    remove_components cleaned_data min_voxels labeled_array total_removed
                      (zip (seq 1 num_features) component_sizes)
  else mret total_removed.

Definition remove_small_components (self : SegmentationCleaner)
    (seg_data : loc) (min_voxels : option Z) : M (loc * Z) :=
  let min_voxels := default (cleaner_min_voxels_per_component self) min_voxels in
  cleaned_data ← np_copy seg_data;
  seg ← read seg_data;
  total_removed ← for_each (remove_label cleaned_data min_voxels) 0
                           (unique_labels (Np.arr_data seg));
  mret (cleaned_data, total_removed).

(** *** clean_artifacts *)

Definition edge_thickness : nat := 2.

(** [edge_mask]: true on the slab [slice(0, edge_thickness)] of axis
    [dim] when [high] is false, and on [slice(-edge_thickness, None)]
    when it is true. *)
Definition edge_mask (s : Np.shape) (dim : nat) (high : bool) : list bool :=
  map (fun i =>
         let c := Np.coord s dim i in
         if high then (Np.extent s dim - edge_thickness <=? c)%nat
         else (c <? edge_thickness)%nat)
      (seq 0 (Np.size s)).

(** [np.prod(cleaned_data[tuple(edge_slice)].shape)]: the number of
    voxels of the slab. *)
Definition slab_size (s : Np.shape) (dim : nat) : Z :=
  let '(nx, ny, nz) := s in
  let thick := Nat.min edge_thickness (Np.extent s dim) in
  Z.of_nat (match dim with
            | O => thick * ny * nz
            | 1%nat => nx * thick * nz
            | _ => nx * ny * thick
            end).

(** One of the two blocks of the loop body: the slab at the start
    ([high = false]) or at the end ([high = true]) of axis [dim]. *)
Definition clean_face (cleaned_data : loc) (edge_voxels_removed : Z)
    (face : nat * bool) : M Z :=
  let '(dim, high) := face in
  cur ← read cleaned_data;
  let mask := edge_mask (Np.arr_shape cur) dim high in
  let edge_voxels :=
    Np.count_true (Np.pos_mask (Np.select mask (Np.arr_data cur))) in
  if 0 <? edge_voxels
  then
    let edge_ratio :=
      (inject_Z edge_voxels / inject_Z (slab_size (Np.arr_shape cur) dim))%Q in
    if Qltb edge_ratio (1 # 10)%Q
    then
      _ ← assign_zero cleaned_data
            (Np.and_mask mask (Np.pos_mask (Np.arr_data cur)));
      mret (edge_voxels_removed + edge_voxels)
    else mret edge_voxels_removed
  else mret edge_voxels_removed.

(** The six faces in the order in which [for dim in range(3)] visits
    them. *)
Definition faces : list (nat * bool) :=
  flat_map (fun dim => [(dim, false); (dim, true)]) (seq 0 3).

(** The [stats] dictionary of [clean_artifacts]. *)
Record ArtifactStats : Type := mk_artifact_stats {
  edge_voxels_removed : Z;
  total_cleaned : Z
}.

Definition clean_artifacts (self : SegmentationCleaner)
    (seg_data : loc) : M (loc * ArtifactStats) :=
  cleaned_data ← np_copy seg_data;
  removed ← for_each (clean_face cleaned_data) 0 faces;
  mret (cleaned_data,
        {| edge_voxels_removed := removed; total_cleaned := removed |}).

(** ** validate_and_clean *)

(** The [stats] dictionary of a result; a key that was never set is
    [None]. *)
Record Stats : Type := mk_stats {
  st_total_voxels : option Z;
  st_segmented_voxels : option Z;
  st_segmentation_ratio : option Q;
  st_num_labels : option Z;
  st_label_ids : option (list Z);
  st_components_removed : option Z;
  st_artifacts_removed : option Z
}.

(** The result dictionary. *)
Record ValidationResult : Type := mk_result {
  valid : bool;
  warnings : list string;
  errors : list string;
  stats : Stats;
  cleaned : bool;
  cleaned_img : option Nifti1Image
}.

(** A value stored as [np.int16]: two's complement on 16 bits (the
    identity on every value between -32768 and 32767). *)
Definition int16 (z : Z) : Z := (z + 32768) mod 65536 - 32768.

(** [img.get_fdata().astype(np.int16)]: a new array. *)
Definition get_fdata_int16 (img : Nifti1Image) : M loc :=
  alloc (Np.mk_ndarray (img_shape img) (map int16 (img_dataobj img))).

(** [a.astype(np.int16)]: a new array. *)
Definition astype_int16 (r : loc) : M loc :=
  a ← read r;
  alloc (Np.mk_ndarray (Np.arr_shape a) (map int16 (Np.arr_data a))).

(** The first part of [validate_and_clean], up to
    [result['valid'] = len(result['errors']) == 0]: the statistics and
    the five checks, on the label volume [seg_data]. *)
Definition run_validations (segmentation_img : Nifti1Image)
    (input_img : option Nifti1Image) (label_dict : LabelDict)
    (config : Config) (seg_data : Np.ndarray) : ValidationResult :=
  let total_voxels := Z.of_nat (Np.size (Np.arr_shape seg_data)) in
  let validator := SegmentationValidator_init config in
  let labels := unique_labels (Np.arr_data seg_data) in
  let segmented_voxels := Np.count_nonzero (Np.arr_data seg_data) in
  let stats0 :=
    {| st_total_voxels := Some total_voxels;
       st_segmented_voxels := Some segmented_voxels;
       st_segmentation_ratio := Some (ratio_of segmented_voxels total_voxels);
       st_num_labels := Some (Z.of_nat (length labels));
       st_label_ids := Some labels;
       st_components_removed := None;
       st_artifacts_removed := None |} in
  let '(dim_valid, dim_errors) :=
    validate_dimensions validator segmentation_img input_img in
  let '(label_valid, label_warnings, label_errors) :=
    validate_labels validator seg_data label_dict in
  let '(voxel_valid, voxel_warnings, voxel_errors) :=
    validate_voxel_counts validator seg_data label_dict total_voxels in
  let '(spatial_valid, spatial_warnings, spatial_errors) :=
    validate_spatial_consistency validator seg_data in
  let input_data :=
    (fun img => Np.mk_ndarray (img_shape img) (img_dataobj img)) <$> input_img in
  let '(stats_valid, stats_warnings, stats_errors) :=
    validate_statistics validator seg_data input_data in
  let all_warnings :=
    label_warnings ++ voxel_warnings ++ spatial_warnings ++ stats_warnings in
  let all_errors :=
    dim_errors ++ label_errors ++ voxel_errors ++ spatial_errors ++ stats_errors in
  {| valid := no_errors all_errors;
     warnings := all_warnings;
     errors := all_errors;
     stats := stats0;
     cleaned := false;
     cleaned_img := None |}.

(** The condition of the [if] that guards the cleanup. *)
Definition cleanup_due (config : Config) (result : ValidationResult) : bool :=
  default true (cfg_enable_cleanup config)
  && ((0 <? length (warnings result))%nat || (0 <? length (errors result))%nat).

Definition validate_and_clean (segmentation_img : Nifti1Image)
    (input_img : option Nifti1Image) (label_dict : LabelDict)
    (config : Config) : M ValidationResult :=
  seg_data ← get_fdata_int16 segmentation_img;
  seg ← read seg_data;
  let cleaner := SegmentationCleaner_init config in
  let result := run_validations segmentation_img input_img label_dict config seg in
  if cleanup_due config result
  then
    '(cleaned_data, num_removed) ← remove_small_components cleaner seg_data None;
    '(cleaned_data, artifact_stats) ← clean_artifacts cleaner cleaned_data;
    if (0 <? num_removed) || (0 <? total_cleaned artifact_stats)
    then
      converted ← astype_int16 cleaned_data;
      voxels ← read converted;
      let image :=
        {| img_shape := Np.arr_shape voxels;
           img_affine := img_affine segmentation_img;
           img_header := img_header segmentation_img;
           img_dataobj := Np.arr_data voxels |} in
      let st := stats result in
      mret {| valid := valid result;
              warnings := warnings result;
              errors := errors result;
              stats :=
                {| st_total_voxels := st_total_voxels st;
                   st_segmented_voxels := st_segmented_voxels st;
                   st_segmentation_ratio := st_segmentation_ratio st;
                   st_num_labels := st_num_labels st;
                   st_label_ids := st_label_ids st;
                   st_components_removed := Some num_removed;
                   st_artifacts_removed := Some (total_cleaned artifact_stats) |};
              cleaned := true;
              cleaned_img := Some image |}
    else mret result
  else mret result.

(** ** generate_validation_report *)

Module Report.

(** A reading of the wall clock, as [datetime.now()] returns it. *)
Record datetime : Type := mk_datetime {
  year : Z; month : Z; day : Z; hour : Z; minute : Z; second : Z
}.

(** [now.strftime('%Y-%m-%d %H:%M:%S')]. *)
Definition strftime (now : datetime) : string :=
  Py.zfill 4 (Py.str_int (year now)) +:+ "-"
  +:+ Py.zfill 2 (Py.str_int (month now)) +:+ "-"
  +:+ Py.zfill 2 (Py.str_int (day now)) +:+ " "
  +:+ Py.zfill 2 (Py.str_int (hour now)) +:+ ":"
  +:+ Py.zfill 2 (Py.str_int (minute now)) +:+ ":"
  +:+ Py.zfill 2 (Py.str_int (second now)).

(** A [pathlib.Path], as the tuple of its components ([path.parts]). *)
Definition Path : Type := list string.

(** [path.name]: the final component. *)
Definition path_name (path : Path) : string := default "" (last path).

(** The digits of [r / d] after the decimal point, until the expansion
    ends or [fuel] digits are written. *)
Fixpoint frac_digits (fuel : nat) (r d : Z) : string :=
  match fuel with
  | O => ""
  | S fuel' =>
      if r =? 0 then ""
      else Py.str_int (10 * r / d) +:+ frac_digits fuel' (10 * r mod d) d
  end.

(** [str(x)] for a float that was written as a short decimal, such as
    the thresholds [0.95] and [0.001] (Python's exponent notation for
    very small and very large magnitudes is left out). *)
Definition str_float (q : Q) : string :=
  let n := Z.abs (Qnum q) in
  let d := Zpos (Qden q) in
  (if Qnum q <? 0 then "-" else "")
  +:+ Py.str_int (n / d) +:+ "."
  +:+ (if n mod d =? 0 then "0" else frac_digits 17 (n mod d) d).

(** [str(b)] for a boolean. *)
Definition str_bool (b : bool) : string := if b then "True" else "False".

(** [config.get(key, 'N/A')] inside an f-string. *)
Definition show_setting {A : Type} (show : A -> string) (value : option A) : string :=
  match value with
  | Some v => show v
  | None => "N/A"
  end.

(** The end-of-line character that joins the lines. *)
Definition newline : string := String (ascii_of_nat 10) EmptyString.

(** [for i, item in enumerate(items, 1)], one line per item. *)
Definition numbered (mark : string) (items : list string) : list string :=
  map (fun p : nat * string =>
         Py.str_int (Z.of_nat (fst p)) +:+ ". " +:+ mark +:+ " " +:+ snd p)
      (zip (seq 1 (length items)) items).

Definition header_lines (patient_id scan_name : string)
    (nifti_file_path : Path) (now : datetime) : list string :=
  [ "# Segmentation Validation Report";
    "";
    "**Patient ID:** " +:+ patient_id;
    "**Scan:** " +:+ scan_name;
    "**Input File:** " +:+ path_name nifti_file_path;
    "**Generated:** " +:+ strftime now;
    "";
    "---";
    "" ].

Definition status_lines (result : ValidationResult) : list string :=
  [ "## Overall Status";
    "";
    (if valid result && negb (0 <? length (warnings result))%nat
     then "✅ **PASSED** - No issues detected"
     else if valid result
     then "⚠️ **PASSED WITH WARNINGS** - "
          +:+ Py.str_int (Z.of_nat (length (warnings result))) +:+ " warning(s) found"
     else "❌ **FAILED** - "
          +:+ Py.str_int (Z.of_nat (length (errors result))) +:+ " error(s) found");
    "" ].

(** ['label_ids' in stats and stats['label_ids']], as the list to use
    when the test succeeds. *)
Definition present_label_ids (st : Stats) : option (list Z) :=
  match st_label_ids st with
  | Some (id :: ids) => Some (id :: ids)
  | _ => None
  end.

Definition statistics_lines (result : ValidationResult) : list string :=
  let st := stats result in
  [ "## Statistics";
    "";
    "| Metric | Value |";
    "|--------|-------|";
    "| Total Voxels | " +:+ Py.fmt_comma (default 0 (st_total_voxels st)) +:+ " |";
    "| Segmented Voxels | " +:+ Py.fmt_comma (default 0 (st_segmented_voxels st)) +:+ " |";
    "| Segmentation Ratio | "
      +:+ Py.fmt_pct 2 (default 0%Q (st_segmentation_ratio st)) +:+ " |";
    "| Number of Labels | " +:+ Py.str_int (default 0 (st_num_labels st)) +:+ " |" ]
  ++ match present_label_ids st with
     | Some ids =>
         let label_list :=
           Py.join ", " (map Py.str_int (take 20 ids))
           +:+ (if (20 <? length ids)%nat
                then " ... (and " +:+ Py.str_int (Z.of_nat (length ids) - 20) +:+ " more)"
                else "") in
         [ "| Label IDs | " +:+ label_list +:+ " |" ]
     | None => []
     end
  ++ (if cleaned result
      then [ ""; "### Cleanup Statistics"; ""; "| Operation | Count |";
             "|-----------|-------|" ]
           ++ match st_components_removed st with
              | Some n => [ "| Small Components Removed | " +:+ Py.str_int n +:+ " |" ]
              | None => []
              end
           ++ match st_artifacts_removed st with
              | Some n => [ "| Artifact Voxels Removed | " +:+ Py.str_int n +:+ " |" ]
              | None => []
              end
      else [])
  ++ [ "" ].

Definition findings_lines (result : ValidationResult) : list string :=
  match errors result with
  | [] => []
  | errs => [ "## Errors"; "" ] ++ numbered "❌" errs ++ [ "" ]
  end
  ++ match warnings result with
     | [] => []
     | warns => [ "## Warnings"; "" ] ++ numbered "⚠️" warns ++ [ "" ]
     end.

Definition configuration_lines (validation_config : Config) : list string :=
  [ "## Validation Configuration";
    "";
    "| Setting | Value |";
    "|---------|-------|";
    "| Validation Enabled | "
      +:+ show_setting str_bool (cfg_enable_validation validation_config) +:+ " |";
    "| Cleanup Enabled | "
      +:+ show_setting str_bool (cfg_enable_cleanup validation_config) +:+ " |";
    "| Min Voxels per Label | "
      +:+ show_setting Py.str_int (cfg_min_voxels_per_label validation_config) +:+ " |";
    "| Min Voxels per Component | "
      +:+ show_setting Py.str_int (cfg_min_voxels_per_component validation_config) +:+ " |";
    "| Max Segmentation Ratio | "
      +:+ show_setting str_float (cfg_max_segmentation_ratio validation_config) +:+ " |";
    "| Min Segmentation Ratio | "
      +:+ show_setting str_float (cfg_min_segmentation_ratio validation_config) +:+ " |";
    "" ].

(** One row of the label table. *)
Definition label_row (LABEL_DICT : LabelDict) (result : ValidationResult)
    (label_id : Z) : string :=
  let label_name :=
    label_name_or LABEL_DICT label_id
      ("Unknown (ID: " +:+ Py.str_int label_id +:+ ")") in
  let label_warnings :=
    List.filter (fun w => Py.contains ("ID: " +:+ Py.str_int label_id) w
                          || Py.contains label_name w)
                (warnings result) in
  let status :=
    match label_warnings with
    | [] => "✅ OK"
    | _ => "⚠️ " +:+ Py.str_int (Z.of_nat (length label_warnings)) +:+ " warning(s)"
    end in
  "| " +:+ Py.str_int label_id +:+ " | " +:+ label_name +:+ " | " +:+ status +:+ " |".

Definition label_lines (LABEL_DICT : LabelDict) (result : ValidationResult)
    : list string :=
  match present_label_ids (stats result) with
  | Some ids =>
      [ "## Label Details"; ""; "| Label ID | Label Name | Status |";
        "|----------|-----------|--------|" ]
      ++ map (label_row LABEL_DICT result) ids
      ++ [ "" ]
  | None => []
  end.

Definition recommendations (result : ValidationResult) : list string :=
  let st := stats result in
  let ratio := default 0%Q (st_segmentation_ratio st) in
  let found :=
    (match errors result with
     | [] => []
     | _ => [ "- **Review errors immediately** - Critical issues detected that may affect segmentation quality" ]
     end)
    ++ (if (5 <? length (warnings result))%nat
        then [ "- **Multiple warnings detected** - Consider reviewing segmentation parameters or input image quality" ]
        else [])
    ++ (if Qltb (9 # 10)%Q ratio
        then [ "- **High segmentation ratio** - Segmentation covers most of the volume. Verify this is expected for your use case." ]
        else [])
    ++ (if Qltb ratio (1 # 100)%Q
        then [ "- **Low segmentation ratio** - Segmentation covers very little of the volume. Consider checking if target structures are present in the image." ]
        else [])
    ++ (if default 0 (st_num_labels st) =? 0
        then [ "- **No labels found** - Segmentation appears empty. Check if segmentation completed successfully." ]
        else [])
    ++ (if cleaned result
        then [ "- **Cleanup was applied** - Review cleaned segmentation to ensure valid structures were not removed" ]
        else []) in
  match found with
  | [] => [ "- **No issues detected** - Segmentation quality appears good" ]
  | _ => found
  end.

Definition recommendation_lines (result : ValidationResult) : list string :=
  [ "## Recommendations"; "" ] ++ recommendations result ++ [ "" ].

Definition footer_lines : list string :=
  [ "---";
    "";
    "*This report was automatically generated by the Vista-3D segmentation validation system.*";
    "";
    "*For more information about validation settings and configuration, see the documentation in the project's docs folder.*" ].

(** [report_lines] at the end of the function.  [LABEL_DICT] is the
    module-level catalog and [now] the reading that [datetime.now()]
    returns during the call. *)
Definition report_lines (LABEL_DICT : LabelDict) (now : datetime)
    (validation_results : list ValidationResult)
    (patient_id scan_name : string) (nifti_file_path : Path)
    (validation_config : Config) : list string :=
  header_lines patient_id scan_name nifti_file_path now
  ++ match last validation_results with
     | Some result =>
         status_lines result
         ++ statistics_lines result
         ++ findings_lines result
         ++ configuration_lines validation_config
         ++ label_lines LABEL_DICT result
         ++ recommendation_lines result
         ++ footer_lines
     | None => []
     end.

Definition generate_validation_report (LABEL_DICT : LabelDict) (now : datetime)
    (validation_results : list ValidationResult)
    (patient_id scan_name : string) (nifti_file_path : Path)
    (validation_config : Config) : string :=
  Py.join newline
    (report_lines LABEL_DICT now validation_results
                  patient_id scan_name nifti_file_path validation_config).

End Report.

(** ** The label catalog and the voxel files of segment.py *)

(** An item of [label_colors_list], by the two keys that the module
    reads: ['id'] and ['name']. *)
Record LabelItem : Type := mk_label_item { item_id : Z; item_name : string }.

(** The item as a value of the label dictionary. *)
Definition label_info_of (item : LabelItem) : LabelInfo :=
  {| li_name := Some (item_name item) |}.

(** [LABEL_DICT = {item['id']: item for item in label_colors_list}]. *)
Definition LABEL_DICT (label_colors_list : list LabelItem) : LabelDict :=
  foldl (fun d item => <[item_id item := label_info_of item]> d) ∅ label_colors_list.

(** [NAME_TO_ID_MAP = {item['name']: item['id'] for item in label_colors_list}]. *)
Definition NAME_TO_ID_MAP (label_colors_list : list LabelItem) : gmap string Z :=
  foldl (fun d item => <[item_name item := item_id item]> d) ∅ label_colors_list.

(** [s.replace(old, new)] for a non-empty [old]: the occurrences of
    [old] are replaced from left to right, without overlap.  [skip] is
    the number of characters of a replaced occurrence still to pass. *)
Fixpoint replace_from (old new : string) (skip : nat) (s : string) : string :=
  match s with
  | EmptyString => EmptyString
  | String c rest =>
      match skip with
      | S k => replace_from old new k rest
      | O =>
          if String.prefix old s
          then new +:+ replace_from old new (String.length old - 1) rest
          else String c (replace_from old new 0 rest)
      end
  end.

Definition str_replace (old new s : string) : string := replace_from old new 0 s.

(** [a[mask] = v]. *)
Definition np_assign (mask : list bool) (v : Z) (l : list Z) : list Z :=
  map (fun p : bool * Z => if fst p then v else snd p) (zip mask l).

(** [np.any(m)]. *)
Definition np_any (m : list bool) : bool := existsb id m.

(** What [create_individual_voxel_files] does to the file system. *)
Inductive fs_event : Type :=
| Mkdir (path : Report.Path)
| Save (img : Nifti1Image) (path : Report.Path).

Section VoxelFiles.

(** [str.lower()]; the Unicode case tables are not spelled out. *)
Variable str_lower : string -> string.

(** [path / name] of [pathlib]. *)
Variable joinpath : Report.Path -> string -> Report.Path.

(** The body of the loop [for label_id in unique_labels].  The state
    is the file-system events so far and the list [created_files], or
    [None] once [label_info['name']] has raised [KeyError]. *)
Definition create_voxel_file (LABEL_DICT : LabelDict) (data : Np.ndarray)
    (affine : list Q) (header : string) (ct_voxels_dir : Report.Path)
    (st : list fs_event * option (list string)) (label_id : Z)
    : list fs_event * option (list string) :=
  match snd st with
  | None => st
  | Some created_files =>
      match LABEL_DICT !! label_id with
      | None => st
      | Some label_info =>
          match li_name label_info with
          | None => (fst st, None)
          | Some name =>
              let label_name :=
                str_replace "-" "_" (str_replace " " "_" (str_lower name)) in
              let label_data :=
                np_assign (Np.eq_mask (Np.arr_data data) label_id) label_id
                          (replicate (length (Np.arr_data data)) 0) in
              if np_any (Np.pos_mask label_data)
              then
                let label_img :=
                  {| img_shape := Np.arr_shape data;
                     img_affine := affine;
                     img_header := header;
                     img_dataobj := label_data |} in
                let voxel_filename := label_name +:+ ".nii.gz" in
                let voxel_path := joinpath ct_voxels_dir voxel_filename in
                (fst st ++ [Save label_img voxel_path],
                 Some (created_files ++ [voxel_filename]))
              else st
          end
      end
  end.

(** [create_individual_voxel_files]: the events and the returned
    [created_files].  [LABEL_DICT] is the module-level catalog; what is
    printed is left out, and so are the failures of the file system. *)
Definition create_individual_voxel_files (LABEL_DICT : LabelDict)
    (segmentation_img : Nifti1Image) (ct_scan_name : string)
    (voxels_base_dir : Report.Path) (target_vessel_ids : list Z)
    : list fs_event * option (list string) :=
  let ct_scan_folder_name :=
    str_replace ".nii" "" (str_replace ".nii.gz" "" ct_scan_name) in
  let ct_voxels_dir := joinpath voxels_base_dir ct_scan_folder_name in
  let data :=
    Np.mk_ndarray (img_shape segmentation_img)
                  (map int16 (img_dataobj segmentation_img)) in
  let affine := img_affine segmentation_img in
  let header := img_header segmentation_img in
  foldl (create_voxel_file LABEL_DICT data affine header ct_voxels_dir)
        ([Mkdir ct_voxels_dir], Some [])
        (unique_labels (Np.arr_data data)).

End VoxelFiles.

(** * Properties *)

(** ** Facts about [np.unique] *)

Section Unique.

Lemma elem_of_insert_sorted (x y : Z) (l : list Z) :
  x ∈ Np.insert_sorted y l ↔ x = y ∨ x ∈ l.
Proof.
  induction l as [|z l IH]; simpl.
  - rewrite list_elem_of_singleton, elem_of_nil. tauto.
  - destruct (Z.ltb_spec y z); [by rewrite elem_of_cons|].
    destruct (Z.eqb_spec y z) as [->|Hne].
    + rewrite elem_of_cons. tauto.
    + rewrite !elem_of_cons, IH. tauto.
Qed.

Lemma elem_of_unique (x : Z) (l : list Z) : x ∈ Np.unique l ↔ x ∈ l.
Proof.
  induction l as [|y l IH]; simpl; [done|].
  rewrite elem_of_insert_sorted, elem_of_cons, IH. done.
Qed.

(** Every element of the list is above [b]. *)
Definition above (b : Z) (l : list Z) : Prop := Forall (fun x => b < x) l.

(** The list increases strictly. *)
Fixpoint ascending (l : list Z) : Prop :=
  match l with
  | [] => True
  | x :: rest => above x rest ∧ ascending rest
  end.

Lemma insert_sorted_above (b x : Z) (l : list Z) :
  b < x → above b l → above b (Np.insert_sorted x l).
Proof.
  unfold above. intros Hb Hl. apply Forall_forall. intros y Hy.
  apply elem_of_insert_sorted in Hy as [->|Hy]; [done|].
  by eapply Forall_forall in Hl. 
Qed.

Lemma insert_sorted_ascending (x : Z) (l : list Z) :
  ascending l → ascending (Np.insert_sorted x l).
Proof.
  induction l as [|y l IH]; simpl; [by split; [constructor|]|].
  intros [Hy Hl].
  destruct (Z.ltb_spec x y).
  - simpl. split; [|done]. constructor; [done|].
    eapply Forall_impl; [exact Hy|]. simpl. lia.
  - destruct (Z.eqb_spec x y); [done|]. simpl. split; [|by apply IH].
    apply insert_sorted_above; [lia|done].
Qed.

Lemma unique_ascending (l : list Z) : ascending (Np.unique l).
Proof.
  induction l; simpl; [done|]. by apply insert_sorted_ascending.
Qed.

Lemma ascending_filter (f : Z → bool) (l : list Z) :
  ascending l → ascending (List.filter f l).
Proof.
  induction l as [|x l IH]; simpl; [done|]. intros [Hx Hl].
  assert (above x (List.filter f l)).
  { apply Forall_forall. intros y Hy%list_elem_of_In%filter_In.
    destruct Hy as [Hy%list_elem_of_In _]. by eapply Forall_forall in Hx. }
  destruct (f x); simpl; auto.
Qed.

Lemma ascending_NoDup (l : list Z) : ascending l → NoDup l.
Proof.
  induction l as [|x l IH]; simpl; [constructor|]. intros [Hx Hl].
  constructor; [|auto]. intros Hin.
  eapply Forall_forall in Hx; [|exact Hin]. lia.
Qed.

(** Two strictly increasing lists with the same elements are equal. *)
Lemma ascending_ext (l1 l2 : list Z) :
  ascending l1 → ascending l2 → (∀ x, x ∈ l1 ↔ x ∈ l2) → l1 = l2.
Proof.
  revert l2. induction l1 as [|x l1 IH]; intros [|y l2]; simpl.
  - done.
  - intros _ _ H. pose proof (proj2 (H y) (list_elem_of_here _ _)) as Hy.
    by apply elem_of_nil in Hy.
  - intros _ _ H. pose proof (proj1 (H x) (list_elem_of_here _ _)) as Hx.
    by apply elem_of_nil in Hx.
  - intros [Hx H1] [Hy H2] H.
    assert (x = y) as ->.
    { pose proof (proj1 (H x) (list_elem_of_here _ _)) as Hxy.
      pose proof (proj2 (H y) (list_elem_of_here _ _)) as Hyx.
      apply elem_of_cons in Hxy as [?|Hxy]; [done|].
      apply elem_of_cons in Hyx as [?|Hyx]; [done|].
      eapply Forall_forall in Hx; [|exact Hyx].
      eapply Forall_forall in Hy; [|exact Hxy]. lia. }
    f_equal. apply IH; [done..|].
    intros z. specialize (H z). rewrite !elem_of_cons in H.
    split; intros Hz.
    + destruct (proj1 H (or_intror Hz)) as [->|?]; [|done].
      eapply Forall_forall in Hx; [|exact Hz]. lia.
    + destruct (proj2 H (or_intror Hz)) as [->|?]; [|done].
      eapply Forall_forall in Hy; [|exact Hz]. lia.
Qed.

Lemma elem_of_unique_labels (x : Z) (l : list Z) :
  x ∈ unique_labels l ↔ x ≠ 0 ∧ x ∈ l.
Proof.
  unfold unique_labels. rewrite list_elem_of_In, filter_In, <- list_elem_of_In.
  rewrite elem_of_unique, negb_true_iff, Z.eqb_neq. tauto.
Qed.

Lemma unique_labels_ascending (l : list Z) : ascending (unique_labels l).
Proof. apply ascending_filter, unique_ascending. Qed.

Lemma unique_labels_NoDup (l : list Z) : NoDup (unique_labels l).
Proof. apply ascending_NoDup, unique_labels_ascending. Qed.

End Unique.

(** ** Facts about formatted text *)

Section Text.

Lemma Qltb_lt (a b : Q) : Qltb a b = true ↔ (a < b)%Q.
Proof.
  unfold Qltb. rewrite negb_true_iff. split.
  - intros H. apply Qnot_le_lt. intros Hle. apply Qle_bool_iff in Hle. congruence.
  - intros H. destruct (Qle_bool b a) eqn:E; [|done].
    apply Qle_bool_iff in E. by apply Qlt_not_le in H.
Qed.

(** The characters that can begin a formatted number. *)
Definition numeric_head (c : ascii) : Prop :=
  c ∈ ["0"; "1"; "2"; "3"; "4"; "5"; "6"; "7"; "8"; "9"; "-"]%char.

Lemma str_int_head (z : Z) :
  ∃ c s, Py.str_int z = String c s ∧ numeric_head c.
Proof.
  unfold Py.str_int, numeric_head.
  destruct z as [|p|p]; simpl.
  - eexists _, _. split; [done|]. set_solver.
  - unfold NilZero.string_of_uint.
    destruct (Pos.to_uint p); simpl; eexists _, _; (split; [done|]); set_solver.
  - eexists _, _. split; [done|]. set_solver.
Qed.

Lemma fmt_pct_head (digits : nat) (q : Q) :
  ∃ c s, Py.fmt_pct digits q = String c s ∧ numeric_head c.
Proof.
  unfold Py.fmt_pct, Py.fmt_fixed.
  destruct (Qnum (q * 100) <? 0).
  - simpl. eexists _, _. split; [done|]. unfold numeric_head. set_solver.
  - simpl.
    destruct (str_int_head
                (Z.abs (Py.round_half_even (q * 100 * inject_Z (10 ^ Z.of_nat digits)))
                 / 10 ^ Z.of_nat digits)) as (c & s & -> & Hc).
    simpl. eauto.
Qed.

End Text.

(** ** The label legality check *)

Section Labels.

Lemma elem_of_unknown_labels (l : Z) (seg_data : list Z) (label_dict : LabelDict) :
  l ∈ unknown_labels seg_data label_dict
  ↔ l ≠ 0 ∧ l ∈ seg_data ∧ label_dict !! l = None.
Proof.
  unfold unknown_labels.
  rewrite list_elem_of_In, filter_In, <- list_elem_of_In, elem_of_unique_labels.
  rewrite negb_true_iff, bool_decide_eq_false, <- eq_None_not_Some. tauto.
Qed.

Lemma unknown_labels_ascending (seg_data : list Z) (label_dict : LabelDict) :
  ascending (unknown_labels seg_data label_dict).
Proof. apply ascending_filter, unique_labels_ascending. Qed.

(** The volume of the specification's example: the IDs 5, 7 and 9999
    next to background. *)
Definition example_5_7_9999 : Np.ndarray :=
  Np.mk_ndarray (1, 2, 3)%nat [5; 0; 7; 9999; 5; 0].

Definition catalog_5_7 : LabelDict :=
  <[5 := mk_label_info (Some "liver")]>
    (<[7 := mk_label_info (Some "spleen")]> ∅).

(** A volume with twenty-one labels, 30 to 50, none of them known. *)
Definition volume_30_to_50 : Np.ndarray :=
  Np.mk_ndarray (1, 1, 21)%nat (map Z.of_nat (seq 30 21)).

End Labels.

(** C7, as amended.  The unknown labels are the nonzero values of the
    volume that the catalog lacks, in ascending order.  When there is
    none the check gives no warning; otherwise it gives exactly one,
    which shows the number of all unknown labels (not of those left
    out), the first ten of them, and the fixed note
    [(showing first 10)] when there are more than ten.  A volume whose
    values are among 0, 5, 7 and 9999 and include 9999, checked
    against a catalog that has 5 and 7 but not 9999, gets the single
    warning [Found 1 unknown label(s): [9999]]. *)
Theorem validate_labels_unknown_warning
    (self : SegmentationValidator) (seg_data : Np.ndarray) (label_dict : LabelDict) :
  let unknown := unknown_labels (Np.arr_data seg_data) label_dict in
  (∀ l, l ∈ unknown ↔ l ≠ 0 ∧ l ∈ Np.arr_data seg_data ∧ label_dict !! l = None)
  ∧ ascending unknown
  ∧ (validate_labels self seg_data label_dict).1.2 =
      match unknown with
      | [] => []
      | _ =>
          [ "Found " +:+ Py.str_int (Z.of_nat (length unknown))
            +:+ " unknown label(s): " +:+ Py.str_list (take 10 unknown)
            +:+ (if (10 <? length unknown)%nat then " (showing first 10)" else "") ]
      end
  ∧ ((∀ x, x ∈ Np.arr_data seg_data → x ∈ [0; 5; 7; 9999])
     ∧ 9999 ∈ Np.arr_data seg_data
     ∧ is_Some (label_dict !! 5) ∧ is_Some (label_dict !! 7)
     ∧ label_dict !! 9999 = None
     → (validate_labels self seg_data label_dict).1.2
       = [ "Found 1 unknown label(s): [9999]" ]).
Proof.
  intros unknown.
  assert (Hw : (validate_labels self seg_data label_dict).1.2 =
               match unknown with
               | [] => []
               | _ => [unknown_labels_warning unknown]
               end).
  { unfold validate_labels. simpl. fold unknown. by destruct unknown. }
  split; [intros l; apply elem_of_unknown_labels|].
  split; [apply unknown_labels_ascending|].
  split; [exact Hw|].
  intros (Hall & H9 & [i5 H5] & [i7 H7] & Hnone).
  assert (unknown = [9999]) as Hu.
  { apply ascending_ext; [apply unknown_labels_ascending|simpl; by split; [constructor|] |].
    intros x. unfold unknown. rewrite elem_of_unknown_labels, list_elem_of_singleton.
    split.
    - intros (Hx0 & Hx & Hd). specialize (Hall x Hx).
      repeat (apply elem_of_cons in Hall as [->|Hall]); try congruence.
      by apply elem_of_nil in Hall.
    - intros ->. done. }
  rewrite Hw, Hu. reflexivity.
Qed.

(** The example of the specification, evaluated. *)
Lemma validate_labels_unknown_warning_witness :
  (validate_labels (SegmentationValidator_init
                      (mk_config None None None None None None))
                   example_5_7_9999 catalog_5_7).1.2
  = [ "Found 1 unknown label(s): [9999]" ].
Proof.
  apply (validate_labels_unknown_warning
           (SegmentationValidator_init (mk_config None None None None None None))
           example_5_7_9999 catalog_5_7).
  vm_compute.
  repeat split; try (eexists; reflexivity).
  - intros x Hx. repeat (apply elem_of_cons in Hx as [->|Hx]); [set_solver..|].
    by apply elem_of_nil in Hx.
  - set_solver.
Defined.

(** C7 as the specification words it fails: with twenty-one unknown
    labels the single warning shows the total, 21, and the first ten
    labels; the number of labels left out, 11, occurs nowhere in it. *)
Lemma validate_labels_no_remainder_count :
  let self := SegmentationValidator_init (mk_config None None None None None None) in
  let unknown := unknown_labels (Np.arr_data volume_30_to_50) ∅ in
  length unknown = 21%nat
  ∧ validate_labels self volume_30_to_50 ∅ =
      (true,
       [ "Found 21 unknown label(s): [30, 31, 32, 33, 34, 35, 36, 37, 38, 39] (showing first 10)" ],
       [])
  ∧ Forall (fun w => Py.contains (Py.str_int (Z.of_nat (length unknown - 10))) w = false)
           (validate_labels self volume_30_to_50 ∅).1.2.
Proof.
  vm_compute. split; [done|]. split; [done|]. by repeat constructor.
Qed.

(** ** The voxel-count check *)

Section VoxelCounts.

(** A warning is an over-segmentation warning of [self] when it is
    that message at some ratio. *)
Definition is_over_segmentation_warning (self : SegmentationValidator) (w : string) : Prop :=
  ∃ ratio, w = over_segmentation_warning self ratio.

Lemma under_is_not_over (self : SegmentationValidator) (ratio : Q) :
  ¬ is_over_segmentation_warning self (under_segmentation_warning self ratio).
Proof.
  intros [r H]. unfold under_segmentation_warning, over_segmentation_warning in H.
  destruct (fmt_pct_head 1 r) as (c & s & Hr & Hc). rewrite Hr in H.
  simpl in H. injection H as Hhead _. subst c.
  unfold numeric_head in Hc. clear -Hc.
  repeat (apply elem_of_cons in Hc as [Hc|Hc]; [discriminate|]).
  by apply elem_of_nil in Hc.
Qed.

Lemma small_labels_is_not_over (self : SegmentationValidator) (small : list string) :
  ¬ is_over_segmentation_warning self (small_labels_warning self small).
Proof.
  intros [r H]. unfold small_labels_warning, over_segmentation_warning in H.
  simpl in H. discriminate.
Qed.

Lemma ratio_warnings_over (self : SegmentationValidator) (ratio : Q) :
  (∃ w, w ∈ ratio_warnings self ratio ∧ is_over_segmentation_warning self w)
  ↔ (max_segmentation_ratio self < ratio)%Q.
Proof.
  unfold ratio_warnings. rewrite <- Qltb_lt.
  destruct (Qltb (max_segmentation_ratio self) ratio).
  - split; [done|]. intros _. eexists. split; [apply list_elem_of_here|by eexists].
  - split; [|done]. intros (w & Hw & Hover).
    destruct (Qltb ratio (min_segmentation_ratio self)).
    + apply list_elem_of_singleton in Hw as ->. by apply under_is_not_over in Hover.
    + by apply elem_of_nil in Hw.
Qed.

Lemma ratio_of_exact (segmented total : Z) (r : Q) :
  0 < total → (inject_Z segmented == r * inject_Z total)%Q →
  (ratio_of segmented total == r)%Q.
Proof.
  intros Ht H. unfold ratio_of.
  destruct (Z.ltb_spec 0 total); [|lia].
  rewrite H. field. intros Hz.
  unfold Qeq in Hz. simpl in Hz. lia.
Qed.

End VoxelCounts.

(** C8.  The voxel-count check gives an over-segmentation warning
    exactly when [segmentation_ratio], the number of labeled voxels
    divided by [total_voxels] (and 0 when [total_voxels] is not
    positive), is strictly greater than [max_segmentation_ratio].  For
    a volume with voxels, exactly [max_segmentation_ratio * total_voxels]
    labeled voxels give no such warning and one more labeled voxel
    gives it. *)
Theorem over_segmentation_warning_iff
    (self : SegmentationValidator) (seg_data : Np.ndarray)
    (label_dict : LabelDict) (total_voxels : Z) :
  let segmented_voxels := Np.count_nonzero (Np.arr_data seg_data) in
  let segmentation_ratio := ratio_of segmented_voxels total_voxels in
  let emitted :=
    ∃ w, w ∈ (validate_voxel_counts self seg_data label_dict total_voxels).1.2
         ∧ is_over_segmentation_warning self w in
  (emitted ↔ (max_segmentation_ratio self < segmentation_ratio)%Q)
  ∧ (0 < total_voxels
     ∧ (inject_Z segmented_voxels
        == max_segmentation_ratio self * inject_Z total_voxels)%Q
     → ¬ emitted)
  ∧ (0 < total_voxels
     ∧ (inject_Z segmented_voxels
        == max_segmentation_ratio self * inject_Z total_voxels + 1)%Q
     → emitted).
Proof.
  intros segmented_voxels segmentation_ratio emitted.
  assert (Hiff : emitted ↔ (max_segmentation_ratio self < segmentation_ratio)%Q).
  { rewrite <- ratio_warnings_over. unfold emitted, validate_voxel_counts. simpl.
    fold segmented_voxels. fold segmentation_ratio.
    split; intros (w & Hw & Hover); exists w; (split; [|done]).
    - apply elem_of_app in Hw as [Hw|Hw]; [done|].
      destruct (small_labels self (Np.arr_data seg_data) label_dict).
      + by apply elem_of_nil in Hw.
      + apply list_elem_of_singleton in Hw as ->.
        by apply small_labels_is_not_over in Hover.
    - apply elem_of_app. by left. }
  split; [exact Hiff|]. split.
  - intros [Ht Heq]. rewrite Hiff.
    unfold segmentation_ratio. rewrite (ratio_of_exact _ _ _ Ht Heq).
    apply Qlt_irrefl.
  - intros [Ht Heq]. apply Hiff.
    unfold segmentation_ratio, ratio_of.
    destruct (Z.ltb_spec 0 total_voxels); [|lia].
    rewrite Heq.
    assert (Hpos : (0 < inject_Z total_voxels)%Q).
    { unfold Qlt. simpl. lia. }
    apply Qlt_shift_div_l; [done|].
    rewrite <- (Qplus_0_r (max_segmentation_ratio self * inject_Z total_voxels)) at 1.
    apply Qplus_lt_r. reflexivity.
Qed.

(** At twenty voxels and the default threshold of 95%, nineteen
    labeled voxels pass and twenty are flagged. *)
Lemma over_segmentation_warning_iff_witness :
  let self := SegmentationValidator_init (mk_config None None None None None None) in
  (¬ ∃ w, w ∈ (validate_voxel_counts self
                 (Np.mk_ndarray (1, 4, 5)%nat (0 :: replicate 19 3)) ∅ 20).1.2
          ∧ is_over_segmentation_warning self w)
  ∧ (∃ w, w ∈ (validate_voxel_counts self
                 (Np.mk_ndarray (1, 4, 5)%nat (replicate 20 3)) ∅ 20).1.2
          ∧ is_over_segmentation_warning self w).
Proof.
  split.
  - apply (over_segmentation_warning_iff
             (SegmentationValidator_init (mk_config None None None None None None))
             (Np.mk_ndarray (1, 4, 5)%nat (0 :: replicate 19 3)) ∅ 20).
    split; [lia|]. vm_compute. reflexivity.
  - apply (over_segmentation_warning_iff
             (SegmentationValidator_init (mk_config None None None None None None))
             (Np.mk_ndarray (1, 4, 5)%nat (replicate 20 3)) ∅ 20).
    split; [lia|]. vm_compute. reflexivity.
Defined.

(** ** The statistical check *)

Section Statistics.

Lemma label_counts_unique_labels (seg_data : list Z) :
  label_counts seg_data
  = map (fun l => (l, Np.count_true (Np.eq_mask seg_data l))) (unique_labels seg_data).
Proof.
  unfold label_counts, unique_labels.
  induction (Np.unique seg_data) as [|x l IH]; simpl; [done|].
  destruct (negb (x =? 0)); simpl; [f_equal|]; exact IH.
Qed.

Lemma count_true_eq_mask_pos (seg_data : list Z) (l : Z) :
  l ∈ seg_data → 0 < Np.count_true (Np.eq_mask seg_data l).
Proof.
  unfold Np.count_true, Np.eq_mask.
  induction seg_data as [|x rest IH]; intros Hin; [by apply elem_of_nil in Hin|].
  simpl. destruct (Z.eqb_spec x l) as [->|Hne]; simpl; [lia|].
  apply IH. apply elem_of_cons in Hin as [?|?]; [congruence|done].
Qed.

(** The nonzero labels of a volume whose only nonzero value is [l]. *)
Lemma unique_labels_single (seg_data : list Z) (l : Z) :
  l ≠ 0 → l ∈ seg_data → (∀ x, x ∈ seg_data → x = 0 ∨ x = l) →
  unique_labels seg_data = [l].
Proof.
  intros Hl Hin Honly.
  apply ascending_ext; [apply unique_labels_ascending|simpl; by split; [constructor|] |].
  intros x. rewrite elem_of_unique_labels, list_elem_of_singleton. split.
  - intros [Hx0 Hx]. by destruct (Honly x Hx).
  - by intros ->.
Qed.

(** A whole is shown as [100.0%]. *)
Lemma fmt_pct_whole (c : Z) : 0 < c → Py.fmt_pct 1 (ratio_of c c) = "100.0%".
Proof.
  intros Hc. unfold ratio_of. destruct (Z.ltb_spec 0 c); [|lia].
  destruct c as [|p|p]; try lia.
  unfold Py.fmt_pct, Py.fmt_fixed, Py.round_half_even, Qdiv, Qinv, Qmult, inject_Z.
  cbn [Qnum Qden Z.of_nat Pos.of_succ_nat].
  rewrite !Pos.mul_1_r, !Pos.mul_1_l, !Z.mul_1_r.
  change (10 ^ Z.of_nat 1) with 10.
  replace (Z.pos p * 100 * 10) with (1000 * Z.pos p) by lia.
  rewrite Z.div_mul, Z.mod_mul by done.
  destruct (Z.ltb_spec (Z.pos p * 100) 0); [lia|].
  destruct (Z.ltb_spec (2 * 0) (Z.pos p)); [|lia].
  reflexivity.
Qed.

Lemma ratio_of_whole_dominates (c : Z) : 0 < c → Qltb (9 # 10) (ratio_of c c) = true.
Proof.
  intros Hc. apply Qltb_lt.
  assert (ratio_of c c == 1)%Q as ->; [|done].
  apply ratio_of_exact; [done|]. by rewrite Qmult_1_l.
Qed.

Lemma validate_statistics_single_label
    (self : SegmentationValidator) (seg_data : Np.ndarray)
    (input_data : option Np.ndarray) (l : Z) :
  l ≠ 0 → l ∈ Np.arr_data seg_data →
  (∀ x, x ∈ Np.arr_data seg_data → x = 0 ∨ x = l) →
  validate_statistics self seg_data input_data
  = (true,
     [ "Single label (ID: " +:+ Py.str_int l
       +:+ ") dominates segmentation (100.0% of segmented voxels)" ],
     []).
Proof.
  intros Hl Hin Honly. unfold validate_statistics.
  assert ((length (Np.unique (Np.arr_data seg_data)) =? 1)%nat
          && (nth 0 (Np.unique (Np.arr_data seg_data)) 1 =? 0) = false) as ->.
  { apply andb_false_iff.
    pose proof (proj2 (elem_of_unique l _) Hin) as Hu.
    destruct (Np.unique (Np.arr_data seg_data)) as [|x [|y rest]]; simpl; auto.
    right. apply list_elem_of_singleton in Hu as <-. by apply Z.eqb_neq. }
  rewrite label_counts_unique_labels, (unique_labels_single _ l) by done.
  pose proof (count_true_eq_mask_pos _ _ Hin) as Hc.
  cbn [map max_value max_key foldl foldr snd fst].
  rewrite Z.add_0_r, ratio_of_whole_dominates by done.
  unfold dominance_warning. by rewrite fmt_pct_whole.
Qed.

End Statistics.

(** ** Connected components: [ndimage.label] labels them *)

Section Geometry.

Local Open Scope nat_scope.

(** The flat position of the voxel with indices [x], [y], [z]. *)
Definition ravel (s : Np.shape) (x y z : nat) : nat :=
  let '(_, ny, nz) := s in (x * ny + y) * nz + z.

Lemma coord_ravel (nx ny nz x y z : nat) :
  y < ny → z < nz →
  Np.coord (nx, ny, nz) 0 (ravel (nx, ny, nz) x y z) = x
  ∧ Np.coord (nx, ny, nz) 1 (ravel (nx, ny, nz) x y z) = y
  ∧ Np.coord (nx, ny, nz) 2 (ravel (nx, ny, nz) x y z) = z.
Proof.
  intros Hy Hz. unfold Np.coord, ravel.
  assert (((x * ny + y) * nz + z) / nz = x * ny + y) as Hq.
  { rewrite Nat.div_add_l by lia. rewrite Nat.div_small by done. lia. }
  assert (((x * ny + y) * nz + z) mod nz = z) as Hr.
  { rewrite Nat.add_comm, Nat.Div0.mod_add. by apply Nat.mod_small. }
  rewrite Hq, Hr. repeat split.
  - rewrite Nat.div_add_l by lia. rewrite Nat.div_small by done. lia.
  - rewrite Nat.add_comm, Nat.Div0.mod_add. by apply Nat.mod_small.
Qed.

Lemma ravel_coord (nx ny nz i : nat) :
  i < Np.size (nx, ny, nz) →
  let x := Np.coord (nx, ny, nz) 0 i in
  let y := Np.coord (nx, ny, nz) 1 i in
  let z := Np.coord (nx, ny, nz) 2 i in
  ravel (nx, ny, nz) x y z = i ∧ x < nx ∧ y < ny ∧ z < nz.
Proof.
  simpl. intros Hi.
  assert (0 < nz) by (destruct nz; lia).
  assert (0 < ny) by (destruct ny; lia).
  pose proof (Nat.div_mod_eq i nz) as E1.
  pose proof (Nat.div_mod_eq (i / nz) ny) as E2.
  pose proof (Nat.mod_upper_bound i nz ltac:(lia)) as B1.
  pose proof (Nat.mod_upper_bound (i / nz) ny ltac:(lia)) as B2.
  repeat split; try done.
  - lia.
  - apply Nat.Div0.div_lt_upper_bound. apply Nat.Div0.div_lt_upper_bound. lia.
Qed.

(** Face adjacency, on indices. *)
Definition adjacent (s : Np.shape) (i j : nat) : Prop := j ∈ Ndimage.neighbours s i.

Lemma neighbours_length (s : Np.shape) (i : nat) :
  length (Ndimage.neighbours s i) ≤ 6.
Proof.
  destruct s as [[nx ny] nz]. unfold Ndimage.neighbours.
  repeat match goal with |- context [if ?b then _ else _] => destruct b end;
    simpl; lia.
Qed.

(** The neighbours of a voxel of the volume, by indices. *)
Lemma neighbours_ravel (nx ny nz x y z : nat) :
  y < ny → z < nz →
  Ndimage.neighbours (nx, ny, nz) (ravel (nx, ny, nz) x y z)
  = (if 0 <? x then [ravel (nx, ny, nz) (x - 1) y z] else [])
    ++ (if x + 1 <? nx then [ravel (nx, ny, nz) (x + 1) y z] else [])
    ++ (if 0 <? y then [ravel (nx, ny, nz) x (y - 1) z] else [])
    ++ (if y + 1 <? ny then [ravel (nx, ny, nz) x (y + 1) z] else [])
    ++ (if 0 <? z then [ravel (nx, ny, nz) x y (z - 1)] else [])
    ++ (if z + 1 <? nz then [ravel (nx, ny, nz) x y (z + 1)] else []).
Proof.
  intros Hy Hz. unfold Ndimage.neighbours.
  destruct (coord_ravel nx ny nz x y z Hy Hz) as (-> & -> & ->).
  unfold ravel.
  repeat match goal with
         | |- context [?a <? ?b] => destruct (Nat.ltb_spec a b)
         end; simpl;
    repeat match goal with |- _ :: _ = _ :: _ => f_equal end;
    try reflexivity; nia.
Qed.

Lemma adjacent_sym (s : Np.shape) (i j : nat) :
  i < Np.size s → adjacent s i j → j < Np.size s ∧ adjacent s j i.
Proof.
  destruct s as [[nx ny] nz]. intros Hi. unfold adjacent.
  destruct (ravel_coord nx ny nz i Hi) as (Ei & Hx & Hy & Hz).
  set (x := Np.coord (nx, ny, nz) 0 i) in *.
  set (y := Np.coord (nx, ny, nz) 1 i) in *.
  set (z := Np.coord (nx, ny, nz) 2 i) in *.
  rewrite <- Ei at 1. rewrite neighbours_ravel by done.
  rewrite !elem_of_app.
  assert (Hsize : ∀ x' y' z', x' < nx → y' < ny → z' < nz →
                  ravel (nx, ny, nz) x' y' z' < Np.size (nx, ny, nz)).
  { intros x' y' z' ? ? ?. unfold ravel, Np.size.
    assert (x' * ny + y' + 1 ≤ nx * ny) as Hq by nia.
    apply (Nat.mul_le_mono_r _ _ nz) in Hq. nia. }
  intros H.
  repeat match type of H with
         | _ ∨ _ => destruct H as [H|H]
         end;
    match type of H with
    | _ ∈ (if ?a <? ?b then _ else _) =>
        destruct (Nat.ltb_spec a b); [|by apply elem_of_nil in H];
        apply list_elem_of_singleton in H as ->
    end;
    (split; [apply Hsize; lia|]);
    rewrite neighbours_ravel by lia; rewrite <- Ei at 1; rewrite !elem_of_app.
  - right; left. destruct (Nat.ltb_spec (x - 1 + 1) nx); [|lia].
    replace (x - 1 + 1) with x by lia. apply list_elem_of_here.
  - left. destruct (Nat.ltb_spec 0 (x + 1)); [|lia].
    replace (x + 1 - 1) with x by lia. apply list_elem_of_here.
  - do 3 right; left. destruct (Nat.ltb_spec (y - 1 + 1) ny); [|lia].
    replace (y - 1 + 1) with y by lia. apply list_elem_of_here.
  - do 2 right; left. destruct (Nat.ltb_spec 0 (y + 1)); [|lia].
    replace (y + 1 - 1) with y by lia. apply list_elem_of_here.
  - do 5 right. destruct (Nat.ltb_spec (z - 1 + 1) nz); [|lia].
    replace (z - 1 + 1) with z by lia. apply list_elem_of_here.
  - do 4 right; left. destruct (Nat.ltb_spec 0 (z + 1)); [|lia].
    replace (z + 1 - 1) with z by lia. apply list_elem_of_here.
Qed.

End Geometry.

Section Components.

Local Open Scope nat_scope.

Variable s : Np.shape.
Variable mask : list bool.
Hypothesis mask_size : length mask = Np.size s.

(** The voxel at [i] belongs to the mask. *)
Definition in_mask (i : nat) : Prop := nth i mask false = true.

(** [i] and [k] are joined by a path of face-adjacent voxels of the
    mask. *)
Inductive connected : nat → nat → Prop :=
| connected_refl i : in_mask i → connected i i
| connected_step i j k :
    connected i j → adjacent s j k → in_mask k → connected i k.

Lemma in_mask_lt (i : nat) : in_mask i → i < length mask.
Proof.
  unfold in_mask. intros H. destruct (Nat.lt_ge_cases i (length mask)); [done|].
  by rewrite nth_overflow in H.
Qed.

Lemma connected_in_mask (i j : nat) : connected i j → in_mask i ∧ in_mask j.
Proof. induction 1; tauto. Qed.

Lemma connected_trans (i j k : nat) : connected i j → connected j k → connected i k.
Proof.
  intros Hij Hjk. revert Hij.
  induction Hjk as [|j m k Hjm IH Hadj Hk]; intros Hij; [done|].
  apply (connected_step i m k); auto.
Qed.

Lemma connected_sym (i j : nat) : connected i j → connected j i.
Proof.
  induction 1 as [|i j k Hij IH Hadj Hk]; [by constructor|].
  apply connected_trans with j; [|done].
  apply (connected_step k k j); [by constructor| |].
  - apply adjacent_sym in Hadj; [by destruct Hadj|].
    rewrite <- mask_size. apply in_mask_lt. by destruct (connected_in_mask _ _ Hij).
  - by destruct (connected_in_mask _ _ Hij).
Qed.

(** The component number of voxel [i] in a labelling, 0 when it has
    none. *)
Definition lbl (lab : list nat) (i : nat) : nat := nth i lab 0.

Lemma lbl_insert (lab : list nat) (i j c : nat) :
  i < length lab →
  lbl (<[i := c]> lab) j = if decide (j = i) then c else lbl lab j.
Proof.
  intros Hi. unfold lbl. rewrite !nth_lookup.
  destruct (decide (j = i)) as [->|Hne].
  - by rewrite list_lookup_insert_eq.
  - by rewrite list_lookup_insert_ne.
Qed.

(** The number of voxels without a component number. *)
Definition zeros (lab : list nat) : nat :=
  length (List.filter (fun x => x =? 0) lab).

Lemma zeros_insert (lab : list nat) (i c : nat) :
  i < length lab → lbl lab i = 0 → c ≠ 0 →
  S (zeros (<[i := c]> lab)) = zeros lab.
Proof.
  unfold zeros, lbl. revert i. induction lab as [|x lab IH]; intros [|i] Hi Hz Hc;
    simpl in *; try lia.
  - subst x. simpl. by destruct c.
  - destruct (x =? 0); simpl; rewrite <- (IH i); auto with lia.
Qed.

Lemma zeros_le (lab : list nat) : zeros lab ≤ length lab.
Proof. unfold zeros. apply List.filter_length_le. Qed.

(** *** One flood fill *)

Section Flood.

Variable lab0 : list nat.
Variable c seed : nat.
Hypothesis lab0_length : length lab0 = length mask.
Hypothesis c_nonzero : c ≠ 0.
Hypothesis c_fresh : ∀ i, lbl lab0 i ≠ c.

(** What holds of the labelling and the stack while the component of
    [seed] is filled with [c], starting from the labelling [lab0]. *)
Record flood_inv (lab : list nat) (stack : list nat) : Prop := {
  fi_length : length lab = length mask;
  fi_kept : ∀ i, lbl lab0 i ≠ 0 → lbl lab i = lbl lab0 i;
  fi_new : ∀ i, lbl lab i ≠ 0 →
                lbl lab0 i ≠ 0 ∨ (lbl lab i = c ∧ connected seed i);
  fi_stack : ∀ i, i ∈ stack → in_mask i → connected seed i;
  fi_pending : ∀ i j, lbl lab i = c → adjacent s i j → in_mask j →
                      lbl lab j ≠ 0 ∨ j ∈ stack
}.

Lemma flood_inv_run (fuel : nat) :
  ∀ stack lab,
    flood_inv lab stack →
    7 * zeros lab + length stack ≤ fuel →
    flood_inv (Ndimage.flood s mask c fuel stack lab) [].
Proof.
  induction fuel as [|fuel IH]; intros stack lab Hinv Hfuel.
  - simpl. assert (stack = []) as -> by (destruct stack; simpl in *; [done|lia]).
    done.
  - destruct stack as [|i rest]; [done|]. simpl.
    destruct Hinv as [Hlen Hkept Hnew Hstack Hpend].
    destruct (nth i mask false) eqn:Hm; simpl.
    + destruct (Nat.eqb_spec (nth i lab 0) 0) as [Hz|Hnz].
      * (* the voxel joins the component *)
        assert (i < length lab) as Hi by (rewrite Hlen; by apply in_mask_lt).
        assert (connected seed i) as Hci by (apply Hstack; [apply list_elem_of_here|done]).
        apply IH.
        -- split.
           ++ by rewrite length_insert.
           ++ intros j Hj. rewrite lbl_insert by done.
              destruct (decide (j = i)) as [->|]; [|by apply Hkept].
              specialize (Hkept i Hj). unfold lbl in *. congruence.
           ++ intros j. rewrite lbl_insert by done.
              destruct (decide (j = i)) as [->|]; [by right|apply Hnew].
           ++ intros j Hj Hmj. apply elem_of_app in Hj as [Hj|Hj].
              ** by apply (connected_step seed i j).
              ** apply Hstack; [by apply list_elem_of_further|done].
           ++ intros j k. rewrite !lbl_insert by done.
              destruct (decide (j = i)) as [->|Hne]; intros Hj Hadj Hk.
              ** right. apply elem_of_app. by left.
              ** destruct (decide (k = i)) as [->|]; [by left|].
                 destruct (Hpend j k Hj Hadj Hk) as [?|Hin]; [by left|].
                 right. apply elem_of_cons in Hin as [?|?]; [done|].
                 apply elem_of_app. by right.
        -- pose proof (zeros_insert lab i c Hi Hz c_nonzero).
           pose proof (neighbours_length s i).
           rewrite length_app. simpl in Hfuel. lia.
      * (* already numbered *)
        apply IH; [|simpl in Hfuel; lia]. split; try done.
        -- intros j Hj. apply Hstack. by apply list_elem_of_further.
        -- intros j k Hj Hadj Hk.
           destruct (Hpend j k Hj Hadj Hk) as [?|Hin]; [by left|].
           apply elem_of_cons in Hin as [->|?]; [by left|by right].
    + (* outside the mask *)
      apply IH; [|simpl in Hfuel; lia]. split; try done.
      * intros j Hj. apply Hstack. by apply list_elem_of_further.
      * intros j k Hj Hadj Hk.
        destruct (Hpend j k Hj Hadj Hk) as [?|Hin]; [by left|].
        apply elem_of_cons in Hin as [->|?]; [|by right].
        unfold in_mask in Hk. congruence.
Qed.

End Flood.

(** A flood fill never changes a component number that is set. *)
Lemma flood_keeps (c fuel : nat) :
  ∀ stack lab i,
    lbl lab i ≠ 0 → lbl (Ndimage.flood s mask c fuel stack lab) i = lbl lab i.
Proof.
  induction fuel as [|fuel IH]; intros stack lab i Hi; [done|].
  destruct stack as [|j rest]; [done|]. simpl.
  destruct (nth j mask false && (nth j lab 0 =? 0)) eqn:E; [|by apply IH].
  apply andb_true_iff in E as [_ E%Nat.eqb_eq].
  assert (lbl (<[j := c]> lab) i = lbl lab i) as Hsame.
  { unfold lbl in *. rewrite !nth_lookup, list_lookup_insert_ne; [done|].
    intros ->. congruence. }
  rewrite IH; [done|]. by rewrite Hsame.
Qed.

(** *** The raster scan *)

(** What holds of the labelling and of the number of components after
    the scan has passed the positions below [p]. *)
Record scan_inv (p : nat) (lab : list nat) (k : nat) : Prop := {
  si_length : length lab = length mask;
  si_mask : ∀ i, lbl lab i ≠ 0 → in_mask i;
  si_range : ∀ i, lbl lab i ≤ k;
  si_used : ∀ c, 1 ≤ c ≤ k → ∃ i, lbl lab i = c;
  si_closed : ∀ i j, lbl lab i ≠ 0 → adjacent s i j → in_mask j →
                     lbl lab j = lbl lab i;
  si_sound : ∀ i j, lbl lab i ≠ 0 → lbl lab i = lbl lab j → connected i j;
  si_done : ∀ i, i < p → in_mask i → lbl lab i ≠ 0
}.

Lemma scan_inv_start : scan_inv 0 (replicate (length mask) 0) 0.
Proof.
  assert (∀ i, lbl (replicate (length mask) 0) i = 0) as Hz.
  { intros i. unfold lbl. rewrite nth_lookup.
    destruct (replicate (length mask) 0 !! i) eqn:E; [|done].
    by apply lookup_replicate in E as [-> _]. }
  split; intros; rewrite ?length_replicate, ?Hz in *; try done; lia.
Qed.

Lemma scan_step_inv (p : nat) (lab : list nat) (k : nat) :
  scan_inv p lab k →
  scan_inv (S p) (Ndimage.scan_step s mask (lab, k) p).1
                 (Ndimage.scan_step s mask (lab, k) p).2.
Proof.
  intros [Hlen Hmask Hrange Hused Hclosed Hsound Hdone]. simpl.
  destruct (nth p mask false) eqn:Hm; simpl.
  2: { split; try done. intros i Hi Hin.
       destruct (decide (i = p)) as [->|]; [unfold in_mask in Hin; congruence|].
       apply Hdone; [lia|done]. }
  destruct (Nat.eqb_spec (nth p lab 0) 0) as [Hz|Hnz]; simpl.
  2: { split; try done. intros i Hi Hin.
       destruct (decide (i = p)) as [->|]; [done|]. apply Hdone; [lia|done]. }
  set (lab' := Ndimage.flood s mask (S k) (Ndimage.flood_fuel mask) [p] lab).
  assert (Hfresh : ∀ i, lbl lab i ≠ S k) by (intros i; specialize (Hrange i); lia).
  assert (Hinv : flood_inv lab (S k) p lab' []).
  { apply flood_inv_run; [done|done| |].
    - split; try done.
      + intros i Hi. by left.
      + intros i Hi%list_elem_of_singleton Hin. subst. by constructor.
      + intros i j Hi. by apply Hfresh in Hi.
    - pose proof (zeros_le lab). unfold Ndimage.flood_fuel. simpl. lia. }
  destruct Hinv as [Hlen' Hkept Hnew _ Hpend].
  assert (Hseed : lbl lab' p = S k).
  { unfold lab', Ndimage.flood_fuel.
    replace (7 * length mask + 1) with (S (7 * length mask)) by lia.
    simpl. rewrite Hm, Hz. simpl.
    rewrite flood_keeps; rewrite lbl_insert, decide_True; try done.
    all: rewrite Hlen; by apply in_mask_lt. }
  assert (Hold : ∀ i, lbl lab i ≠ 0 → lbl lab' i ≠ 0 ∧ lbl lab' i ≤ k).
  { intros i Hi. rewrite (Hkept i Hi). split; [done|apply Hrange]. }
  assert (Hcases : ∀ i, lbl lab' i ≠ 0 →
            (lbl lab i ≠ 0 ∧ lbl lab' i = lbl lab i)
            ∨ (lbl lab i = 0 ∧ lbl lab' i = S k ∧ connected p i)).
  { intros i Hi. destruct (decide (lbl lab i = 0)) as [Hzi|Hnzi].
    - right. destruct (Hnew i Hi) as [?|[? ?]]; [done|by repeat split].
    - left. split; [done|by apply Hkept]. }
  split.
  - done.
  - intros i Hi. destruct (Hcases i Hi) as [[Ho _]|(_ & _ & Hc)]; [by apply Hmask|].
    by destruct (connected_in_mask _ _ Hc).
  - intros i. destruct (decide (lbl lab' i = 0)) as [->|Hi]; [lia|].
    destruct (Hcases i Hi) as [[_ ->]|(_ & -> & _)]; [|lia].
    specialize (Hrange i). lia.
  - intros c Hc. destruct (decide (c = S k)) as [->|]; [by exists p|].
    destruct (Hused c ltac:(lia)) as [i Hi]. exists i.
    rewrite Hkept; [done|lia].
  - intros i j Hi Hadj Hj.
    destruct (Hcases i Hi) as [[Hio Hie]|(Hiz & Hie & Hic)].
    + rewrite Hie, <- (Hclosed i j Hio Hadj Hj). apply Hkept.
      by rewrite (Hclosed i j Hio Hadj Hj).
    + destruct (Hpend i j Hie Hadj Hj) as [Hjn|Hin]; [|by apply elem_of_nil in Hin].
      destruct (Hcases j Hjn) as [[Hjo _]|(_ & Hje & _)]; [|congruence].
      exfalso. apply Hjo.
      assert (adjacent s j i) as Hji.
      { apply adjacent_sym in Hadj; [by destruct Hadj|].
        rewrite <- mask_size. apply in_mask_lt. by destruct (connected_in_mask _ _ Hic). }
      assert (in_mask i) as Hi' by (by destruct (connected_in_mask _ _ Hic)).
      specialize (Hclosed j i Hjo Hji Hi'). congruence.
  - intros i j Hi Heq.
    assert (lbl lab' j ≠ 0) as Hj by congruence.
    destruct (Hcases i Hi) as [[Hio Hie]|(Hiz & Hie & Hic)];
      destruct (Hcases j Hj) as [[Hjo Hje]|(Hjz & Hje & Hjc)].
    + apply Hsound; [done|congruence].
    + specialize (Hrange i). lia.
    + specialize (Hrange j). lia.
    + apply connected_trans with p; [by apply connected_sym|done].
  - intros i Hi Hin. destruct (decide (i = p)) as [->|]; [by rewrite Hseed|].
    apply Hold, Hdone; [lia|done].
Qed.

Lemma scan_inv_run (len : nat) :
  ∀ p lab k,
    scan_inv p lab k →
    scan_inv (p + len) (foldl (Ndimage.scan_step s mask) (lab, k) (seq p len)).1
                       (foldl (Ndimage.scan_step s mask) (lab, k) (seq p len)).2.
Proof.
  induction len as [|len IH]; intros p lab k Hinv.
  - simpl. by rewrite Nat.add_0_r.
  - change (seq p (S len)) with (p :: seq (S p) len).
    change (foldl (Ndimage.scan_step s mask) (lab, k) (p :: seq (S p) len))
      with (foldl (Ndimage.scan_step s mask)
                  (Ndimage.scan_step s mask (lab, k) p) (seq (S p) len)).
    pose proof (scan_step_inv p lab k Hinv) as Hstep.
    destruct (Ndimage.scan_step s mask (lab, k) p) as [lab1 k1].
    replace (p + S len) with (S p + len) by lia. by apply IH.
Qed.

(** [ndimage.label] numbers the voxels of the mask, and only them,
    with 1..K; every number is used; two voxels have the same number
    exactly when they are connected. *)
Lemma label_inv :
  scan_inv (length mask) (Ndimage.label s mask).1 (Ndimage.label s mask).2.
Proof.
  unfold Ndimage.label.
  apply (scan_inv_run (length mask) 0 _ 0 scan_inv_start).
Qed.

End Components.

(** ** The cleaner as a function on array values

    The cleaner only ever assigns into the copy it has just made, the
    newest array of the store.  Its effect is therefore a function
    from the value of its argument to the value of the copy, which the
    definitions below compute; the lemmas after them state that the
    store-level cleaner allocates exactly that value. *)

Section CleanerValues.

(** The inner loop of [remove_small_components] on the voxels [cur]. *)
Definition remove_components_value (min_voxels : Z) (labeled_array : list nat)
    (st : list Z * Z) (sizes : list (nat * Z)) : list Z * Z :=
  foldl (fun (st : list Z * Z) (entry : nat * Z) =>
           if snd entry <? min_voxels
           then (Np.zero_where (Ndimage.component_mask labeled_array (fst entry)) (fst st),
                 snd st + 1)
           else st)
        st sizes.

(** The body of the loop over the labels. *)
Definition remove_label_value (s : Np.shape) (min_voxels : Z)
    (st : list Z * Z) (label_id : Z) : list Z * Z :=
  let label_mask := Np.eq_mask (fst st) label_id in
  let '(labeled_array, num_features) := Ndimage.label s label_mask in
  if (0 <? num_features)%nat
  then
    remove_components_value min_voxels labeled_array st
      (zip (seq 1 num_features)
           (map (Ndimage.component_size labeled_array) (seq 1 num_features)))
  else st.

(** The voxels and the count that [remove_small_components] returns. *)
Definition remove_small_components_value (min_voxels : Z) (a : Np.ndarray)
    : Np.ndarray * Z :=
  let st := foldl (remove_label_value (Np.arr_shape a) min_voxels)
                  (Np.arr_data a, 0) (unique_labels (Np.arr_data a)) in
  (Np.mk_ndarray (Np.arr_shape a) (fst st), snd st).

(** One face of [clean_artifacts] on the voxels [cur]. *)
Definition clean_face_value (s : Np.shape) (st : list Z * Z)
    (face : nat * bool) : list Z * Z :=
  let mask := edge_mask s (fst face) (snd face) in
  let edge_voxels := Np.count_true (Np.pos_mask (Np.select mask (fst st))) in
  if (0 <? edge_voxels)
     && Qltb (inject_Z edge_voxels / inject_Z (slab_size s (fst face)))%Q (1 # 10)%Q
  then (Np.zero_where (Np.and_mask mask (Np.pos_mask (fst st))) (fst st),
        snd st + edge_voxels)
  else st.

(** The voxels and the count that [clean_artifacts] returns. *)
Definition clean_artifacts_value (a : Np.ndarray) : Np.ndarray * Z :=
  let st := foldl (clean_face_value (Np.arr_shape a)) (Np.arr_data a, 0) faces in
  (Np.mk_ndarray (Np.arr_shape a) (fst st), snd st).

Lemma read_newest (h : heap) (a : Np.ndarray) :
  read (length h) (h ++ [a]) = (a, h ++ [a]).
Proof.
  unfold read. f_equal. apply list_lookup_total_correct.
  by rewrite lookup_app_r, Nat.sub_diag.
Qed.

Lemma alter_newest (f : Np.ndarray → Np.ndarray) (h : heap) (a : Np.ndarray) :
  alter f (length h) (h ++ [a]) = h ++ [f a].
Proof. rewrite alter_app_r_alt by done. by rewrite Nat.sub_diag. Qed.

Lemma assign_zero_newest (h : heap) (a : Np.ndarray) (mask : list bool) :
  assign_zero (length h) mask (h ++ [a])
  = (tt, h ++ [Np.mk_ndarray (Np.arr_shape a) (Np.zero_where mask (Np.arr_data a))]).
Proof.
  unfold assign_zero. by rewrite alter_newest.
Qed.

Lemma np_copy_run (h : heap) (r : loc) :
  np_copy r h = (length h, h ++ [h !!! r]).
Proof. done. Qed.

Lemma remove_components_run (h : heap) (s : Np.shape) (min_voxels : Z)
    (labeled_array : list nat) (sizes : list (nat * Z)) :
  ∀ (cur : list Z) (total : Z),
    remove_components (length h) min_voxels labeled_array total sizes
                      (h ++ [Np.mk_ndarray s cur])
    = let st := remove_components_value min_voxels labeled_array (cur, total) sizes in
      (snd st, h ++ [Np.mk_ndarray s (fst st)]).
Proof.
  unfold remove_components, remove_components_value.
  induction sizes as [|[i size] sizes IH]; intros cur total; [done|].
  simpl. unfold mbind, M_bind. destruct (size <? min_voxels).
  - unfold mbind, M_bind. rewrite assign_zero_newest. simpl.
    unfold mret, M_ret. apply IH.
  - unfold mret, M_ret. apply IH.
Qed.

Lemma remove_label_run (h : heap) (s : Np.shape) (min_voxels : Z)
    (cur : list Z) (total : Z) (label_id : Z) :
  remove_label (length h) min_voxels total label_id (h ++ [Np.mk_ndarray s cur])
  = let st := remove_label_value s min_voxels (cur, total) label_id in
    (snd st, h ++ [Np.mk_ndarray s (fst st)]).
Proof.
  unfold remove_label, remove_label_value, mbind, M_bind.
  rewrite read_newest. simpl.
  destruct (Ndimage.label s (Np.eq_mask cur label_id)) as [lab k].
  destruct (0 <? k)%nat; [|done].
  apply remove_components_run.
Qed.

Lemma remove_labels_run (h : heap) (s : Np.shape) (min_voxels : Z)
    (labels : list Z) :
  ∀ (cur : list Z) (total : Z),
    for_each (remove_label (length h) min_voxels) total labels
             (h ++ [Np.mk_ndarray s cur])
    = let st := foldl (remove_label_value s min_voxels) (cur, total) labels in
      (snd st, h ++ [Np.mk_ndarray s (fst st)]).
Proof.
  induction labels as [|l labels IH]; intros cur total; [done|].
  simpl. unfold mbind, M_bind. rewrite remove_label_run. simpl.
  destruct (remove_label_value s min_voxels (cur, total) l) as [cur' total'].
  apply IH.
Qed.

(** The result of [remove_small_components] and the store after it. *)
Lemma remove_small_components_run (self : SegmentationCleaner) (h : heap)
    (seg_data : loc) (min_voxels : option Z) :
  (seg_data < length h)%nat →
  remove_small_components self seg_data min_voxels h
  = let out :=
      remove_small_components_value
        (default (cleaner_min_voxels_per_component self) min_voxels)
        (h !!! seg_data) in
    ((length h, snd out), h ++ [fst out]).
Proof.
  intros Hr. unfold remove_small_components, remove_small_components_value.
  unfold mbind, M_bind. rewrite np_copy_run.
  assert (read seg_data (h ++ [h !!! seg_data])
          = (h !!! seg_data, h ++ [h !!! seg_data])) as ->.
  { unfold read. f_equal. apply list_lookup_total_correct.
    rewrite lookup_app_l by done. by apply list_lookup_lookup_total_lt. }
  destruct (h !!! seg_data) as [s d] eqn:E. simpl.
  rewrite remove_labels_run. simpl. done.
Qed.

Lemma clean_face_run (h : heap) (s : Np.shape) (cur : list Z) (removed : Z)
    (face : nat * bool) :
  clean_face (length h) removed face (h ++ [Np.mk_ndarray s cur])
  = let st := clean_face_value s (cur, removed) face in
    (snd st, h ++ [Np.mk_ndarray s (fst st)]).
Proof.
  destruct face as [dim high].
  unfold clean_face, clean_face_value, mbind, M_bind.
  rewrite read_newest. simpl.
  destruct (0 <? Np.count_true (Np.pos_mask (Np.select (edge_mask s dim high) cur)));
    simpl; [|done].
  destruct (Qltb _ _); [|done].
  unfold mbind, M_bind. by rewrite alter_newest.
Qed.

Lemma clean_faces_run (h : heap) (s : Np.shape) (fs : list (nat * bool)) :
  ∀ (cur : list Z) (removed : Z),
    for_each (clean_face (length h)) removed fs (h ++ [Np.mk_ndarray s cur])
    = let st := foldl (clean_face_value s) (cur, removed) fs in
      (snd st, h ++ [Np.mk_ndarray s (fst st)]).
Proof.
  induction fs as [|f fs IH]; intros cur removed; [done|].
  simpl. unfold mbind, M_bind. rewrite clean_face_run. simpl.
  destruct (clean_face_value s (cur, removed) f) as [cur' removed'].
  apply IH.
Qed.

(** The result of [clean_artifacts] and the store after it. *)
Lemma clean_artifacts_run (self : SegmentationCleaner) (h : heap) (seg_data : loc) :
  clean_artifacts self seg_data h
  = let out := clean_artifacts_value (h !!! seg_data) in
    ((length h,
      {| edge_voxels_removed := snd out; total_cleaned := snd out |}),
     h ++ [fst out]).
Proof.
  unfold clean_artifacts, clean_artifacts_value, mbind, M_bind.
  rewrite np_copy_run.
  destruct (h !!! seg_data) as [s d] eqn:E.
  rewrite clean_faces_run. simpl. done.
Qed.

End CleanerValues.

(** ** The cleaner and its argument *)

(** C9.  [remove_small_components] and [clean_artifacts] leave the
    array they are given as it was: after either call the store holds
    at the argument's reference, and at every other reference that
    existed before, the array it held before the call; the array that
    is returned is a new object, at a reference that was not in use
    before the call and differs from the argument's. *)
Theorem cleaner_leaves_input_untouched
    (self : SegmentationCleaner) (h : heap) (seg_data : loc) (min_voxels : option Z) :
  (seg_data < length h)%nat →
  let removal := remove_small_components self seg_data min_voxels h in
  let cleaning := clean_artifacts self seg_data h in
  (removal.2 !! seg_data = h !! seg_data
   ∧ (∀ r, (r < length h)%nat → removal.2 !! r = h !! r)
   ∧ removal.1.1 ≠ seg_data
   ∧ h !! removal.1.1 = None
   ∧ is_Some (removal.2 !! removal.1.1))
  ∧ (cleaning.2 !! seg_data = h !! seg_data
     ∧ (∀ r, (r < length h)%nat → cleaning.2 !! r = h !! r)
     ∧ cleaning.1.1 ≠ seg_data
     ∧ h !! cleaning.1.1 = None
     ∧ is_Some (cleaning.2 !! cleaning.1.1)).
Proof.
  intros Hr removal cleaning. subst removal cleaning.
  rewrite remove_small_components_run by done. rewrite clean_artifacts_run.
  cbn [fst snd]. split.
  - split; [by apply lookup_app_l|]. split; [intros; by apply lookup_app_l|].
    split; [lia|]. split; [by apply lookup_ge_None_2|].
    rewrite lookup_app_r, Nat.sub_diag by done. by eexists.
  - split; [by apply lookup_app_l|]. split; [intros; by apply lookup_app_l|].
    split; [lia|]. split; [by apply lookup_ge_None_2|].
    rewrite lookup_app_r, Nat.sub_diag by done. by eexists.
Qed.

(** A store with one volume, cleaned both ways. *)
Lemma cleaner_leaves_input_untouched_witness :
  let self := SegmentationCleaner_init (mk_config None None None None None None) in
  let h := [Np.mk_ndarray (1, 1, 30)%nat (7 :: replicate 29 0)] in
  (remove_small_components self 0%nat None h).2 !! 0%nat = h !! 0%nat
  ∧ (clean_artifacts self 0%nat h).2 !! 0%nat = h !! 0%nat.
Proof.
  pose proof (cleaner_leaves_input_untouched
                (SegmentationCleaner_init (mk_config None None None None None None))
                [Np.mk_ndarray (1, 1, 30)%nat (7 :: replicate 29 0)] 0%nat None
                ltac:(simpl; lia)) as [[H1 _] [H2 _]].
  split; [exact H1|exact H2].
Defined.

(** ** The edge-artifact policy *)

Section Artifacts.

Lemma count_select_and_mask (m : list bool) :
  ∀ l, Np.count_true (Np.pos_mask (Np.select m l))
       = Np.count_true (Np.and_mask m (Np.pos_mask l)).
Proof.
  unfold Np.count_true, Np.pos_mask, Np.select, Np.and_mask.
  induction m as [|b m IH]; intros [|x l]; try done.
  specialize (IH l). simpl. destruct b; simpl; [|lia].
  destruct (0 <? x); simpl; lia.
Qed.

Lemma zero_where_and_mask (m : list bool) :
  ∀ l, Np.zero_where (Np.and_mask m (Np.pos_mask l)) l
       = zip_with (fun (in_slab : bool) x => if in_slab && (0 <? x) then 0 else x) m l.
Proof.
  unfold Np.zero_where, Np.pos_mask, Np.and_mask.
  induction m as [|b m IH]; intros [|x l]; try done.
  simpl. f_equal. apply IH.
Qed.

Lemma zero_where_nothing (m : list bool) :
  ∀ l, (length l ≤ length m)%nat →
       Np.count_true (Np.and_mask m (Np.pos_mask l)) = 0 →
       zip_with (fun (in_slab : bool) x => if in_slab && (0 <? x) then 0 else x) m l = l.
Proof.
  unfold Np.count_true, Np.pos_mask, Np.and_mask.
  induction m as [|b m IH]; intros [|x l] Hlen H; simpl in *; try done; try lia.
  destruct (b && (0 <? x)); simpl in *; [lia|].
  f_equal. apply IH; [lia|done].
Qed.

Lemma count_true_nonneg (m : list bool) : 0 <= Np.count_true m.
Proof. unfold Np.count_true. lia. Qed.

Lemma edge_mask_length (s : Np.shape) (dim : nat) (high : bool) :
  length (edge_mask s dim high) = Np.size s.
Proof. unfold edge_mask. by rewrite length_map, length_seq. Qed.

(** One face on the voxels: the positive voxels of the slab go when
    they are less than a tenth of the slab. *)
Lemma clean_face_value_policy (s : Np.shape) (cur : list Z) (removed : Z)
    (dim : nat) (high : bool) :
  length cur = Np.size s →
  let slab := edge_mask s dim high in
  let positives := Np.count_true (Np.and_mask slab (Np.pos_mask cur)) in
  clean_face_value s (cur, removed) (dim, high)
  = if Qltb (inject_Z positives / inject_Z (slab_size s dim))%Q (1 # 10)%Q
    then (zip_with (fun (in_slab : bool) x => if in_slab && (0 <? x) then 0 else x)
                   slab cur,
          removed + positives)
    else (cur, removed).
Proof.
  intros Hlen slab positives. unfold clean_face_value. cbn [fst snd].
  rewrite count_select_and_mask. fold slab. fold positives.
  rewrite zero_where_and_mask.
  destruct (Z.ltb_spec 0 positives) as [Hpos|Hzero]; [done|].
  simpl. pose proof (count_true_nonneg (Np.and_mask slab (Np.pos_mask cur))).
  assert (positives = 0) as Hz by (unfold positives in *; lia).
  destruct (Qltb _ _); [|done].
  rewrite zero_where_nothing, Hz, Z.add_0_r; try done.
  unfold slab. rewrite edge_mask_length. lia.
Qed.

End Artifacts.

(** C6, as amended.  [clean_artifacts] copies the volume and visits
    the six faces in the order low and high end of axis 0, of axis 1,
    of axis 2, each against the array as the faces before it left it.
    At a face, the voxels counted are those of the slab whose value is
    positive (greater than zero, not merely nonzero).  If they are
    strictly less than 10% of the voxels of the slab, they are all set
    to 0 and their number is added to the removed total; if they are
    10% or more, exactly 10% included, the array and the total stay as
    they are.  A voxel with a negative value is neither counted nor
    set to 0. *)
Theorem clean_face_policy
    (h : heap) (cur : Np.ndarray) (removed : Z) (dim : nat) (high : bool) :
  Np.wf cur →
  let slab := edge_mask (Np.arr_shape cur) dim high in
  let positives :=
    Np.count_true (Np.and_mask slab (Np.pos_mask (Np.arr_data cur))) in
  let fraction :=
    (inject_Z positives / inject_Z (slab_size (Np.arr_shape cur) dim))%Q in
  ((fraction < 1 # 10)%Q →
   clean_face (length h) removed (dim, high) (h ++ [cur])
   = (removed + positives,
      h ++ [Np.mk_ndarray (Np.arr_shape cur)
              (zip_with (fun (in_slab : bool) x =>
                           if in_slab && (0 <? x) then 0 else x)
                        slab (Np.arr_data cur))]))
  ∧ ((1 # 10 <= fraction)%Q →
     clean_face (length h) removed (dim, high) (h ++ [cur]) = (removed, h ++ [cur]))
  ∧ (∀ (self : SegmentationCleaner) (seg_data : loc),
       clean_artifacts self seg_data h
       = let run :=
           for_each (clean_face (length h)) 0
             [(0, false); (0, true); (1, false); (1, true); (2, false); (2, true)]%nat
             (h ++ [h !!! seg_data]) in
         ((length h, {| edge_voxels_removed := run.1; total_cleaned := run.1 |}),
          run.2)).
Proof.
  intros Hwf slab positives fraction.
  destruct cur as [s d]. unfold Np.wf in Hwf.
  cbn [Np.arr_shape Np.arr_data] in *.
  rewrite clean_face_run, (clean_face_value_policy s d removed dim high Hwf).
  fold slab. fold positives. fold fraction.
  split; [|split].
  - intros Hlt. apply Qltb_lt in Hlt. by rewrite Hlt.
  - intros Hge. destruct (Qltb fraction (1 # 10)) eqn:E; [|done].
    apply Qltb_lt in E. by apply Qlt_not_le in E.
  - intros self seg_data. unfold clean_artifacts, mbind, M_bind.
    rewrite np_copy_run. change faces with
      [(0, false); (0, true); (1, false); (1, true); (2, false); (2, true)]%nat.
    by destruct (for_each _ _ _ _).
Qed.

(** Twenty voxels in a row, seen from the low face of axis 0 (whose
    slab is the whole row): one positive voxel, 5%, is removed; two
    positive voxels, exactly 10%, stay. *)
Lemma clean_face_policy_witness :
  clean_face 0%nat 0 (0%nat, false)
             ([] ++ [Np.mk_ndarray (1, 1, 20)%nat (replicate 9 0 ++ [4] ++ replicate 10 0)])
  = (0 + 1, [] ++ [Np.mk_ndarray (1, 1, 20)%nat (replicate 20 0)])
  ∧ clean_face 0%nat 0 (0%nat, false)
               ([] ++ [Np.mk_ndarray (1, 1, 20)%nat (replicate 9 0 ++ [4; 4] ++ replicate 9 0)])
    = (0, [] ++ [Np.mk_ndarray (1, 1, 20)%nat (replicate 9 0 ++ [4; 4] ++ replicate 9 0)]).
Proof.
  split.
  - apply (clean_face_policy []
             (Np.mk_ndarray (1, 1, 20)%nat (replicate 9 0 ++ [4] ++ replicate 10 0))
             0 0%nat false); [reflexivity|]. vm_compute. reflexivity.
  - apply (clean_face_policy []
             (Np.mk_ndarray (1, 1, 20)%nat (replicate 9 0 ++ [4; 4] ++ replicate 9 0))
             0 0%nat false); [reflexivity|]. vm_compute. discriminate.
Defined.

(** C6 as the specification words it fails on a voxel with a negative
    value.  In a row of eleven voxels whose only nonzero voxel holds
    -1, the slab at the low face of axis 0 is the whole row and one of
    its eleven voxels is nonzero, less than 10%; yet that face, and
    the whole of [clean_artifacts], leaves the voxel in place and
    counts nothing. *)
Lemma clean_artifacts_keeps_negative_voxel :
  let self := SegmentationCleaner_init (mk_config None None None None None None) in
  let row := Np.mk_ndarray (1, 1, 11)%nat (replicate 5 0 ++ [-1] ++ replicate 5 0) in
  let slab := edge_mask (Np.arr_shape row) 0 false in
  Np.count_true (Np.and_mask slab (Np.eq_mask (Np.arr_data row) (-1))) = 1
  ∧ Np.count_nonzero (Np.select slab (Np.arr_data row)) = 1
  ∧ slab_size (Np.arr_shape row) 0 = 11
  ∧ (inject_Z 1 / inject_Z 11 < 1 # 10)%Q
  ∧ clean_face 1%nat 0 (0%nat, false) [row; row] = (0, [row; row])
  ∧ clean_artifacts self 0%nat [row]
    = ((1%nat, {| edge_voxels_removed := 0; total_cleaned := 0 |}), [row; row]).
Proof. vm_compute. repeat split. Qed.

(** ** The spatial-consistency check *)

Section Spatial.

Lemma foldl_add_sum {A : Type} (f : A → Z) (l : list A) :
  ∀ acc, foldl (fun total x => total + f x) acc l = acc + foldr Z.add 0 (map f l).
Proof.
  induction l as [|x l IH]; intros acc; simpl; [lia|]. rewrite IH. lia.
Qed.

Lemma filter_map_length {A B : Type} (p : B → bool) (f : A → B) (l : list A) :
  length (List.filter p (map f l)) = length (List.filter (fun x => p (f x)) l).
Proof.
  induction l as [|x l IH]; simpl; [done|]. destruct (p (f x)); simpl; by rewrite IH.
Qed.

(** The components of one label that are smaller than the threshold,
    by their numbers. *)
Definition small_component_ids (self : SegmentationValidator)
    (seg_data : Np.ndarray) (label_id : Z) : list nat :=
  let '(labeled_array, num_features) :=
    Ndimage.label (Np.arr_shape seg_data) (Np.eq_mask (Np.arr_data seg_data) label_id) in
  List.filter (fun c => Ndimage.component_size labeled_array c
                        <? min_voxels_per_component self)
              (seq 1 num_features).

(** The number of components of one label. *)
Definition num_components (seg_data : Np.ndarray) (label_id : Z) : nat :=
  (Ndimage.label (Np.arr_shape seg_data)
                 (Np.eq_mask (Np.arr_data seg_data) label_id)).2.

Lemma small_components_of_count (self : SegmentationValidator)
    (seg_data : Np.ndarray) (label_id : Z) :
  small_components_of self seg_data label_id
  = if (1 <? num_components seg_data label_id)%nat
    then Z.of_nat (length (small_component_ids self seg_data label_id))
    else 0.
Proof.
  unfold small_components_of, num_components, small_component_ids.
  destruct (Ndimage.label _ _) as [lab k]. simpl.
  destruct (1 <? k)%nat; [|done]. by rewrite filter_map_length.
Qed.

Lemma total_small_components_nonneg (self : SegmentationValidator)
    (seg_data : Np.ndarray) :
  0 <= total_small_components self seg_data.
Proof.
  unfold total_small_components. rewrite foldl_add_sum.
  induction (unique_labels (Np.arr_data seg_data)) as [|l ls IH]; simpl; [done|].
  rewrite small_components_of_count. destruct (1 <? _)%nat; lia.
Qed.

Lemma eq_mask_length (l : list Z) (v : Z) : length (Np.eq_mask l v) = length l.
Proof. unfold Np.eq_mask. by rewrite length_map. Qed.

End Spatial.

(** C1, as amended.  The running total of the spatial-consistency
    check is the sum, over the nonzero labels of the volume that have
    more than one connected component, of the number of their
    components with fewer than [min_voxels_per_component] voxels: each
    such component adds exactly 1.  A label whose mask is a single
    component adds nothing, also when that component is smaller than
    the threshold.  The check gives exactly one warning, which shows
    the total, when the total is not zero, and none when it is zero.
    The components are those of 6-connectivity: [ndimage.label] gives
    the voxels of the label, and only them, the numbers 1..K, uses
    every number, and gives two voxels the same number exactly when a
    path of face-adjacent voxels of the label joins them. *)
Theorem spatial_consistency_total
    (self : SegmentationValidator) (seg_data : Np.ndarray) :
  let total := total_small_components self seg_data in
  total
  = foldr Z.add 0
      (map (fun label_id =>
              if (1 <? num_components seg_data label_id)%nat
              then Z.of_nat (length (small_component_ids self seg_data label_id))
              else 0)
           (unique_labels (Np.arr_data seg_data)))
  ∧ (validate_spatial_consistency self seg_data).1.2
    = (if total =? 0 then []
       else [ "Found " +:+ Py.str_int total +:+ " small isolated component(s) "
              +:+ "(< " +:+ Py.str_int (min_voxels_per_component self)
              +:+ " voxels each) - possible noise" ])
  ∧ (Np.wf seg_data →
     ∀ label_id,
       let mask := Np.eq_mask (Np.arr_data seg_data) label_id in
       let components := Ndimage.label (Np.arr_shape seg_data) mask in
       scan_inv (Np.arr_shape seg_data) mask (length mask) components.1 components.2).
Proof.
  intros total. split; [|split].
  - unfold total, total_small_components. rewrite foldl_add_sum, Z.add_0_l.
    f_equal. apply map_ext. intros l. apply small_components_of_count.
  - unfold validate_spatial_consistency. fold total. cbn [fst snd].
    pose proof (total_small_components_nonneg self seg_data). fold total in H.
    destruct (Z.ltb_spec 0 total), (Z.eqb_spec total 0); try lia; done.
  - intros Hwf label_id mask components. apply label_inv.
    unfold mask. by rewrite eq_mask_length.
Qed.

(** Three labels in a row of eight voxels: label 4 has the two
    components [4] and [4 4], label 6 is one voxel, label 9 is absent. *)
Lemma spatial_consistency_total_witness :
  let self := SegmentationValidator_init (mk_config None None None None None None) in
  let row := Np.mk_ndarray (1, 1, 8)%nat [4; 0; 4; 4; 0; 6; 0; 0] in
  scan_inv (Np.arr_shape row) (Np.eq_mask (Np.arr_data row) 4) 8
           [1; 0; 2; 2; 0; 0; 0; 0]%nat 2
  ∧ total_small_components self row = 2.
Proof.
  split.
  - apply (spatial_consistency_total
             (SegmentationValidator_init (mk_config None None None None None None))
             (Np.mk_ndarray (1, 1, 8)%nat [4; 0; 4; 4; 0; 6; 0; 0])).
    reflexivity.
  - vm_compute. reflexivity.
Defined.

(** C1 as the specification words it fails for a label whose mask is
    one small component.  Label 5 occupies a single voxel: its mask has
    one component, of one voxel, below the threshold of ten; the check
    counts no small component and gives no warning. *)
Lemma single_small_component_not_counted :
  let self := SegmentationValidator_init (mk_config None None None None None None) in
  let row := Np.mk_ndarray (1, 1, 3)%nat [5; 0; 0] in
  unique_labels (Np.arr_data row) = [5]
  ∧ Ndimage.label (Np.arr_shape row) (Np.eq_mask (Np.arr_data row) 5)
    = ([1; 0; 0]%nat, 1%nat)
  ∧ Ndimage.component_size [1; 0; 0]%nat 1 = 1
  ∧ min_voxels_per_component self = 10
  ∧ total_small_components self row = 0
  ∧ validate_spatial_consistency self row = (true, [], []).
Proof. vm_compute. repeat split. Qed.

(** ** The orchestrator *)

Section Orchestrator.

(** The label volume that [validate_and_clean] works on. *)
Definition label_volume (segmentation_img : Nifti1Image) : Np.ndarray :=
  Np.mk_ndarray (img_shape segmentation_img) (map int16 (img_dataobj segmentation_img)).

(** The image that [validate_and_clean] builds from the cleaned array. *)
Definition cleaned_image (segmentation_img : Nifti1Image) (cleaned_data : Np.ndarray)
    : Nifti1Image :=
  {| img_shape := Np.arr_shape cleaned_data;
     img_affine := img_affine segmentation_img;
     img_header := img_header segmentation_img;
     img_dataobj := map int16 (Np.arr_data cleaned_data) |}.

Lemma run_validations_fields (segmentation_img : Nifti1Image)
    (input_img : option Nifti1Image) (label_dict : LabelDict)
    (config : Config) (seg : Np.ndarray) :
  let validator := SegmentationValidator_init config in
  let result := run_validations segmentation_img input_img label_dict config seg in
  let input_data :=
    (fun img => Np.mk_ndarray (img_shape img) (img_dataobj img)) <$> input_img in
  warnings result
  = (validate_labels validator seg label_dict).1.2
    ++ (validate_voxel_counts validator seg label_dict
          (Z.of_nat (Np.size (Np.arr_shape seg)))).1.2
    ++ (validate_spatial_consistency validator seg).1.2
    ++ (validate_statistics validator seg input_data).1.2
  ∧ errors result
    = (validate_dimensions validator segmentation_img input_img).2
      ++ (validate_labels validator seg label_dict).2
      ++ (validate_voxel_counts validator seg label_dict
            (Z.of_nat (Np.size (Np.arr_shape seg)))).2
      ++ (validate_spatial_consistency validator seg).2
      ++ (validate_statistics validator seg input_data).2
  ∧ valid result = no_errors (errors result)
  ∧ cleaned result = false
  ∧ cleaned_img result = None
  ∧ st_components_removed (stats result) = None
  ∧ st_artifacts_removed (stats result) = None.
Proof.
  intros validator result input_data. subst result. unfold run_validations.
  fold validator. fold input_data.
  destruct (validate_dimensions validator segmentation_img input_img) as [? ?].
  destruct (validate_labels validator seg label_dict) as [[? ?] ?].
  destruct (validate_voxel_counts validator seg label_dict _) as [[? ?] ?].
  destruct (validate_spatial_consistency validator seg) as [[? ?] ?].
  destruct (validate_statistics validator seg input_data) as [[? ?] ?].
  done.
Qed.

Lemma cleanup_due_iff (config : Config) (result : ValidationResult) :
  cleanup_due config result = true
  ↔ default true (cfg_enable_cleanup config) = true
    ∧ (warnings result ≠ [] ∨ errors result ≠ []).
Proof.
  unfold cleanup_due. rewrite andb_true_iff, orb_true_iff, !Nat.ltb_lt.
  destruct (warnings result), (errors result); simpl; split;
    intros [? [?|?]]; (split; [done|]); try lia; try done; auto with lia.
Qed.

Lemma remove_components_value_count (min_voxels : Z) (lab : list nat)
    (sizes : list (nat * Z)) :
  ∀ st, snd st <= snd (remove_components_value min_voxels lab st sizes).
Proof.
  unfold remove_components_value.
  induction sizes as [|e sizes IH]; intros st; simpl; [lia|].
  etrans; [|apply IH]. destruct (e.2 <? min_voxels); simpl; lia.
Qed.

Lemma remove_labels_value_count (s : Np.shape) (min_voxels : Z) (labels : list Z) :
  ∀ st, snd st <= snd (foldl (remove_label_value s min_voxels) st labels).
Proof.
  induction labels as [|l labels IH]; intros st; simpl; [lia|].
  etrans; [|apply IH]. unfold remove_label_value.
  destruct (Ndimage.label _ _) as [lab k]. destruct (0 <? k)%nat; [|lia].
  apply remove_components_value_count.
Qed.

Lemma remove_small_components_value_nonneg (min_voxels : Z) (a : Np.ndarray) :
  0 <= (remove_small_components_value min_voxels a).2.
Proof.
  unfold remove_small_components_value. cbn [snd].
  apply (remove_labels_value_count _ _ _ (Np.arr_data a, 0)).
Qed.

Lemma clean_faces_value_count (s : Np.shape) (fs : list (nat * bool)) :
  ∀ st, snd st <= snd (foldl (clean_face_value s) st fs).
Proof.
  induction fs as [|f fs IH]; intros st; simpl; [lia|].
  etrans; [|apply IH]. unfold clean_face_value.
  destruct (Z.ltb_spec 0 (Np.count_true (Np.pos_mask (Np.select (edge_mask s f.1 f.2) st.1))));
    simpl; [|lia].
  destruct (Qltb _ _); simpl; lia.
Qed.

Lemma clean_artifacts_value_nonneg (a : Np.ndarray) :
  0 <= (clean_artifacts_value a).2.
Proof.
  unfold clean_artifacts_value. cbn [snd].
  apply (clean_faces_value_count _ _ (Np.arr_data a, 0)).
Qed.

Lemma lookup_total_newest (h : heap) (a : Np.ndarray) : (h ++ [a]) !!! length h = a.
Proof.
  apply list_lookup_total_correct. by rewrite lookup_app_r, Nat.sub_diag.
Qed.

(** The result of [validate_and_clean] and the store after it, by the
    values that the cleaner computes. *)
Lemma validate_and_clean_run (segmentation_img : Nifti1Image)
    (input_img : option Nifti1Image) (label_dict : LabelDict)
    (config : Config) (h : heap) :
  let seg := label_volume segmentation_img in
  let result := run_validations segmentation_img input_img label_dict config seg in
  let cleaner := SegmentationCleaner_init config in
  let removal :=
    remove_small_components_value (cleaner_min_voxels_per_component cleaner) seg in
  let cleaning := clean_artifacts_value removal.1 in
  validate_and_clean segmentation_img input_img label_dict config h
  = if cleanup_due config result
    then
      if (0 <? removal.2) || (0 <? cleaning.2)
      then
        ({| valid := valid result;
            warnings := warnings result;
            errors := errors result;
            stats :=
              {| st_total_voxels := st_total_voxels (stats result);
                 st_segmented_voxels := st_segmented_voxels (stats result);
                 st_segmentation_ratio := st_segmentation_ratio (stats result);
                 st_num_labels := st_num_labels (stats result);
                 st_label_ids := st_label_ids (stats result);
                 st_components_removed := Some removal.2;
                 st_artifacts_removed := Some cleaning.2 |};
            cleaned := true;
            cleaned_img := Some (cleaned_image segmentation_img cleaning.1) |},
         h ++ [seg; removal.1; cleaning.1;
               Np.mk_ndarray (Np.arr_shape cleaning.1)
                             (map int16 (Np.arr_data cleaning.1))])
      else (result, h ++ [seg; removal.1; cleaning.1])
    else (result, h ++ [seg]).
Proof.
  intros seg result cleaner removal cleaning.
  unfold validate_and_clean, mbind, M_bind, get_fdata_int16, alloc.
  fold (label_volume segmentation_img). fold seg.
  rewrite read_newest. fold result. fold cleaner.
  destruct (cleanup_due config result); [|done].
  unfold mbind, M_bind.
  rewrite remove_small_components_run by (rewrite length_app; simpl; lia).
  rewrite lookup_total_newest. cbn [default]. fold removal. cbn zeta.
  rewrite clean_artifacts_run, lookup_total_newest. fold cleaning.
  cbn [total_cleaned fst snd].
  destruct ((0 <? removal.2) || (0 <? cleaning.2)).
  - unfold mbind, M_bind, astype_int16, mbind, M_bind, alloc.
    rewrite read_newest, read_newest. unfold mret, M_ret.
    f_equal. by rewrite <- !app_assoc.
  - unfold mret, M_ret. f_equal. by rewrite <- !app_assoc.
Qed.

(** The two steps of the cleanup pass on the store that holds the
    label volume as its newest array. *)
Lemma cleanup_pass_run (cleaner : SegmentationCleaner) (h : heap) (seg : Np.ndarray) :
  let removal := remove_small_components cleaner (length h) None (h ++ [seg]) in
  let cleaning := clean_artifacts cleaner removal.1.1 removal.2 in
  let removal' :=
    remove_small_components_value (cleaner_min_voxels_per_component cleaner) seg in
  let cleaning' := clean_artifacts_value removal'.1 in
  removal = ((S (length h), removal'.2), h ++ [seg; removal'.1])
  ∧ cleaning = ((S (S (length h)),
                 {| edge_voxels_removed := cleaning'.2; total_cleaned := cleaning'.2 |}),
                h ++ [seg; removal'.1; cleaning'.1]).
Proof.
  intros removal cleaning removal' cleaning'.
  assert (removal = ((S (length h), removal'.2), h ++ [seg; removal'.1])) as Hrem.
  { unfold removal. rewrite remove_small_components_run by (rewrite length_app; simpl; lia).
    rewrite lookup_total_newest. cbn zeta. cbn [default]. fold removal'.
    rewrite length_app, <- app_assoc. simpl. by rewrite Nat.add_1_r. }
  split; [done|].
  unfold cleaning. rewrite Hrem. cbn [fst snd]. rewrite clean_artifacts_run.
  replace (h ++ [seg; removal'.1]) with ((h ++ [seg]) ++ [removal'.1])
    by (by rewrite <- app_assoc).
  replace (S (length h)) with (length (h ++ [seg]))
    by (rewrite length_app; simpl; lia).
  rewrite lookup_total_newest. cbn zeta. fold cleaning'.
  rewrite !length_app, <- !app_assoc. simpl. by rewrite Nat.add_1_r.
Qed.

(** The cleanup never changes the findings of the checks. *)
Lemma validate_and_clean_findings (segmentation_img : Nifti1Image)
    (input_img : option Nifti1Image) (label_dict : LabelDict)
    (config : Config) (h : heap) :
  let base :=
    run_validations segmentation_img input_img label_dict config
                    (label_volume segmentation_img) in
  let result := (validate_and_clean segmentation_img input_img label_dict config h).1 in
  valid result = valid base
  ∧ warnings result = warnings base
  ∧ errors result = errors base.
Proof.
  intros base result. subst result. rewrite validate_and_clean_run. fold base.
  destruct (cleanup_due config base); [|done].
  by destruct (_ || _).
Qed.

End Orchestrator.

(** C3.  [validate_and_clean] runs the cleanup pass exactly when
    [enable_cleanup] is true and the merged warnings or the merged
    errors are not empty.  When it does not, the store gains the label
    volume only and the result is that of the checks, with [cleaned]
    false and no cleaned image.  When it does, the store gains, in this
    order, the output of [remove_small_components] on the label volume
    and the output of [clean_artifacts] on that output; if one of the
    two removal counts is not zero the result has [cleaned] true, the
    image of the final array, and both counts in its statistics;
    otherwise the result is that of the checks, [cleaned] false, no
    cleaned image and no count recorded. *)
Theorem cleanup_gate
    (segmentation_img : Nifti1Image) (input_img : option Nifti1Image)
    (label_dict : LabelDict) (config : Config) (h : heap) :
  let seg := label_volume segmentation_img in
  let base := run_validations segmentation_img input_img label_dict config seg in
  let cleaner := SegmentationCleaner_init config in
  let removal := remove_small_components cleaner (length h) None (h ++ [seg]) in
  let cleaning := clean_artifacts cleaner removal.1.1 removal.2 in
  let num_removed := removal.1.2 in
  let artifacts := total_cleaned cleaning.1.2 in
  let attempted :=
    default true (cfg_enable_cleanup config) = true
    ∧ (warnings base ≠ [] ∨ errors base ≠ []) in
  let run := validate_and_clean segmentation_img input_img label_dict config h in
  (cleaned base = false ∧ cleaned_img base = None
   ∧ st_components_removed (stats base) = None
   ∧ st_artifacts_removed (stats base) = None)
  ∧ (¬ attempted → run = (base, h ++ [seg]))
  ∧ (attempted → num_removed = 0 ∧ artifacts = 0 → run = (base, cleaning.2))
  ∧ (attempted → num_removed ≠ 0 ∨ artifacts ≠ 0 →
     run.1 = {| valid := valid base;
                warnings := warnings base;
                errors := errors base;
                stats :=
                  {| st_total_voxels := st_total_voxels (stats base);
                     st_segmented_voxels := st_segmented_voxels (stats base);
                     st_segmentation_ratio := st_segmentation_ratio (stats base);
                     st_num_labels := st_num_labels (stats base);
                     st_label_ids := st_label_ids (stats base);
                     st_components_removed := Some num_removed;
                     st_artifacts_removed := Some artifacts |};
                cleaned := true;
                cleaned_img :=
                  Some (cleaned_image segmentation_img (cleaning.2 !!! cleaning.1.1)) |}
     ∧ ∃ converted, run.2 = cleaning.2 ++ [converted]).
Proof.
  intros seg base cleaner removal cleaning num_removed artifacts attempted run.
  pose proof (run_validations_fields segmentation_img input_img label_dict config seg)
    as (_ & _ & _ & Hc & Hi & Hcr & Har).
  fold base in Hc, Hi, Hcr, Har.
  split; [done|].
  pose proof (cleanup_due_iff config base) as Hdue. fold attempted in Hdue.
  subst run. rewrite validate_and_clean_run. fold seg. fold base. fold cleaner.
  set (removal' := remove_small_components_value
                     (cleaner_min_voxels_per_component cleaner) seg).
  set (cleaning' := clean_artifacts_value removal'.1).
  destruct (cleanup_pass_run cleaner h seg) as [Hrem Hcl].
  fold removal in Hrem, Hcl. fold cleaning in Hcl.
  fold removal' in Hrem, Hcl. fold cleaning' in Hcl.
  assert (num_removed = removal'.2) as Hn by (unfold num_removed; by rewrite Hrem).
  assert (artifacts = cleaning'.2) as Ha by (unfold artifacts; by rewrite Hcl).
  pose proof (remove_small_components_value_nonneg
                (cleaner_min_voxels_per_component cleaner) seg) as Hn0.
  pose proof (clean_artifacts_value_nonneg removal'.1) as Ha0.
  fold removal' in Hn0. fold cleaning' in Ha0.
  split; [|split].
  - intros Hnot. destruct (cleanup_due config base); [|done].
    exfalso. by apply Hnot, Hdue.
  - intros Hatt [Hz1 Hz2]. rewrite (proj2 Hdue Hatt).
    rewrite <- Hn, <- Ha, Hz1, Hz2. simpl. by rewrite Hcl.
  - intros Hatt Hchanged. rewrite (proj2 Hdue Hatt).
    assert ((0 <? removal'.2) || (0 <? cleaning'.2) = true) as ->.
    { apply orb_true_iff. rewrite !Z.ltb_lt. lia. }
    cbn [fst snd]. split.
    + rewrite Hn, Ha, Hcl. cbn [fst snd]. do 3 f_equal.
      replace (h ++ [seg; removal'.1; cleaning'.1])
        with ((h ++ [seg; removal'.1]) ++ [cleaning'.1])
        by (by rewrite <- app_assoc).
      replace (S (S (length h))) with (length (h ++ [seg; removal'.1]))
        by (rewrite length_app; simpl; lia).
      by rewrite lookup_total_newest.
    + eexists. rewrite Hcl. cbn [snd]. rewrite <- app_assoc. reflexivity.
Qed.

(** ** Volumes with background only, or with one label *)

Section Degenerate.

Lemma unique_all_zero (l : list Z) :
  l ≠ [] → (∀ x, x ∈ l → x = 0) → Np.unique l = [0].
Proof.
  intros Hne Hall.
  apply ascending_ext; [apply unique_ascending|simpl; by split; [constructor|] |].
  intros x. rewrite elem_of_unique, list_elem_of_singleton. split; [apply Hall|].
  intros ->. destruct l as [|y l]; [done|].
  rewrite <- (Hall y) by apply list_elem_of_here. apply list_elem_of_here.
Qed.

Lemma unique_labels_all_zero (l : list Z) :
  (∀ x, x ∈ l → x = 0) → unique_labels l = [].
Proof.
  intros Hall. destruct (unique_labels l) as [|x rest] eqn:E; [done|].
  assert (x ∈ unique_labels l) as Hx by (rewrite E; apply list_elem_of_here).
  apply elem_of_unique_labels in Hx as [Hx0 Hx]. by apply Hall in Hx.
Qed.

Lemma validate_statistics_empty (self : SegmentationValidator)
    (seg_data : Np.ndarray) (input_data : option Np.ndarray) :
  Np.arr_data seg_data ≠ [] → (∀ x, x ∈ Np.arr_data seg_data → x = 0) →
  validate_statistics self seg_data input_data
  = (false, [], [empty_segmentation_error]).
Proof.
  intros Hne Hall. unfold validate_statistics.
  by rewrite (unique_all_zero _ Hne Hall).
Qed.

Lemma remove_small_components_value_all_zero (min_voxels : Z) (a : Np.ndarray) :
  (∀ x, x ∈ Np.arr_data a → x = 0) →
  remove_small_components_value min_voxels a = (a, 0).
Proof.
  intros Hall. unfold remove_small_components_value.
  rewrite (unique_labels_all_zero _ Hall). by destruct a.
Qed.

Lemma no_positive_voxels (m : list bool) :
  ∀ l, (∀ x, x ∈ l → x = 0) → Np.count_true (Np.pos_mask (Np.select m l)) = 0.
Proof.
  intros l Hall. rewrite count_select_and_mask.
  unfold Np.count_true, Np.and_mask, Np.pos_mask.
  revert l Hall. induction m as [|b m IH]; intros [|x l] Hall; try done.
  simpl. rewrite (Hall x) by apply list_elem_of_here.
  rewrite andb_false_r. simpl. apply IH.
  intros y Hy. apply Hall. by apply list_elem_of_further.
Qed.

Lemma clean_artifacts_value_all_zero (a : Np.ndarray) :
  (∀ x, x ∈ Np.arr_data a → x = 0) → clean_artifacts_value a = (a, 0).
Proof.
  intros Hall. unfold clean_artifacts_value.
  assert (∀ fs, foldl (clean_face_value (Np.arr_shape a)) (Np.arr_data a, 0) fs
                = (Np.arr_data a, 0)) as ->.
  { induction fs as [|f fs IH]; [done|]. simpl.
    unfold clean_face_value at 2. cbn [fst snd].
    by rewrite no_positive_voxels. }
  by destruct a.
Qed.

End Degenerate.

(** C4.  For a label volume that has voxels, all of them zero,
    [validate_and_clean] returns [valid] false and an error that
    contains the word "empty".  The cleanup pass, which runs on the
    store when [enable_cleanup] is true, removes no component and no
    voxel, so [cleaned] stays false and no cleaned image is attached. *)
Theorem empty_volume_fails
    (segmentation_img : Nifti1Image) (input_img : option Nifti1Image)
    (label_dict : LabelDict) (config : Config) (h : heap) :
  let seg := label_volume segmentation_img in
  Np.arr_data seg ≠ [] →
  (∀ x, x ∈ Np.arr_data seg → x = 0) →
  let cleaner := SegmentationCleaner_init config in
  let removal := remove_small_components cleaner (length h) None (h ++ [seg]) in
  let cleaning := clean_artifacts cleaner removal.1.1 removal.2 in
  let run := validate_and_clean segmentation_img input_img label_dict config h in
  valid run.1 = false
  ∧ (∃ e, e ∈ errors run.1 ∧ Py.contains "empty" e = true)
  ∧ cleaned run.1 = false
  ∧ cleaned_img run.1 = None
  ∧ removal.1.2 = 0
  ∧ total_cleaned cleaning.1.2 = 0
  ∧ (default true (cfg_enable_cleanup config) = true → run.2 = cleaning.2)
  ∧ (default true (cfg_enable_cleanup config) = false → run.2 = h ++ [seg]).
Proof.
  intros seg Hne Hall cleaner removal cleaning run.
  set (base := run_validations segmentation_img input_img label_dict config seg).
  pose proof (run_validations_fields segmentation_img input_img label_dict config seg)
    as (_ & He & Hv & Hc & Hi & _).
  fold base in He, Hv, Hc, Hi.
  rewrite validate_statistics_empty in He by done. cbn [snd] in He.
  assert (empty_segmentation_error ∈ errors base) as Hin.
  { rewrite He, !elem_of_app. do 4 right. apply list_elem_of_here. }
  assert (valid base = false) as Hvalid.
  { rewrite Hv. unfold no_errors. apply Nat.eqb_neq.
    destruct (errors base); [by apply elem_of_nil in Hin|done]. }
  destruct (cleanup_pass_run cleaner h seg) as [Hrem Hcl].
  fold removal in Hrem, Hcl. fold cleaning in Hcl.
  rewrite remove_small_components_value_all_zero in Hrem, Hcl by done.
  cbn [fst snd] in Hrem, Hcl.
  rewrite clean_artifacts_value_all_zero in Hcl by done. cbn [fst snd] in Hcl.
  assert (run = if cleanup_due config base then (base, h ++ [seg; seg; seg])
                else (base, h ++ [seg])) as Hrun.
  { unfold run. rewrite validate_and_clean_run. fold seg. fold base. fold cleaner.
    rewrite remove_small_components_value_all_zero by done. cbn [fst snd].
    rewrite clean_artifacts_value_all_zero by done. done. }
  assert (run.1 = base) as Hres by (rewrite Hrun; by destruct (cleanup_due _ _)).
  rewrite Hres, Hrem, Hcl. cbn [fst snd total_cleaned].
  repeat split; try done.
  - exists empty_segmentation_error. split; [done|]. by vm_compute.
  - intros Hen. rewrite Hrun.
    assert (cleanup_due config base = true) as ->; [|done].
    apply cleanup_due_iff. split; [done|]. right. intros E. rewrite E in Hin.
    by apply elem_of_nil in Hin.
  - intros Hen. rewrite Hrun. unfold cleanup_due. by rewrite Hen.
Qed.

(** A volume of twenty-four background voxels. *)
Lemma empty_volume_fails_witness :
  let img := mk_image (2, 3, 4)%nat [] "" (replicate 24 0) in
  let result :=
    (validate_and_clean img None ∅ (mk_config None None None None None None) []).1 in
  valid result = false ∧ cleaned result = false ∧ cleaned_img result = None.
Proof.
  pose proof (empty_volume_fails
                (mk_image (2, 3, 4)%nat [] "" (replicate 24 0)) None ∅
                (mk_config None None None None None None) []
                ltac:(vm_compute; discriminate)
                ltac:(vm_compute; intros x Hx;
                      repeat (apply elem_of_cons in Hx as [Hx|Hx]; [exact Hx|]);
                      by apply elem_of_nil in Hx))
    as (H1 & _ & H3 & H4 & _).
  split; [exact H1|]. split; [exact H3|exact H4].
Defined.

(** C10.  For a volume with at least one nonzero voxel and one nonzero
    label only, the statistical check warns that this label dominates,
    naming its ID and a share of 100.0%; the warnings that
    [validate_and_clean] returns for such a volume contain that
    warning, so they are never empty. *)
Theorem single_label_dominates (seg_data : Np.ndarray) (label_id : Z) :
  label_id ≠ 0 →
  label_id ∈ Np.arr_data seg_data →
  (∀ x, x ∈ Np.arr_data seg_data → x = 0 ∨ x = label_id) →
  let message :=
    "Single label (ID: " +:+ Py.str_int label_id
    +:+ ") dominates segmentation (100.0% of segmented voxels)" in
  (∀ (self : SegmentationValidator) (input_data : option Np.ndarray),
     (validate_statistics self seg_data input_data).1.2 = [message])
  ∧ (∀ (segmentation_img : Nifti1Image) (input_img : option Nifti1Image)
       (label_dict : LabelDict) (config : Config) (h : heap),
       label_volume segmentation_img = seg_data →
       let result :=
         (validate_and_clean segmentation_img input_img label_dict config h).1 in
       message ∈ warnings result ∧ warnings result ≠ []).
Proof.
  intros Hl Hin Honly message. split.
  - intros self input_data.
    by rewrite (validate_statistics_single_label self seg_data input_data label_id).
  - intros segmentation_img input_img label_dict config h Hseg result.
    assert (message ∈ warnings result) as Hm.
    { destruct (validate_and_clean_findings segmentation_img input_img label_dict config h)
        as (_ & Hw & _).
      subst result. rewrite Hw.
      pose proof (run_validations_fields segmentation_img input_img label_dict config
                    (label_volume segmentation_img)) as [Hws _].
      rewrite Hws, Hseg.
      rewrite (validate_statistics_single_label _ seg_data _ label_id) by done.
      rewrite !elem_of_app. do 3 right. apply list_elem_of_here. }
    split; [done|]. intros E. rewrite E in Hm. by apply elem_of_nil in Hm.
Qed.

(** A block of label 3 that fills a 2 x 2 x 3 volume but for one
    voxel. *)
Lemma single_label_dominates_witness :
  let img := mk_image (2, 2, 3)%nat [] "" (0 :: replicate 11 3) in
  "Single label (ID: 3) dominates segmentation (100.0% of segmented voxels)"
  ∈ warnings (validate_and_clean img None ∅
                (mk_config None None None None None None) []).1.
Proof.
  apply (single_label_dominates (Np.mk_ndarray (2, 2, 3)%nat (0 :: replicate 11 3)) 3
           ltac:(done)
           ltac:(vm_compute; apply list_elem_of_further, list_elem_of_here)
           ltac:(vm_compute; intros x Hx;
                 apply elem_of_cons in Hx as [Hx|Hx]; [by left|];
                 repeat (apply elem_of_cons in Hx as [Hx|Hx]; [by right|]);
                 by apply elem_of_nil in Hx)).
  reflexivity.
Defined.

(** ** Removal of small components, voxel by voxel *)

Section Removal.

Local Open Scope nat_scope.

Lemma nth_zero_where (m : list bool) :
  ∀ (l : list Z) (i : nat),
    length m = length l →
    nth i (Np.zero_where m l) 0%Z = if nth i m false then 0%Z else nth i l 0%Z.
Proof.
  unfold Np.zero_where.
  induction m as [|b m IH]; intros [|x l] i Hlen; simpl in *; try lia.
  - by destruct i.
  - destruct i as [|i]; [done|]. apply IH. lia.
Qed.

Lemma zero_where_length (m : list bool) (l : list Z) :
  length m = length l → length (Np.zero_where m l) = length l.
Proof.
  intros H. unfold Np.zero_where. rewrite length_map, length_zip_with. lia.
Qed.

Lemma nth_component_mask (lab : list nat) (c i : nat) :
  i < length lab →
  nth i (Ndimage.component_mask lab c) false = (lbl lab i =? c).
Proof.
  intros Hi. unfold Ndimage.component_mask, lbl.
  rewrite (nth_indep _ false ((fun x => x =? c) 0)) by (by rewrite length_map).
  apply (map_nth (fun x => x =? c)).
Qed.

Lemma component_mask_length (lab : list nat) (c : nat) :
  length (Ndimage.component_mask lab c) = length lab.
Proof. unfold Ndimage.component_mask. by rewrite length_map. Qed.

Lemma nth_eq_mask (l : list Z) (v : Z) (i : nat) :
  v ≠ 0%Z → nth i (Np.eq_mask l v) false = (nth i l 0 =? v)%Z.
Proof.
  intros Hv. unfold Np.eq_mask.
  assert (false = (fun x => x =? v)%Z 0%Z) as Hd.
  { symmetry. by apply Z.eqb_neq. }
  rewrite Hd at 1. apply (map_nth (fun x => (x =? v)%Z)).
Qed.

(** A voxel is zeroed by the inner loop when its component is one of
    [cs] and is smaller than the threshold. *)
Definition hit (min_voxels : Z) (lab : list nat) (cs : list nat) (i : nat) : bool :=
  existsb (fun c => (lbl lab i =? c)
                    && (Ndimage.component_size lab c <? min_voxels)%Z) cs.

Lemma remove_components_value_nth (min_voxels : Z) (lab : list nat) (cs : list nat) :
  ∀ (cur : list Z) (total : Z),
    length lab = length cur →
    let r := remove_components_value min_voxels lab (cur, total)
               (zip cs (map (Ndimage.component_size lab) cs)) in
    length r.1 = length cur
    ∧ (∀ i, nth i r.1 0%Z = if hit min_voxels lab cs i then 0%Z else nth i cur 0%Z)
    ∧ r.2 = (total + Z.of_nat (length
               (List.filter (fun c => (Ndimage.component_size lab c <? min_voxels)%Z) cs)))%Z.
Proof.
  unfold remove_components_value.
  induction cs as [|c cs IH]; intros cur total Hlen.
  - simpl. split; [done|]. split; [done|lia].
  - cbn [map zip zip_with foldl fst snd List.filter].
    destruct (Ndimage.component_size lab c <? min_voxels)%Z eqn:Hsmall.
    + set (cur1 := Np.zero_where (Ndimage.component_mask lab c) cur).
      assert (length lab = length cur1) as Hlen1.
      { unfold cur1. rewrite zero_where_length; [done|].
        by rewrite component_mask_length. }
      destruct (IH cur1 (total + 1)%Z Hlen1) as (H1 & H2 & H3).
      split; [|split].
      * rewrite H1. lia.
      * intros i. rewrite H2. unfold hit. cbn [existsb]. fold (hit min_voxels lab cs i).
        rewrite Hsmall, andb_true_r.
        destruct (hit min_voxels lab cs i); [by rewrite orb_true_r|].
        rewrite orb_false_r. unfold cur1.
        rewrite nth_zero_where by (by rewrite component_mask_length).
        destruct (Nat.lt_ge_cases i (length lab)) as [Hi|Hi].
        -- by rewrite nth_component_mask.
        -- rewrite (nth_overflow cur) by lia.
           by destruct (nth i _ _), (_ =? _).
      * rewrite H3. simpl length. lia.
    + destruct (IH cur total Hlen) as (H1 & H2 & H3).
      split; [done|]. split; [|done].
      intros i. rewrite H2. unfold hit. cbn [existsb]. fold (hit min_voxels lab cs i).
      by rewrite Hsmall, andb_false_r.
Qed.

Lemma hit_all (min_voxels : Z) (lab : list nat) (k i : nat) :
  lbl lab i ≤ k →
  hit min_voxels lab (seq 1 k) i
  = negb (lbl lab i =? 0)
    && (Ndimage.component_size lab (lbl lab i) <? min_voxels)%Z.
Proof.
  intros Hk. unfold hit.
  destruct (Nat.eqb_spec (lbl lab i) 0) as [Hz|Hnz]; simpl.
  - apply not_true_is_false. intros H. apply existsb_exists in H as (c & Hc & H).
    apply in_seq in Hc. apply andb_true_iff in H as [H%Nat.eqb_eq _]. lia.
  - destruct (Ndimage.component_size lab (lbl lab i) <? min_voxels)%Z eqn:E.
    + apply existsb_exists. exists (lbl lab i). split; [apply in_seq; lia|].
      by rewrite Nat.eqb_refl, E.
    + apply not_true_is_false. intros H. apply existsb_exists in H as (c & Hc & H).
      apply andb_true_iff in H as [H%Nat.eqb_eq H']. subst c. congruence.
Qed.

(** Along a path, a closed labelling keeps the component number. *)
Lemma closed_connected (s : Np.shape) (mask : list bool) (p : nat)
    (lab : list nat) (k i j : nat) :
  scan_inv s mask p lab k → lbl lab i ≠ 0 → connected s mask i j →
  lbl lab j = lbl lab i.
Proof.
  intros Hinv Hi Hc. induction Hc as [|i j m Hij IH Hadj Hm]; [done|].
  rewrite <- (IH Hi). apply (si_closed _ _ _ _ _ Hinv); [|done..]. by rewrite IH.
Qed.

(** A path of one mask is a path of any mask that holds all the voxels
    the path can reach. *)
Lemma connected_transfer (s : Np.shape) (mask mask' : list bool) (i j : nat) :
  (∀ m, connected s mask i m → in_mask mask' m) →
  connected s mask i j → connected s mask' i j.
Proof.
  intros Hin Hc. induction Hc as [i Hi|i j m Hij IH Hadj Hm].
  - constructor. apply Hin. by constructor.
  - apply (connected_step s mask' i j m); [by apply IH|done|].
    apply Hin. by apply (connected_step s mask i j m).
Qed.

Lemma component_size_le (lab : list nat) :
  ∀ (lab' : list nat) (c c' : nat),
    length lab = length lab' →
    (∀ j, j < length lab → lbl lab j = c → lbl lab' j = c') →
    (Ndimage.component_size lab c <= Ndimage.component_size lab' c')%Z.
Proof.
  unfold Ndimage.component_size.
  induction lab as [|x lab IH]; intros [|y lab'] c c' Hlen H; simpl in *; try lia.
  assert (Z.of_nat (length (List.filter (fun z => (z =? c)%nat) lab))
          <= Z.of_nat (length (List.filter (fun z => (z =? c')%nat) lab')))%Z as Hrest.
  { apply IH; [lia|]. intros j Hj. apply (H (S j)). lia. }
  destruct (Nat.eqb_spec x c) as [Hx|Hx].
  - specialize (H 0 ltac:(lia) Hx). unfold lbl in H. simpl in H.
    rewrite H, Nat.eqb_refl. simpl. lia.
  - destruct (y =? c'); simpl; lia.
Qed.

(** The voxels that [remove_small_components] sets to 0: those of a
    nonzero label whose component, among the voxels of that label, has
    fewer than [min_voxels] voxels. *)
Definition removed_voxel (s : Np.shape) (min_voxels : Z) (d : list Z) (i : nat) : bool :=
  let l := nth i d 0%Z in
  let lab := (Ndimage.label s (Np.eq_mask d l)).1 in
  negb (l =? 0)%Z && (Ndimage.component_size lab (lbl lab i) <? min_voxels)%Z.

(** One pass of the loop body over the label [l]. *)
Lemma remove_label_value_nth (s : Np.shape) (min_voxels : Z)
    (cur : list Z) (total : Z) (l : Z) :
  length cur = Np.size s →
  let lab := (Ndimage.label s (Np.eq_mask cur l)).1 in
  let k := (Ndimage.label s (Np.eq_mask cur l)).2 in
  let r := remove_label_value s min_voxels (cur, total) l in
  length r.1 = length cur
  ∧ (∀ i, nth i r.1 0%Z
          = if negb (lbl lab i =? 0)
               && (Ndimage.component_size lab (lbl lab i) <? min_voxels)%Z
            then 0%Z else nth i cur 0%Z)
  ∧ r.2 = (total + Z.of_nat (length
             (List.filter (fun c => (Ndimage.component_size lab c <? min_voxels)%Z)
                          (seq 1 k))))%Z.
Proof.
  intros Hlen lab k r.
  assert (Hinv : scan_inv s (Np.eq_mask cur l) (length (Np.eq_mask cur l)) lab k).
  { apply label_inv. by rewrite eq_mask_length. }
  subst r. unfold remove_label_value. cbn [fst].
  subst lab k. destruct (Ndimage.label s (Np.eq_mask cur l)) as [lab k]. cbn [fst snd] in *.
  assert (length lab = length cur) as Hlab.
  { rewrite (si_length _ _ _ _ _ Hinv). apply eq_mask_length. }
  destruct (Nat.ltb_spec 0 k) as [Hk|Hk].
  - destruct (remove_components_value_nth min_voxels lab (seq 1 k) cur total Hlab)
      as (H1 & H2 & H3).
    split; [done|]. split; [|done].
    intros i. rewrite H2, hit_all; [done|]. apply (si_range _ _ _ _ _ Hinv).
  - assert (k = 0) as -> by lia. cbn [fst snd seq List.filter length].
    split; [done|]. split; [|lia].
    intros i. pose proof (si_range _ _ _ _ _ Hinv i) as Hr.
    assert (lbl lab i = 0) as -> by lia. done.
Qed.

(** The loop over the labels, after the labels [pre] and then [ls]. *)
Lemma remove_labels_value_nth (s : Np.shape) (min_voxels : Z) (d : list Z) :
  length d = Np.size s →
  ∀ (ls pre : list Z) (cur : list Z) (total : Z),
    NoDup (pre ++ ls) →
    (∀ l, l ∈ ls → l ≠ 0%Z) →
    length cur = length d →
    (∀ i, nth i cur 0%Z
          = if bool_decide (nth i d 0%Z ∈ pre) && removed_voxel s min_voxels d i
            then 0%Z else nth i d 0%Z) →
    let r := foldl (remove_label_value s min_voxels) (cur, total) ls in
    length r.1 = length d
    ∧ (∀ i, nth i r.1 0%Z
            = if bool_decide (nth i d 0%Z ∈ pre ++ ls) && removed_voxel s min_voxels d i
              then 0%Z else nth i d 0%Z).
Proof.
  intros Hd. induction ls as [|l ls IH]; intros pre cur total Hnd Hnz Hlen Hcur.
  - simpl. rewrite app_nil_r. done.
  - assert (l ≠ 0%Z) as Hl by (apply Hnz, list_elem_of_here).
    assert (l ∉ pre) as Hpre.
    { apply NoDup_app in Hnd as (_ & Hdisj & _). intros Hin.
      apply (Hdisj l Hin), list_elem_of_here. }
    assert (Np.eq_mask cur l = Np.eq_mask d l) as Hmask.
    { apply (nth_ext _ _ false false); [by rewrite !eq_mask_length|].
      intros i _. rewrite !nth_eq_mask by done. rewrite Hcur.
      destruct (Z.eqb_spec (nth i d 0%Z) l) as [E|E].
      - rewrite E, bool_decide_eq_false_2 by done. simpl. by apply Z.eqb_eq.
      - destruct (_ && _); apply Z.eqb_neq; [congruence|done]. }
    cbn [foldl].
    destruct (remove_label_value_nth s min_voxels cur total l ltac:(lia))
      as (H1 & H2 & _).
    rewrite Hmask in H2.
    destruct (remove_label_value s min_voxels (cur, total) l) as [cur1 total1].
    cbn [fst snd] in *.
    replace (pre ++ l :: ls) with ((pre ++ [l]) ++ ls) by (by rewrite <- app_assoc).
    apply IH.
    + by rewrite <- app_assoc.
    + intros l' Hl'. apply Hnz. by apply list_elem_of_further.
    + lia.
    + intros i. rewrite H2, Hcur.
      assert (Hinv : scan_inv s (Np.eq_mask d l) (length (Np.eq_mask d l))
                       (Ndimage.label s (Np.eq_mask d l)).1
                       (Ndimage.label s (Np.eq_mask d l)).2).
      { apply label_inv. by rewrite eq_mask_length. }
      destruct (Z.eqb_spec (nth i d 0%Z) l) as [E|E].
      * assert (lbl (Ndimage.label s (Np.eq_mask d l)).1 i ≠ 0) as Hlab.
        { assert (in_mask (Np.eq_mask d l) i) as Hin.
          { unfold in_mask. rewrite nth_eq_mask by done. by apply Z.eqb_eq. }
          apply (si_done _ _ _ _ _ Hinv); [by apply in_mask_lt|done]. }
        apply Nat.eqb_neq in Hlab. rewrite Hlab. cbn [negb andb].
        rewrite (bool_decide_eq_false_2 (nth i d 0%Z ∈ pre)) by (by rewrite E).
        rewrite (bool_decide_eq_true_2 (nth i d 0%Z ∈ pre ++ [l]))
          by (rewrite E, elem_of_app; right; apply list_elem_of_here).
        cbn [andb]. unfold removed_voxel. rewrite E.
        apply Z.eqb_neq in Hl. rewrite Hl. done.
      * assert (lbl (Ndimage.label s (Np.eq_mask d l)).1 i = 0) as ->.
        { destruct (decide (lbl (Ndimage.label s (Np.eq_mask d l)).1 i = 0)) as [|Hn];
            [done|].
          apply (si_mask _ _ _ _ _ Hinv) in Hn. unfold in_mask in Hn.
          rewrite nth_eq_mask in Hn by done. by apply Z.eqb_eq in Hn. }
        cbn [Nat.eqb negb andb].
        assert (bool_decide (nth i d 0%Z ∈ pre ++ [l])
                = bool_decide (nth i d 0%Z ∈ pre)) as ->; [|done].
        apply bool_decide_ext. rewrite elem_of_app, list_elem_of_singleton. tauto.
Qed.

(** The volume that [remove_small_components] returns, voxel by voxel. *)
Lemma remove_small_components_value_nth (min_voxels : Z) (a : Np.ndarray) :
  Np.wf a →
  let r := (remove_small_components_value min_voxels a).1 in
  Np.arr_shape r = Np.arr_shape a
  ∧ length (Np.arr_data r) = length (Np.arr_data a)
  ∧ (∀ i, nth i (Np.arr_data r) 0%Z
          = if removed_voxel (Np.arr_shape a) min_voxels (Np.arr_data a) i
            then 0%Z else nth i (Np.arr_data a) 0%Z).
Proof.
  intros Hwf r. subst r. unfold remove_small_components_value. cbn [fst Np.arr_shape Np.arr_data].
  destruct (remove_labels_value_nth (Np.arr_shape a) min_voxels (Np.arr_data a) Hwf
              (unique_labels (Np.arr_data a)) [] (Np.arr_data a) 0%Z) as [H1 H2].
  - apply unique_labels_NoDup.
  - intros l Hl. by apply elem_of_unique_labels in Hl as [? _].
  - done.
  - intros i. rewrite bool_decide_eq_false_2; [done|apply not_elem_of_nil].
  - split; [done|]. split; [done|].
    intros i. rewrite H2. cbn [app].
    destruct (removed_voxel _ _ _ i) eqn:E; [|by rewrite andb_false_r].
    rewrite bool_decide_eq_true_2; [done|].
    unfold removed_voxel in E. apply andb_true_iff in E as [E _].
    apply negb_true_iff, Z.eqb_neq in E.
    apply elem_of_unique_labels. split; [done|].
    destruct (Nat.lt_ge_cases i (length (Np.arr_data a))) as [Hi|Hi].
    + apply list_elem_of_In, nth_In. done.
    + by rewrite nth_overflow in E.
Qed.

(** In the output of [remove_small_components], every component of
    every label has at least [min_voxels] voxels. *)
Lemma cleaned_components_large (s : Np.shape) (min_voxels : Z)
    (d d' : list Z) (l : Z) (c : nat) :
  length d = Np.size s →
  length d' = length d →
  (∀ i, nth i d' 0%Z = if removed_voxel s min_voxels d i then 0%Z else nth i d 0%Z) →
  l ≠ 0%Z →
  1 ≤ c ≤ (Ndimage.label s (Np.eq_mask d' l)).2 →
  (min_voxels <= Ndimage.component_size (Ndimage.label s (Np.eq_mask d' l)).1 c)%Z.
Proof.
  intros Hd Hd' Hnth Hl Hc.
  set (mask := Np.eq_mask d l). set (mask' := Np.eq_mask d' l).
  set (lab := (Ndimage.label s mask).1).
  set (lab' := (Ndimage.label s mask').1).
  assert (Hinv : scan_inv s mask (length mask) lab (Ndimage.label s mask).2).
  { apply label_inv. unfold mask. by rewrite eq_mask_length. }
  assert (Hinv' : scan_inv s mask' (length mask') lab' (Ndimage.label s mask').2).
  { apply label_inv. unfold mask'. rewrite eq_mask_length. lia. }
  (* membership in the two masks *)
  assert (Hin : ∀ i, in_mask mask i ↔ nth i d 0%Z = l).
  { intros i. unfold in_mask, mask. rewrite nth_eq_mask by done. apply Z.eqb_eq. }
  assert (Hin' : ∀ i, in_mask mask' i
                      ↔ nth i d 0%Z = l
                        ∧ (min_voxels <= Ndimage.component_size lab (lbl lab i))%Z).
  { intros i. unfold in_mask, mask'. rewrite nth_eq_mask by done.
    rewrite Z.eqb_eq, Hnth. unfold removed_voxel.
    destruct (Z.eqb_spec (nth i d 0%Z) l) as [E|E].
    - rewrite E. fold mask. fold lab.
      apply Z.eqb_neq in Hl as Hl'. rewrite Hl'. cbn [negb andb].
      destruct (Z.ltb_spec (Ndimage.component_size lab (lbl lab i)) min_voxels);
        (split; [intros ?; first [congruence|by split]
                |intros [? ?]; first [lia|done]]).
    - destruct (_ && _);
        (split; [intros ?; congruence|intros [? _]; congruence]). }
  destruct (si_used _ _ _ _ _ Hinv' c Hc) as [i Hi].
  assert (in_mask mask' i) as Hi'.
  { apply (si_mask _ _ _ _ _ Hinv'). fold lab' in Hi. lia. }
  apply Hin' in Hi' as [Hil Hbig].
  assert (lbl lab i ≠ 0) as Hlabi.
  { apply (si_done _ _ _ _ _ Hinv); [|by apply Hin].
    apply in_mask_lt. by apply Hin. }
  etrans; [exact Hbig|].
  apply component_size_le.
  { rewrite (si_length _ _ _ _ _ Hinv), (si_length _ _ _ _ _ Hinv').
    unfold mask, mask'. rewrite !eq_mask_length. lia. }
  intros j _ Hj.
  assert (connected s mask i j) as Hcon.
  { apply (si_sound _ _ _ _ _ Hinv); [done|by symmetry]. }
  assert (connected s mask' i j) as Hcon'.
  { apply (connected_transfer s mask mask'); [|done].
    intros m Hm. apply Hin'.
    pose proof (closed_connected _ _ _ _ _ _ _ Hinv Hlabi Hm) as Hlm.
    split; [|by rewrite Hlm].
    apply Hin. by destruct (connected_in_mask _ _ _ _ Hm). }
  assert (lbl lab' i ≠ 0) as Hlab'i by (fold lab' in Hi; lia).
  rewrite (closed_connected _ _ _ _ _ _ _ Hinv' Hlab'i Hcon'). done.
Qed.

Lemma filter_none {A : Type} (p : A → bool) (l : list A) :
  (∀ x, x ∈ l → p x = false) → List.filter p l = [].
Proof.
  induction l as [|x l IH]; intros H; simpl; [done|].
  rewrite (H x) by apply list_elem_of_here. apply IH.
  intros y Hy. apply H. by apply list_elem_of_further.
Qed.

(** On its own output the loop body changes nothing. *)
Lemma remove_label_value_fixed (s : Np.shape) (min_voxels : Z)
    (d d' : list Z) (total : Z) (l : Z) :
  length d = Np.size s →
  length d' = length d →
  (∀ i, nth i d' 0%Z = if removed_voxel s min_voxels d i then 0%Z else nth i d 0%Z) →
  l ≠ 0%Z →
  remove_label_value s min_voxels (d', total) l = (d', total).
Proof.
  intros Hd Hd' Hnth Hl.
  destruct (remove_label_value_nth s min_voxels d' total l ltac:(lia))
    as (H1 & H2 & H3).
  pose proof (cleaned_components_large s min_voxels d d' l) as Hbig.
  assert (Hinv' : scan_inv s (Np.eq_mask d' l) (length (Np.eq_mask d' l))
                    (Ndimage.label s (Np.eq_mask d' l)).1
                    (Ndimage.label s (Np.eq_mask d' l)).2).
  { apply label_inv. rewrite eq_mask_length. lia. }
  destruct (remove_label_value s min_voxels (d', total) l) as [d2 total2].
  cbn [fst snd] in *. f_equal.
  - apply (nth_ext _ _ 0%Z 0%Z); [done|]. intros i _. rewrite H2.
    destruct (Nat.eqb_spec (lbl (Ndimage.label s (Np.eq_mask d' l)).1 i) 0) as [E|E];
      [done|]. cbn [negb andb].
    pose proof (si_range _ _ _ _ _ Hinv' i) as Hr.
    assert (1 ≤ lbl (Ndimage.label s (Np.eq_mask d' l)).1 i) as Hr1 by lia.
    specialize (Hbig _ Hd Hd' Hnth Hl (conj Hr1 Hr)).
    destruct (Z.ltb_spec
                (Ndimage.component_size (Ndimage.label s (Np.eq_mask d' l)).1
                   (lbl (Ndimage.label s (Np.eq_mask d' l)).1 i)) min_voxels);
      [lia|done].
  - rewrite H3.
    assert (List.filter
              (fun c => (Ndimage.component_size (Ndimage.label s (Np.eq_mask d' l)).1 c
                         <? min_voxels)%Z)
              (seq 1 (Ndimage.label s (Np.eq_mask d' l)).2) = []) as ->; [|simpl; lia].
    apply filter_none. intros c Hc%list_elem_of_In%in_seq.
    specialize (Hbig c Hd Hd' Hnth Hl ltac:(lia)).
    apply Z.ltb_ge. exact Hbig.
Qed.

(** On its own output [remove_small_components] removes nothing. *)
Lemma remove_small_components_value_idempotent (min_voxels : Z) (a : Np.ndarray) :
  Np.wf a →
  let once := remove_small_components_value min_voxels a in
  remove_small_components_value min_voxels once.1 = (once.1, 0%Z).
Proof.
  intros Hwf once.
  destruct (remove_small_components_value_nth min_voxels a Hwf) as (Hs & Hlen & Hnth).
  fold once in Hs, Hlen, Hnth.
  unfold remove_small_components_value at 1. rewrite Hs.
  assert (∀ ls total,
            (∀ l, l ∈ ls → l ≠ 0%Z) →
            foldl (remove_label_value (Np.arr_shape a) min_voxels)
                  (Np.arr_data once.1, total) ls
            = (Np.arr_data once.1, total)) as Hfix.
  { induction ls as [|l ls IH]; intros total Hnz; [done|]. cbn [foldl].
    rewrite (remove_label_value_fixed _ _ (Np.arr_data a) _ total l Hwf Hlen Hnth
               (Hnz l (list_elem_of_here _ _))).
    apply IH. intros l' Hl'. apply Hnz. by apply list_elem_of_further. }
  rewrite Hfix.
  - cbn [fst snd]. rewrite <- Hs. by destruct (once.1).
  - intros l Hl. by apply elem_of_unique_labels in Hl as [? _].
Qed.

End Removal.

(** C5.  [remove_small_components] is idempotent at a fixed threshold:
    run again, with the same threshold, on the volume it has returned,
    it removes no component and returns a volume equal to the one it
    was given. *)
Theorem remove_small_components_idempotent
    (self : SegmentationCleaner) (h : heap) (seg_data : loc) (min_voxels : option Z) :
  (seg_data < length h)%nat →
  Np.wf (h !!! seg_data) →
  let first := remove_small_components self seg_data min_voxels h in
  let second := remove_small_components self first.1.1 min_voxels first.2 in
  second.1.2 = 0
  ∧ second.2 !!! second.1.1 = first.2 !!! first.1.1.
Proof.
  intros Hr Hwf first second. subst second first.
  rewrite (remove_small_components_run self h) by done. cbn zeta. cbn [fst snd].
  rewrite remove_small_components_run by (rewrite length_app; simpl; lia).
  cbn zeta. cbn [fst snd]. rewrite !lookup_total_newest.
  rewrite remove_small_components_value_idempotent by done. done.
Qed.

(** A row with the components [4], [4 4] and [6 6 6], cleaned twice at
    the threshold 2. *)
Lemma remove_small_components_idempotent_witness :
  let self := SegmentationCleaner_init (mk_config None None None None None None) in
  let h := [Np.mk_ndarray (1, 1, 8)%nat [4; 0; 4; 4; 0; 6; 6; 6]] in
  let first := remove_small_components self 0%nat (Some 2) h in
  let second := remove_small_components self first.1.1 (Some 2) first.2 in
  first.1.2 = 1
  ∧ second.1.2 = 0
  ∧ second.2 !!! second.1.1 = first.2 !!! first.1.1.
Proof.
  split; [reflexivity|].
  apply (remove_small_components_idempotent
           (SegmentationCleaner_init (mk_config None None None None None None))
           [Np.mk_ndarray (1, 1, 8)%nat [4; 0; 4; 4; 0; 6; 6; 6]] 0%nat (Some 2)).
  - simpl. lia.
  - reflexivity.
Defined.

(** ** The report *)

Section ReportLines.

Import Report.

Lemma report_lines_split (LABEL_DICT : LabelDict) (now : datetime)
    (validation_results : list ValidationResult)
    (patient_id scan_name : string) (nifti_file_path : Path)
    (validation_config : Config) :
  report_lines LABEL_DICT now validation_results patient_id scan_name
               nifti_file_path validation_config
  = take 5 (report_lines LABEL_DICT now validation_results patient_id scan_name
                         nifti_file_path validation_config)
    ++ ["**Generated:** " +:+ strftime now]
    ++ drop 6 (report_lines LABEL_DICT now validation_results patient_id scan_name
                            nifti_file_path validation_config).
Proof. reflexivity. Qed.

Lemma report_lines_clock (LABEL_DICT : LabelDict) (now1 now2 : datetime)
    (validation_results : list ValidationResult)
    (patient_id scan_name : string) (nifti_file_path : Path)
    (validation_config : Config) :
  take 5 (report_lines LABEL_DICT now1 validation_results patient_id scan_name
                       nifti_file_path validation_config)
  = take 5 (report_lines LABEL_DICT now2 validation_results patient_id scan_name
                         nifti_file_path validation_config)
  ∧ drop 6 (report_lines LABEL_DICT now1 validation_results patient_id scan_name
                         nifti_file_path validation_config)
    = drop 6 (report_lines LABEL_DICT now2 validation_results patient_id scan_name
                           nifti_file_path validation_config).
Proof. split; reflexivity. Qed.

End ReportLines.

(** C2, as amended.  The report is a function of its arguments, of the
    module-level label catalog and of the time that [datetime.now()]
    returns during the call.  Two invocations with the same arguments
    and catalog return reports that agree line by line except for the
    sixth line, [**Generated:**], which shows the time of the
    invocation to the second; when the two times print alike, the two
    reports are identical character for character. *)
Theorem report_equal_up_to_timestamp
    (LABEL_DICT : LabelDict) (now1 now2 : Report.datetime)
    (validation_results : list ValidationResult)
    (patient_id scan_name : string) (nifti_file_path : Report.Path)
    (validation_config : Config) :
  let lines now :=
    Report.report_lines LABEL_DICT now validation_results patient_id scan_name
                        nifti_file_path validation_config in
  let report now :=
    Report.generate_validation_report LABEL_DICT now validation_results
      patient_id scan_name nifti_file_path validation_config in
  (∀ now, report now = Py.join Report.newline (lines now))
  ∧ (∀ now, lines now
            = take 5 (lines now)
              ++ ["**Generated:** " +:+ Report.strftime now]
              ++ drop 6 (lines now))
  ∧ take 5 (lines now1) = take 5 (lines now2)
  ∧ drop 6 (lines now1) = drop 6 (lines now2)
  ∧ (Report.strftime now1 = Report.strftime now2 → report now1 = report now2).
Proof.
  intros lines report. split; [done|]. split; [intros now; apply report_lines_split|].
  destruct (report_lines_clock LABEL_DICT now1 now2 validation_results patient_id
              scan_name nifti_file_path validation_config) as [Ht Hd].
  split; [exact Ht|]. split; [exact Hd|].
  intros Hsame. unfold report, Report.generate_validation_report. f_equal.
  rewrite (report_lines_split LABEL_DICT now1), (report_lines_split LABEL_DICT now2).
  by rewrite Ht, Hd, Hsame.
Qed.

(** C2 as the specification words it fails: the same result, the same
    patient, scan, file and configuration, reported at two moments one
    second apart, give two different reports. *)
Lemma report_depends_on_clock :
  let result :=
    (validate_and_clean (mk_image (1, 1, 6)%nat [] "" [5; 0; 5; 5; 5; 5]) None ∅
                        (mk_config None None None None None None) []).1 in
  let report now :=
    Report.generate_validation_report ∅ now [result] "PA00001" "scan_01"
      ["output"; "PA00001"; "nifti"; "scan_01.nii.gz"]
      (mk_config (Some true) (Some true) (Some 10) (Some 10)
                 (Some (95 # 100)%Q) (Some (1 # 1000)%Q)) in
  String.eqb (report (Report.mk_datetime 2025 3 9 7 5 0))
             (report (Report.mk_datetime 2025 3 9 7 5 1)) = false
  ∧ nth 5 (Report.report_lines ∅ (Report.mk_datetime 2025 3 9 7 5 0) [result]
             "PA00001" "scan_01" ["output"; "PA00001"; "nifti"; "scan_01.nii.gz"]
             (mk_config (Some true) (Some true) (Some 10) (Some 10)
                        (Some (95 # 100)%Q) (Some (1 # 1000)%Q))) ""
    = "**Generated:** 2025-03-09 07:05:00"
  ∧ nth 5 (Report.report_lines ∅ (Report.mk_datetime 2025 3 9 7 5 1) [result]
             "PA00001" "scan_01" ["output"; "PA00001"; "nifti"; "scan_01.nii.gz"]
             (mk_config (Some true) (Some true) (Some 10) (Some 10)
                        (Some (95 # 100)%Q) (Some (1 # 1000)%Q))) ""
    = "**Generated:** 2025-03-09 07:05:01".
Proof. vm_compute. repeat split. Qed.

(** A volume with warnings and small components: the cleanup runs and
    changes it. *)
Lemma cleanup_gate_witness :
  cleaned (validate_and_clean (mk_image (1, 1, 6)%nat [] "" [5; 0; 5; 5; 5; 5]) None ∅
                              (mk_config None None None None None None) []).1
  = true.
Proof.
  pose proof (cleanup_gate (mk_image (1, 1, 6)%nat [] "" [5; 0; 5; 5; 5; 5]) None ∅
                (mk_config None None None None None None) [])
    as (_ & _ & _ & H).
  destruct H as [Hres _].
  - split; [reflexivity|]. left. vm_compute. discriminate.
  - left. vm_compute. discriminate.
  - rewrite Hres. reflexivity.
Defined.

(** * Further properties of the validator, the cleaner and the report *)

(** ** The dimension check *)

Section Dimensions.


End Dimensions.




(** ** The label legality check and negative labels *)

Section NegativeLabels.

Lemma negative_labels_nil (seg_data : list Z) :
  List.filter (fun l => l <? 0) (unique_labels seg_data) = []
  ↔ ∀ x, x ∈ seg_data → 0 <= x.
Proof.
  split.
  - intros H x Hx. destruct (Z.lt_ge_cases x 0) as [Hneg|]; [|done].
    assert (x ∈ List.filter (fun l => l <? 0) (unique_labels seg_data)) as Hin.
    { apply list_elem_of_In, filter_In. split.
      - apply list_elem_of_In, elem_of_unique_labels. split; [lia|done].
      - by apply Z.ltb_lt. }
    rewrite H in Hin. by apply elem_of_nil in Hin.
  - intros H. apply filter_none. intros x Hx%elem_of_unique_labels.
    apply Z.ltb_ge, H. tauto.
Qed.

End NegativeLabels.

(** X3.  The label check fails exactly when the volume holds a negative
    value; it then reports one error.  Unknown labels, which only
    give a warning, never make it fail, and the catalog plays no part
    in the verdict. *)
Theorem validate_labels_valid_iff
    (self : SegmentationValidator) (seg_data : Np.ndarray) (label_dict : LabelDict) :
  let check := validate_labels self seg_data label_dict in
  (check.1.1 = true ↔ ∀ x, x ∈ Np.arr_data seg_data → 0 <= x)
  ∧ (check.1.1 = true ↔ check.2 = [])
  ∧ (length check.2 ≤ 1)%nat.
Proof.
  intros check. subst check. unfold validate_labels. cbn [fst snd].
  rewrite <- negative_labels_nil.
  destruct (List.filter (fun l => l <? 0) (unique_labels (Np.arr_data seg_data)))
    as [|n ns]; cbn; repeat split; try done; lia.
Qed.

(** ** The voxel-count check: what it never does *)

Section VoxelCountsMore.

(** A warning is an under-segmentation warning of [self] when it is
    that message at some ratio. *)
Definition is_under_segmentation_warning (self : SegmentationValidator) (w : string) : Prop :=
  ∃ ratio, w = under_segmentation_warning self ratio.

Lemma over_is_not_under (self : SegmentationValidator) (ratio : Q) :
  ¬ is_under_segmentation_warning self (over_segmentation_warning self ratio).
Proof.
  intros [r H]. unfold under_segmentation_warning, over_segmentation_warning in H.
  destruct (fmt_pct_head 1 ratio) as (c & s & Hr & Hc). rewrite Hr in H.
  simpl in H. injection H as Hhead _. subst c.
  unfold numeric_head in Hc. clear -Hc.
  repeat (apply elem_of_cons in Hc as [Hc|Hc]; [discriminate|]).
  by apply elem_of_nil in Hc.
Qed.

Lemma small_labels_is_not_under (self : SegmentationValidator) (small : list string) :
  ¬ is_under_segmentation_warning self (small_labels_warning self small).
Proof.
  intros [r H]. unfold small_labels_warning, under_segmentation_warning in H.
  simpl in H. discriminate.
Qed.

Lemma small_labels_none (self : SegmentationValidator)
    (seg_data : list Z) (label_dict : LabelDict) :
  min_voxels_per_label self <= 1 → small_labels self seg_data label_dict = [].
Proof.
  intros Hmin. unfold small_labels.
  assert (∀ ls, (∀ l, l ∈ ls → l ∈ seg_data) →
            omap (fun label_id =>
                    let voxel_count := Np.count_true (Np.eq_mask seg_data label_id) in
                    if voxel_count <? min_voxels_per_label self
                    then Some (label_name_or label_dict label_id
                                 ("Label " +:+ Py.str_int label_id)
                               +:+ " (ID: " +:+ Py.str_int label_id +:+ "): "
                               +:+ Py.str_int voxel_count +:+ " voxels")
                    else None) ls = []) as H.
  { induction ls as [|l ls IH]; intros Hin; [done|].
    cbn [omap list_omap].
    pose proof (count_true_eq_mask_pos seg_data l (Hin l (list_elem_of_here _ _))).
    cbn zeta.
    destruct (Z.ltb_spec (Np.count_true (Np.eq_mask seg_data l))
                         (min_voxels_per_label self)); [lia|].
    apply IH. intros l' Hl'. apply Hin. by apply list_elem_of_further. }
  apply H. intros l Hl. by apply elem_of_unique_labels in Hl as [_ ?].
Qed.

End VoxelCountsMore.

(** X4.  The voxel-count check never fails and never reports an error; it
    gives at most two warnings.  It gives an under-segmentation warning
    exactly when the ratio is below [min_segmentation_ratio] and not
    above [max_segmentation_ratio]; the over- and the
    under-segmentation warning never come together. *)
Theorem validate_voxel_counts_warnings
    (self : SegmentationValidator) (seg_data : Np.ndarray)
    (label_dict : LabelDict) (total_voxels : Z) :
  let check := validate_voxel_counts self seg_data label_dict total_voxels in
  let ratio := ratio_of (Np.count_nonzero (Np.arr_data seg_data)) total_voxels in
  let over := ∃ w, w ∈ check.1.2 ∧ is_over_segmentation_warning self w in
  let under := ∃ w, w ∈ check.1.2 ∧ is_under_segmentation_warning self w in
  check.1.1 = true
  ∧ check.2 = []
  ∧ (length check.1.2 ≤ 2)%nat
  ∧ (under ↔ ¬ (max_segmentation_ratio self < ratio)%Q
             ∧ (ratio < min_segmentation_ratio self)%Q)
  ∧ ¬ (over ∧ under).
Proof.
  intros check ratio over under.
  assert (Hw : check.1.2
               = ratio_warnings self ratio
                 ++ match small_labels self (Np.arr_data seg_data) label_dict with
                    | [] => []
                    | _ => [small_labels_warning self
                              (small_labels self (Np.arr_data seg_data) label_dict)]
                    end) by done.
  assert (Hunder : under ↔ ¬ (max_segmentation_ratio self < ratio)%Q
                           ∧ (ratio < min_segmentation_ratio self)%Q).
  { unfold under. rewrite Hw. rewrite <- !Qltb_lt. unfold ratio_warnings.
    destruct (Qltb (max_segmentation_ratio self) ratio) eqn:Emax;
      destruct (Qltb ratio (min_segmentation_ratio self)) eqn:Emin.
    all: split;
      [intros (w & Hin & Hu); apply elem_of_app in Hin as [Hin|Hin]
      |intros [H1 H2]; try done].
    all: try (apply list_elem_of_singleton in Hin as ->).
    all: try (by apply over_is_not_under in Hu).
    all: try (by apply elem_of_nil in Hin).
    all: try (destruct (small_labels self (Np.arr_data seg_data) label_dict);
              [by apply elem_of_nil in Hin
              |apply list_elem_of_singleton in Hin as ->;
               by apply small_labels_is_not_under in Hu]).
    - split; [by intros ?|done].
    - eexists. split; [apply elem_of_app; left; apply list_elem_of_here|by eexists]. }
  assert (Hover : over ↔ (max_segmentation_ratio self < ratio)%Q).
  { unfold over. rewrite Hw, <- ratio_warnings_over.
    split; intros (w & Hin & Ho); exists w; (split; [|done]).
    - apply elem_of_app in Hin as [Hin|Hin]; [done|].
      destruct (small_labels self (Np.arr_data seg_data) label_dict);
        [by apply elem_of_nil in Hin|].
      apply list_elem_of_singleton in Hin as ->.
      by apply small_labels_is_not_over in Ho.
    - apply elem_of_app. by left. }
  split; [done|]. split; [done|]. split.
  - rewrite Hw, length_app. unfold ratio_warnings.
    destruct (Qltb _ _); [|destruct (Qltb _ _)];
      destruct (small_labels _ _ _); simpl; lia.
  - split; [exact Hunder|]. rewrite Hunder, Hover. tauto.
Qed.

(** X5.  With [min_voxels_per_label] at 1 or less no label is too small:
    every label of the volume has a voxel, so the check warns about the
    ratio only. *)
Theorem no_small_label_at_threshold_one
    (self : SegmentationValidator) (seg_data : Np.ndarray)
    (label_dict : LabelDict) (total_voxels : Z) :
  min_voxels_per_label self <= 1 →
  (validate_voxel_counts self seg_data label_dict total_voxels).1.2
  = ratio_warnings self
      (ratio_of (Np.count_nonzero (Np.arr_data seg_data)) total_voxels).
Proof.
  intros Hmin. unfold validate_voxel_counts. cbn [fst snd].
  rewrite small_labels_none by done. by rewrite app_nil_r.
Qed.

(** Four lonely voxels of four labels, at the threshold 1. *)
Lemma no_small_label_at_threshold_one_witness :
  (validate_voxel_counts
     (SegmentationValidator_init (mk_config None None (Some 1) None None None))
     (Np.mk_ndarray (1, 2, 2)%nat [3; 5; 7; 9]) ∅ 4).1.2
  = [ "Segmentation covers 100.0% of volume (exceeds 95.0% threshold) - possible over-segmentation" ].
Proof.
  rewrite (no_small_label_at_threshold_one
             (SegmentationValidator_init (mk_config None None (Some 1) None None None))
             (Np.mk_ndarray (1, 2, 2)%nat [3; 5; 7; 9]) ∅ 4); [reflexivity|].
  simpl. lia.
Defined.

(** ** Components have voxels *)

Section ComponentSizes.

(** Every component that [ndimage.label] numbers has a voxel. *)
Lemma component_size_pos (s : Np.shape) (mask : list bool) (c : nat) :
  length mask = Np.size s →
  (1 ≤ c ≤ (Ndimage.label s mask).2)%nat →
  1 <= Ndimage.component_size (Ndimage.label s mask).1 c.
Proof.
  intros Hlen Hc.
  destruct (si_used _ _ _ _ _ (label_inv s mask Hlen) c Hc) as [i Hi].
  unfold Ndimage.component_size.
  set (lab := (Ndimage.label s mask).1) in *.
  assert (c ∈ List.filter (fun x => (x =? c)%nat) lab) as Hin.
  { apply list_elem_of_In, filter_In. split; [|apply Nat.eqb_refl].
    rewrite <- Hi. apply nth_In.
    destruct (Nat.lt_ge_cases i (length lab)) as [|Hge]; [done|].
    unfold lbl in Hi. rewrite nth_overflow in Hi by done. lia. }
  destruct (List.filter _ lab); [by apply elem_of_nil in Hin|simpl; lia].
Qed.

Lemma small_component_ids_none (self : SegmentationValidator)
    (seg_data : Np.ndarray) (label_id : Z) :
  Np.wf seg_data →
  min_voxels_per_component self <= 1 →
  small_component_ids self seg_data label_id = [].
Proof.
  intros Hwf Hmin. unfold small_component_ids.
  pose proof (component_size_pos (Np.arr_shape seg_data)
                (Np.eq_mask (Np.arr_data seg_data) label_id)) as Hpos.
  destruct (Ndimage.label _ _) as [lab k]. cbn [fst snd] in Hpos.
  apply filter_none. intros c Hc%list_elem_of_In%in_seq.
  apply Z.ltb_ge. specialize (Hpos c). rewrite eq_mask_length in Hpos.
  specialize (Hpos Hwf ltac:(lia)). lia.
Qed.

End ComponentSizes.

(** X6.  With [min_voxels_per_component] at 1 or less the spatial check
    finds nothing: no component is smaller than one voxel. *)
Theorem no_small_component_at_threshold_one
    (self : SegmentationValidator) (seg_data : Np.ndarray) :
  Np.wf seg_data →
  min_voxels_per_component self <= 1 →
  total_small_components self seg_data = 0
  ∧ validate_spatial_consistency self seg_data = (true, [], []).
Proof.
  intros Hwf Hmin.
  assert (total_small_components self seg_data = 0) as Ht.
  { unfold total_small_components. rewrite foldl_add_sum, Z.add_0_l.
    induction (unique_labels (Np.arr_data seg_data)) as [|l ls IH]; [done|].
    cbn [map foldr]. rewrite IH, small_components_of_count,
      small_component_ids_none by done.
    by destruct (1 <? _)%nat. }
  split; [done|]. unfold validate_spatial_consistency. by rewrite Ht.
Qed.

(** A checkerboard of isolated voxels, at the threshold 1. *)
Lemma no_small_component_at_threshold_one_witness :
  validate_spatial_consistency
    (SegmentationValidator_init (mk_config None None None (Some 1) None None))
    (Np.mk_ndarray (1, 2, 4)%nat [3; 0; 3; 0; 0; 3; 0; 3])
  = (true, [], []).
Proof.
  apply (no_small_component_at_threshold_one
           (SegmentationValidator_init (mk_config None None None (Some 1) None None))
           (Np.mk_ndarray (1, 2, 4)%nat [3; 0; 3; 0; 0; 3; 0; 3])).
  - reflexivity.
  - simpl. lia.
Defined.

(** ** The statistical check *)

Section StatisticsMore.

Lemma unique_nil (l : list Z) : Np.unique l = [] → l = [].
Proof.
  intros H. destruct l as [|x l]; [done|].
  assert (x ∈ Np.unique (x :: l)) as Hin by (apply elem_of_unique, list_elem_of_here).
  rewrite H in Hin. by apply elem_of_nil in Hin.
Qed.

(** The sum of the voxel counts of the labels in [ls]. *)
Definition counts_sum (seg_data : list Z) (ls : list Z) : Z :=
  foldr Z.add 0 (map (fun l => Np.count_true (Np.eq_mask seg_data l)) ls).

Lemma count_true_eq_mask_cons (x : Z) (seg_data : list Z) (l : Z) :
  Np.count_true (Np.eq_mask (x :: seg_data) l)
  = Np.count_true (Np.eq_mask seg_data l) + (if x =? l then 1 else 0).
Proof.
  unfold Np.count_true, Np.eq_mask. cbn [map List.filter].
  destruct (x =? l); unfold id at 1; cbn [length]; lia.
Qed.

Lemma counts_sum_cons (x : Z) (seg_data ls : list Z) :
  NoDup ls →
  counts_sum (x :: seg_data) ls
  = counts_sum seg_data ls + (if bool_decide (x ∈ ls) then 1 else 0).
Proof.
  induction ls as [|l ls IH]; intros Hnd; [done|].
  apply NoDup_cons in Hnd as [Hl Hnd].
  change (counts_sum (x :: seg_data) (l :: ls))
    with (Np.count_true (Np.eq_mask (x :: seg_data) l) + counts_sum (x :: seg_data) ls).
  change (counts_sum seg_data (l :: ls))
    with (Np.count_true (Np.eq_mask seg_data l) + counts_sum seg_data ls).
  rewrite (IH Hnd), count_true_eq_mask_cons.
  destruct (Z.eqb_spec x l) as [->|Hne].
  - rewrite (bool_decide_eq_true_2 (l ∈ l :: ls)) by apply list_elem_of_here.
    rewrite (bool_decide_eq_false_2 (l ∈ ls)) by done. lia.
  - assert (bool_decide (x ∈ l :: ls) = bool_decide (x ∈ ls)) as ->.
    { apply bool_decide_ext. rewrite elem_of_cons. split; [intros [?|?]; done|auto]. }
    lia.
Qed.

(** The labels share the segmented voxels among them. *)
Lemma counts_sum_unique_labels (seg_data : list Z) :
  counts_sum seg_data (unique_labels seg_data) = Np.count_nonzero seg_data.
Proof.
  assert (∀ d ls, NoDup ls → (∀ x, x ∈ ls → x ≠ 0) →
                  (∀ x, x ∈ d → x ≠ 0 → x ∈ ls) →
                  counts_sum d ls = Np.count_nonzero d) as H.
  { induction d as [|x d IH]; intros ls Hnd Hnz Hall.
    - clear. induction ls as [|l ls IH]; [done|].
      change (counts_sum [] (l :: ls))
        with (Np.count_true (Np.eq_mask [] l) + counts_sum [] ls).
      rewrite IH. reflexivity.
    - rewrite counts_sum_cons by done. rewrite IH; try done.
      + unfold Np.count_nonzero. cbn [List.filter].
        destruct (Z.eqb_spec x 0) as [->|Hx]; cbn [negb].
        * rewrite bool_decide_eq_false_2; [lia|]. intros H0. by apply Hnz in H0.
        * rewrite bool_decide_eq_true_2; [cbn [length]; lia|].
          apply Hall; [apply list_elem_of_here|done].
      + intros y Hy. apply Hall. by apply list_elem_of_further. }
  apply H.
  - apply unique_labels_NoDup.
  - intros x Hx. by apply elem_of_unique_labels in Hx as [? _].
  - intros x Hx Hx0. by apply elem_of_unique_labels.
Qed.

(** The label that [max] picks by count has the largest count, and a
    larger one than every label that comes before it. *)
Lemma max_key_spec (first : Z * Z) (rest : list (Z * Z)) :
  let best := foldl (fun best item => if snd best <? snd item then item else best)
                    first rest in
  best ∈ first :: rest
  ∧ (∀ item, item ∈ first :: rest → snd item <= snd best)
  ∧ snd best = foldl Z.max (snd first) (map snd rest).
Proof.
  revert first. induction rest as [|item rest IH]; intros first.
  - simpl. split; [apply list_elem_of_here|]. split; [|done].
    intros item Hin. apply list_elem_of_singleton in Hin as ->. lia.
  - cbn [foldl map].
    destruct (IH (if snd first <? snd item then item else first)) as (H1 & H2 & H3).
    cbn zeta in *. split; [|split].
    + apply elem_of_cons in H1 as [H1|H1].
      * rewrite H1. destruct (_ <? _); [apply list_elem_of_further|];
          apply list_elem_of_here.
      * by do 2 apply list_elem_of_further.
    + intros it Hin.
      assert (snd (if snd first <? snd item then item else first)
              <= snd (foldl (fun best item0 => if snd best <? snd item0 then item0 else best)
                            (if snd first <? snd item then item else first) rest)) as Hb.
      { apply H2, list_elem_of_here. }
      apply elem_of_cons in Hin as [->|Hin].
      * destruct (Z.ltb_spec (snd first) (snd item)); simpl in *; lia.
      * apply elem_of_cons in Hin as [->|Hin].
        -- destruct (Z.ltb_spec (snd first) (snd item)); simpl in *; lia.
        -- apply H2. by apply list_elem_of_further.
    + rewrite H3. f_equal.
      destruct (Z.ltb_spec (snd first) (snd item)); simpl; lia.
Qed.

Lemma ratio_of_above_nine_tenths (a b : Z) :
  Qltb (9 # 10) (ratio_of a b) = true → 9 * b < 10 * a.
Proof.
  unfold ratio_of. destruct (Z.ltb_spec 0 b) as [Hb|Hb]; [|by vm_compute].
  intros H%Qltb_lt. destruct b as [|p|p]; try lia.
  unfold Qlt, Qdiv, Qmult, Qinv in H. cbn [Qnum Qden inject_Z] in H. lia.
Qed.

End StatisticsMore.

(** X7.  The statistical check fails exactly when the volume has voxels and
    all of them are background; it then reports the one error and no
    warning.  A volume without any voxel passes. *)
Theorem validate_statistics_fails_iff
    (self : SegmentationValidator) (seg_data : Np.ndarray)
    (input_data : option Np.ndarray) :
  let check := validate_statistics self seg_data input_data in
  let empty :=
    Np.arr_data seg_data ≠ [] ∧ ∀ x, x ∈ Np.arr_data seg_data → x = 0 in
  (check.1.1 = false ↔ empty)
  ∧ (empty → check = (false, [], [empty_segmentation_error]))
  ∧ (¬ empty → check.2 = [] ∧ (length check.1.2 ≤ 1)%nat).
Proof.
  intros check empty.
  assert (Hdec : empty ∨ (check.1.1 = true ∧ check.2 = [] ∧ (length check.1.2 ≤ 1)%nat)).
  { subst check empty. unfold validate_statistics.
    destruct (Np.unique (Np.arr_data seg_data)) as [|x [|y rest]] eqn:Eu.
    - right. apply unique_nil in Eu. rewrite Eu. vm_compute.
      split; [done|]. split; [done|]. repeat constructor.
    - cbn [length Nat.eqb nth andb]. destruct (Z.eqb_spec x 0) as [->|Hx].
      + left. split.
        * intros E. rewrite E in Eu. discriminate.
        * intros z Hz. apply elem_of_unique in Hz. rewrite Eu in Hz.
          by apply list_elem_of_singleton in Hz.
      + right. cbn [fst snd]. split; [done|]. split; [done|].
        destruct (label_counts _); [simpl; lia|]. destruct (Qltb _ _); simpl; lia.
    - right. cbn [length Nat.eqb andb fst snd]. split; [done|]. split; [done|].
      destruct (label_counts _); [simpl; lia|]. destruct (Qltb _ _); simpl; lia. }
  assert (Hempty : empty → check = (false, [], [empty_segmentation_error])).
  { intros [Hne Hall]. by apply validate_statistics_empty. }
  split; [|split].
  - split.
    + intros Hf. destruct Hdec as [?|[Ht _]]; [done|congruence].
    + intros He. by rewrite (Hempty He).
  - exact Hempty.
  - intros Hn. destruct Hdec as [?|(_ & ? & ?)]; [done|by split].
Qed.

(** X8.  When the statistical check warns, the warning names a label of the
    volume that has the most voxels of all labels, and this label holds
    more than nine tenths of the segmented voxels; the share shown is
    its count over the number of nonzero voxels. *)
Theorem dominance_warning_names_largest
    (self : SegmentationValidator) (seg_data : Np.ndarray)
    (input_data : option Np.ndarray) (w : string) :
  w ∈ (validate_statistics self seg_data input_data).1.2 →
  let count l := Np.count_true (Np.eq_mask (Np.arr_data seg_data) l) in
  let segmented := Np.count_nonzero (Np.arr_data seg_data) in
  ∃ l, l ∈ unique_labels (Np.arr_data seg_data)
       ∧ (∀ l', l' ∈ unique_labels (Np.arr_data seg_data) → count l' <= count l)
       ∧ 9 * segmented < 10 * count l
       ∧ w = dominance_warning l (ratio_of (count l) segmented).
Proof.
  intros Hw count segmented. unfold validate_statistics in Hw.
  destruct ((length (Np.unique (Np.arr_data seg_data)) =? 1)%nat
            && (nth 0 (Np.unique (Np.arr_data seg_data)) 1 =? 0));
    [by apply elem_of_nil in Hw|].
  cbn [fst snd] in Hw. rewrite label_counts_unique_labels in Hw.
  pose proof (counts_sum_unique_labels (Np.arr_data seg_data)) as Hsum.
  unfold counts_sum in Hsum. fold segmented in Hsum.
  destruct (unique_labels (Np.arr_data seg_data)) as [|l0 ls] eqn:El;
    [by apply elem_of_nil in Hw|].
  set (items := map (fun l => (l, count l)) (l0 :: ls)) in *.
  assert (map snd items = map count (l0 :: ls)) as Hsnd.
  { unfold items. rewrite map_map. done. }
  change (map (fun l => (l, Np.count_true (Np.eq_mask (Np.arr_data seg_data) l))) (l0 :: ls))
    with items in Hw.
  assert (Hitems : items = (l0, count l0) :: map (fun l => (l, count l)) ls) by done.
  rewrite Hitems in Hw. cbn [max_value max_key] in Hw.
  rewrite <- Hitems in Hw. rewrite Hsnd in Hw. fold count in Hsum. rewrite Hsum in Hw.
  destruct (max_key_spec (l0, count l0) (map (fun l => (l, count l)) ls))
    as (Hin & Hmax & Hval).
  cbn zeta in Hin, Hmax, Hval. cbn [snd] in Hval.
  set (best := foldl (fun best item => if snd best <? snd item then item else best)
                     (l0, count l0) (map (fun l => (l, count l)) ls)) in *.
  rewrite <- Hval in Hw.
  destruct (Qltb (9 # 10) (ratio_of (snd best) segmented)) eqn:Eq;
    [|by apply elem_of_nil in Hw].
  apply list_elem_of_singleton in Hw.
  assert (snd best = count (fst best) ∧ fst best ∈ l0 :: ls) as [Hb Hbl].
  { rewrite <- Hitems in Hin. unfold items in Hin.
    apply list_elem_of_In, in_map_iff in Hin as (l & Hl & Hlin).
    rewrite <- Hl. cbn [fst snd]. split; [done|by apply list_elem_of_In]. }
  exists (fst best). split; [done|]. split; [|split].
  - intros l' Hl'. rewrite <- Hb.
    apply (Hmax (l', count l')). rewrite <- Hitems. unfold items.
    apply list_elem_of_In, in_map_iff. exists l'. split; [done|by apply list_elem_of_In].
  - rewrite <- Hb. by apply ratio_of_above_nine_tenths.
  - rewrite Hw. by rewrite Hb.
Qed.

(** Label 2 holds 19 of 20 segmented voxels. *)
Lemma dominance_warning_names_largest_witness :
  ∃ l, l ∈ unique_labels (replicate 19 2 ++ [7; 0; 0; 0; 0])
       ∧ "Single label (ID: 2) dominates segmentation (95.0% of segmented voxels)"
         = dominance_warning l
             (ratio_of (Np.count_true (Np.eq_mask (replicate 19 2 ++ [7; 0; 0; 0; 0]) l))
                       (Np.count_nonzero (replicate 19 2 ++ [7; 0; 0; 0; 0]))).
Proof.
  destruct (dominance_warning_names_largest
              (SegmentationValidator_init (mk_config None None None None None None))
              (Np.mk_ndarray (2, 3, 4)%nat (replicate 19 2 ++ [7; 0; 0; 0; 0])) None
              "Single label (ID: 2) dominates segmentation (95.0% of segmented voxels)"
              ltac:(vm_compute; apply list_elem_of_here))
    as (l & Hl & _ & _ & Hw).
  exists l. split; [exact Hl|exact Hw].
Defined.

(** ** What [remove_small_components] does to a volume *)

Section RemovalMore.

Local Open Scope nat_scope.

(** The state of the loop over the labels, against the volume [d] it
    started from: voxels are only ever set to 0, and the count is 0
    exactly as long as nothing was set to 0. *)
Record removal_inv (d : list Z) (st : list Z * Z) : Prop := {
  ri_length : length st.1 = length d;
  ri_voxel : ∀ i, nth i st.1 0%Z = nth i d 0%Z ∨ nth i st.1 0%Z = 0%Z;
  ri_count : (st.2 = 0 ∧ st.1 = d)%Z
             ∨ ((0 < st.2)%Z ∧ ∃ i, nth i d 0%Z ≠ 0%Z ∧ nth i st.1 0%Z = 0%Z)
}.

Lemma remove_label_value_inv (s : Np.shape) (min_voxels : Z) (d : list Z)
    (st : list Z * Z) (l : Z) :
  length d = Np.size s → l ≠ 0%Z →
  removal_inv d st → removal_inv d (remove_label_value s min_voxels st l).
Proof.
  intros Hd Hl [Hlen Hvox Hcount]. destruct st as [cur total]. cbn [fst snd] in *.
  destruct (remove_label_value_nth s min_voxels cur total l ltac:(lia))
    as (H1 & H2 & H3).
  assert (Hinv : scan_inv s (Np.eq_mask cur l) (length (Np.eq_mask cur l))
                   (Ndimage.label s (Np.eq_mask cur l)).1
                   (Ndimage.label s (Np.eq_mask cur l)).2).
  { apply label_inv. rewrite eq_mask_length. lia. }
  set (lab := (Ndimage.label s (Np.eq_mask cur l)).1) in *.
  set (k := (Ndimage.label s (Np.eq_mask cur l)).2) in *.
  set (small := List.filter (fun c => (Ndimage.component_size lab c <? min_voxels)%Z)
                            (seq 1 k)) in *.
  destruct (remove_label_value s min_voxels (cur, total) l) as [new total'].
  cbn [fst snd] in *.
  assert (Hnew : ∀ i, nth i new 0%Z = nth i cur 0%Z ∨ nth i new 0%Z = 0%Z).
  { intros i. rewrite H2. destruct (_ && _); auto. }
  split; cbn [fst snd].
  - lia.
  - intros i. destruct (Hnew i) as [E|E]; [rewrite E; apply Hvox|by right].
  - destruct small as [|c cs] eqn:Es.
    + (* no small component: nothing changes *)
      assert (new = cur) as ->.
      { apply (nth_ext _ _ 0%Z 0%Z); [done|]. intros i _. rewrite H2.
        destruct (Nat.eqb_spec (lbl lab i) 0) as [|Hnz]; [done|]. cbn [negb andb].
        destruct (Ndimage.component_size lab (lbl lab i) <? min_voxels)%Z eqn:E; [|done].
        exfalso. assert (In (lbl lab i) small) as Hin.
        { apply filter_In. split; [|done]. apply in_seq.
          pose proof (si_range _ _ _ _ _ Hinv i) as Hr. lia. }
        by rewrite Es in Hin. }
      rewrite H3. simpl. rewrite Z.add_0_r. done.
    + (* a small component goes: one of its voxels is now 0 *)
      right. split; [rewrite H3; simpl length; destruct Hcount as [[-> _]|[? _]]; lia|].
      assert (c ∈ small) as Hc by (rewrite Es; apply list_elem_of_here).
      apply list_elem_of_In, filter_In in Hc as [Hck%in_seq Hcs].
      destruct (si_used _ _ _ _ _ Hinv c ltac:(lia)) as [i Hi]. fold lab in Hi.
      exists i.
      assert (nth i cur 0%Z = l) as Hcur.
      { assert (in_mask (Np.eq_mask cur l) i) as Hm.
        { apply (si_mask _ _ _ _ _ Hinv). fold lab. lia. }
        unfold in_mask in Hm. rewrite nth_eq_mask in Hm by done. by apply Z.eqb_eq. }
      split.
      * destruct (Hvox i) as [E|E]; congruence.
      * rewrite H2, Hi, Hcs.
        destruct (Nat.eqb_spec c 0); [lia|done].
Qed.

Lemma remove_labels_value_inv (s : Np.shape) (min_voxels : Z) (d : list Z)
    (ls : list Z) :
  length d = Np.size s →
  ∀ st, (∀ l, l ∈ ls → l ≠ 0%Z) →
        removal_inv d st →
        removal_inv d (foldl (remove_label_value s min_voxels) st ls).
Proof.
  intros Hd. induction ls as [|l ls IH]; intros st Hnz Hinv; [done|].
  simpl. apply IH.
  - intros l' Hl'. apply Hnz. by apply list_elem_of_further.
  - apply remove_label_value_inv; [done| |done]. apply Hnz, list_elem_of_here.
Qed.

(** The count that [remove_small_components] returns is 0 exactly when
    the voxels it returns are those it was given. *)
Lemma remove_small_components_value_unchanged_iff (min_voxels : Z) (a : Np.ndarray) :
  Np.wf a →
  let r := remove_small_components_value min_voxels a in
  (r.2 = 0%Z ↔ r.1 = a) ∧ (0 <= r.2)%Z.
Proof.
  intros Hwf r. subst r. unfold remove_small_components_value. cbn [fst snd].
  destruct (remove_labels_value_inv (Np.arr_shape a) min_voxels (Np.arr_data a)
              (unique_labels (Np.arr_data a)) Hwf (Np.arr_data a, 0%Z))
    as [Hlen Hvox Hcount].
  - intros l Hl. by apply elem_of_unique_labels in Hl as [? _].
  - split; cbn [fst snd]; [done|by left|by left].
  - destruct a as [sh d]. cbn [Np.arr_shape Np.arr_data] in *.
    destruct Hcount as [[H0 Heq]|[Hpos (i & Hd & Hi)]].
    + rewrite H0, Heq. split; [done|lia].
    + split; [|lia]. split; [lia|]. intros E. injection E as E. rewrite E in Hi. done.
Qed.

(** The size of a component of a labelling is the number of voxels
    that share its number. *)
Lemma component_size_positions (lab : list nat) (c : nat) :
  Ndimage.component_size lab c
  = Z.of_nat (length (List.filter (fun j => lbl lab j =? c) (seq 0 (length lab)))).
Proof.
  unfold Ndimage.component_size. apply (f_equal Z.of_nat).
  induction lab as [|x lab IH] using rev_ind; [done|].
  rewrite length_app. simpl length. rewrite Nat.add_1_r, seq_S, !List.filter_app, !length_app.
  simpl. f_equal.
  - rewrite IH. apply (f_equal (@length nat)). apply List.filter_ext_in. intros j Hj%in_seq.
    unfold lbl. rewrite app_nth1 by lia. done.
  - unfold lbl. rewrite app_nth2, Nat.sub_diag by lia. simpl. by destruct (x =? c)%nat.
Qed.

(** The size of the component of a voxel of the mask is the number of
    voxels that a path of the mask joins to it. *)
Lemma component_size_connected (s : Np.shape) (mask : list bool) (i : nat)
    (comp : list nat) :
  length mask = Np.size s →
  in_mask mask i →
  NoDup comp →
  (∀ j, j ∈ comp ↔ connected s mask i j) →
  let lab := (Ndimage.label s mask).1 in
  Ndimage.component_size lab (lbl lab i) = Z.of_nat (length comp).
Proof.
  intros Hsize Hi Hnd Hcomp lab.
  assert (Hinv : scan_inv s mask (length mask) lab (Ndimage.label s mask).2)
    by (by apply label_inv).
  assert (lbl lab i ≠ 0) as Hnz.
  { apply (si_done _ _ _ _ _ Hinv); [by apply in_mask_lt|done]. }
  rewrite component_size_positions. apply (f_equal Z.of_nat).
  apply Permutation_length, NoDup_Permutation.
  - apply NoDup_ListNoDup, List.NoDup_filter, List.seq_NoDup.
  - done.
  - intros j. rewrite Hcomp. rewrite list_elem_of_In, filter_In, in_seq, Nat.eqb_eq.
    split.
    + intros [_ Hj]. apply (si_sound _ _ _ _ _ Hinv); [done|by rewrite Hj].
    + intros Hc. split.
      * rewrite (si_length _ _ _ _ _ Hinv). split; [lia|]. simpl.
        apply in_mask_lt. by destruct (connected_in_mask _ _ _ _ Hc).
      * by apply (closed_connected s mask (length mask) lab _ i j Hinv).
Qed.

End RemovalMore.

(** X9.  [remove_small_components] sets to 0 exactly the voxels of the
    small components: a voxel of the returned volume is 0 when its
    label in the given volume is not 0 and fewer than [min_voxels]
    voxels of that label are joined to it by a path of face-adjacent
    voxels of the label, and it has the value it had otherwise.  The
    returned volume has the shape of the given one. *)
Theorem remove_small_components_zeroes_small_components
    (self : SegmentationCleaner) (h : heap) (seg_data : loc) (min_voxels : option Z)
    (i : nat) (comp : list nat) :
  (seg_data < length h)%nat →
  Np.wf (h !!! seg_data) →
  let given := h !!! seg_data in
  let r := remove_small_components self seg_data min_voxels h in
  let returned := r.2 !!! r.1.1 in
  let threshold := default (cleaner_min_voxels_per_component self) min_voxels in
  let l := nth i (Np.arr_data given) 0 in
  NoDup comp →
  (∀ j, j ∈ comp ↔ connected (Np.arr_shape given) (Np.eq_mask (Np.arr_data given) l) i j) →
  Np.arr_shape returned = Np.arr_shape given
  ∧ Np.wf returned
  ∧ nth i (Np.arr_data returned) 0
    = if negb (l =? 0) && (Z.of_nat (length comp) <? threshold) then 0 else l.
Proof.
  intros Hr Hwf given r returned threshold l Hnd Hcomp. subst returned r.
  rewrite remove_small_components_run by done. cbn zeta. cbn [fst snd].
  rewrite lookup_total_newest. fold given threshold.
  destruct (remove_small_components_value_nth threshold given Hwf) as (H1 & H2 & H3).
  split; [done|]. split; [unfold Np.wf in *; by rewrite H1, H2|].
  rewrite H3. unfold removed_voxel. fold l.
  destruct (Z.eqb_spec l 0) as [Hz|Hnz]; [by rewrite Hz|]. cbn [negb andb].
  assert (i < length (Np.arr_data given))%nat as Hi.
  { destruct (Nat.lt_ge_cases i (length (Np.arr_data given))); [done|].
    exfalso. apply Hnz. subst l. by rewrite nth_overflow. }
  rewrite (component_size_connected (Np.arr_shape given)
             (Np.eq_mask (Np.arr_data given) l) i comp); [done| | |done|done].
  - by rewrite eq_mask_length.
  - unfold in_mask. rewrite nth_eq_mask by done. by apply Z.eqb_eq.
Qed.

(** A row with the components [4], [4 4] and [6 6 6] at the threshold
    2: the voxel 0 is a component of its own, and is set to 0. *)
Lemma remove_small_components_zeroes_small_components_witness :
  let self := SegmentationCleaner_init (mk_config None None None None None None) in
  let h := [Np.mk_ndarray (1, 1, 8)%nat [4; 0; 4; 4; 0; 6; 6; 6]] in
  let r := remove_small_components self 0%nat (Some 2) h in
  Np.arr_shape (r.2 !!! r.1.1) = (1, 1, 8)%nat
  ∧ Np.wf (r.2 !!! r.1.1)
  ∧ nth 0 (Np.arr_data (r.2 !!! r.1.1)) 0 = 0.
Proof.
  intros self h r.
  apply (remove_small_components_zeroes_small_components self h 0%nat (Some 2) 0%nat [0%nat]).
  - simpl. lia.
  - reflexivity.
  - apply NoDup_singleton.
  - intros j. rewrite list_elem_of_singleton. split.
    + intros ->. by constructor.
    + assert (∀ a b, connected (1, 1, 8)%nat
                       [true; false; true; true; false; false; false; false] a b →
                     a = 0%nat → b = 0%nat) as Hpath.
      { induction 1 as [|a b c Hab IH Hadj Hc]; [done|]. intros ->.
        rewrite (IH eq_refl) in Hadj. unfold adjacent in Hadj.
        change (Ndimage.neighbours (1, 1, 8)%nat 0%nat) with [1%nat] in Hadj.
        apply list_elem_of_singleton in Hadj. subst c. discriminate Hc. }
      intros Hc. by apply (Hpath 0%nat j).
Defined.

(** X10.  [remove_small_components] reports 0 removed components
    exactly when the volume it returns is equal to the one it was
    given; the count is never negative. *)
Theorem remove_small_components_count_zero_iff
    (self : SegmentationCleaner) (h : heap) (seg_data : loc) (min_voxels : option Z) :
  (seg_data < length h)%nat →
  Np.wf (h !!! seg_data) →
  let r := remove_small_components self seg_data min_voxels h in
  (r.1.2 = 0 ↔ r.2 !!! r.1.1 = h !!! seg_data) ∧ 0 <= r.1.2.
Proof.
  intros Hr Hwf r. subst r.
  rewrite remove_small_components_run by done. cbn zeta. cbn [fst snd].
  rewrite lookup_total_newest.
  by apply remove_small_components_value_unchanged_iff.
Qed.

(** A row with one component of one voxel, removed at the threshold 2:
    the count is 1 and the volume differs. *)
Lemma remove_small_components_count_zero_iff_witness :
  let self := SegmentationCleaner_init (mk_config None None None None None None) in
  let h := [Np.mk_ndarray (1, 1, 3)%nat [0; 5; 0]] in
  let r := remove_small_components self 0%nat (Some 2) h in
  ((r.1.2 = 0 ↔ r.2 !!! r.1.1 = h !!! 0%nat) ∧ 0 <= r.1.2) ∧ r.1.2 = 1.
Proof.
  intros self h r. split; [|reflexivity].
  apply (remove_small_components_count_zero_iff self h 0%nat (Some 2)).
  - simpl. lia.
  - reflexivity.
Defined.

(** X11.  At a threshold of at most 1 voxel [remove_small_components]
    removes nothing: every component has at least one voxel, so the
    count is 0 and the returned volume is equal to the given one. *)
Theorem remove_small_components_threshold_one
    (self : SegmentationCleaner) (h : heap) (seg_data : loc) (min_voxels : option Z) :
  (seg_data < length h)%nat →
  Np.wf (h !!! seg_data) →
  default (cleaner_min_voxels_per_component self) min_voxels <= 1 →
  let r := remove_small_components self seg_data min_voxels h in
  r.1.2 = 0 ∧ r.2 !!! r.1.1 = h !!! seg_data.
Proof.
  intros Hr Hwf Ht r. subst r.
  rewrite remove_small_components_run by done. cbn zeta. cbn [fst snd].
  rewrite lookup_total_newest.
  set (t := default (cleaner_min_voxels_per_component self) min_voxels) in *.
  set (a := h !!! seg_data) in *.
  destruct (remove_small_components_value_unchanged_iff t a Hwf) as [Hiff _].
  destruct (remove_small_components_value_nth t a Hwf) as (H1 & H2 & H3).
  assert ((remove_small_components_value t a).1 = a) as Heq.
  { destruct (remove_small_components_value t a).1 as [sh d] eqn:E.
    destruct a as [sh' d']. cbn [Np.arr_shape Np.arr_data] in *. subst sh. f_equal.
    apply (nth_ext _ _ 0 0); [done|]. intros i Hi. rewrite H3.
    unfold removed_voxel.
    destruct (Z.eqb_spec (nth i d' 0) 0) as [Hz|Hnz]; [done|]. cbn [negb andb].
    set (mask := Np.eq_mask d' (nth i d' 0)).
    assert (Hinv : scan_inv sh' mask (length mask) (Ndimage.label sh' mask).1
                     (Ndimage.label sh' mask).2).
    { apply label_inv. unfold mask. by rewrite eq_mask_length. }
    assert (lbl (Ndimage.label sh' mask).1 i ≠ 0%nat) as Hl.
    { apply (si_done _ _ _ _ _ Hinv).
      - unfold mask. rewrite eq_mask_length. lia.
      - unfold in_mask, mask. rewrite nth_eq_mask by lia. by apply Z.eqb_eq. }
    assert (1 <= Ndimage.component_size (Ndimage.label sh' mask).1
                   (lbl (Ndimage.label sh' mask).1 i)) as Hp.
    { apply component_size_pos; [unfold mask; by rewrite eq_mask_length|].
      pose proof (si_range _ _ _ _ _ Hinv i). lia. }
    destruct (Z.ltb_spec (Ndimage.component_size (Ndimage.label sh' mask).1
                            (lbl (Ndimage.label sh' mask).1 i)) t); [lia|done]. }
  split; [by apply Hiff|done].
Qed.

(** A row of single voxels, cleaned at the threshold 1. *)
Lemma remove_small_components_threshold_one_witness :
  let self := SegmentationCleaner_init (mk_config None None None None None None) in
  let h := [Np.mk_ndarray (1, 1, 5)%nat [3; 0; 4; 0; 5]] in
  let r := remove_small_components self 0%nat (Some 1) h in
  r.1.2 = 0 ∧ r.2 !!! r.1.1 = h !!! 0%nat.
Proof.
  intros self h r.
  apply (remove_small_components_threshold_one self h 0%nat (Some 1)).
  - simpl. lia.
  - reflexivity.
  - simpl. lia.
Defined.

(** ** What [clean_artifacts] does to a volume *)

(** Voxel [i] lies in one of the six slabs of [clean_artifacts]: within
    [edge_thickness] voxels of the start or of the end of an axis. *)
Definition near_face (s : Np.shape) (i : nat) : Prop :=
  ∃ dim, (dim < 3)%nat
         ∧ ((Np.coord s dim i < edge_thickness)%nat
            ∨ (Np.extent s dim ≤ Np.coord s dim i + edge_thickness)%nat).

Section ArtifactsMore.

Lemma nth_pos_mask (l : list Z) (i : nat) :
  nth i (Np.pos_mask l) false = (0 <? nth i l 0).
Proof.
  unfold Np.pos_mask. change false with ((fun x => 0 <? x) 0). apply map_nth.
Qed.

Lemma nth_and_mask (a : list bool) :
  ∀ (b : list bool) (i : nat),
    nth i (Np.and_mask a b) false = nth i a false && nth i b false.
Proof.
  unfold Np.and_mask.
  induction a as [|x a IH]; intros [|y b] [|i]; simpl; try done.
  - by rewrite andb_false_r.
  - by rewrite andb_false_r.
Qed.

Lemma count_true_pos_exists (m : list bool) :
  0 < Np.count_true m → ∃ i, nth i m false = true.
Proof.
  unfold Np.count_true. induction m as [|b m IH]; simpl; [lia|].
  destruct b; simpl.
  - intros _. by exists 0%nat.
  - intros H. destruct (IH H) as [i Hi]. by exists (S i).
Qed.

Lemma nth_edge_mask (s : Np.shape) (dim : nat) (high : bool) (i : nat) :
  nth i (edge_mask s dim high) false = true →
  (Np.coord s dim i < edge_thickness)%nat
  ∨ (Np.extent s dim ≤ Np.coord s dim i + edge_thickness)%nat.
Proof.
  unfold edge_mask.
  set (f := fun i => let c := Np.coord s dim i in
                     if high then (Np.extent s dim - edge_thickness <=? c)%nat
                     else (c <? edge_thickness)%nat).
  intros H.
  destruct (Nat.lt_ge_cases i (Np.size s)) as [Hi|Hi].
  - rewrite (nth_indep _ false (f 0%nat)) in H by (by rewrite length_map, length_seq).
    rewrite map_nth, seq_nth in H by done. unfold f in H. simpl in H.
    destruct high.
    + apply Nat.leb_le in H. right. lia.
    + apply Nat.ltb_lt in H. by left.
  - rewrite nth_overflow in H; [done|]. by rewrite length_map, length_seq.
Qed.

(** The assignment [cleaned_data[edge_mask & (cleaned_data > 0)] = 0],
    voxel by voxel, and what it does to the number of positive voxels. *)
Lemma mark_step (m : list bool) :
  ∀ l : list Z,
    (length l ≤ length m)%nat →
    let new := zip_with (fun (in_slab : bool) x => if in_slab && (0 <? x) then 0 else x) m l in
    length new = length l
    ∧ (∀ i, nth i new 0 = if nth i m false && (0 <? nth i l 0) then 0 else nth i l 0)
    ∧ Np.count_true (Np.pos_mask new) + Np.count_true (Np.and_mask m (Np.pos_mask l))
      = Np.count_true (Np.pos_mask l).
Proof.
  induction m as [|b m IH]; intros [|x l] Hlen; simpl in Hlen; try lia.
  - split; [done|]. split; [|done]. intros [|i]; simpl; by rewrite ?andb_false_r.
  - split; [done|]. split; [|done]. intros [|i]; simpl; by rewrite ?andb_false_r.
  - destruct (IH l ltac:(lia)) as (H1 & H2 & H3). cbn zeta in *.
    split; [simpl; by rewrite H1|]. split.
    + intros [|i]; simpl; [done|apply H2].
    + revert H3. unfold Np.count_true, Np.pos_mask, Np.and_mask. simpl.
      destruct b; destruct (0 <? x) eqn:E; simpl; rewrite ?E; simpl; lia.
Qed.

(** The state of the loop over the faces, against the volume [d] it
    started from. *)
Record artifacts_inv (s : Np.shape) (d : list Z) (st : list Z * Z) : Prop := {
  ai_length : length st.1 = length d;
  ai_voxel : ∀ i, nth i st.1 0 = nth i d 0
                  ∨ (nth i st.1 0 = 0 ∧ 0 < nth i d 0 ∧ near_face s i);
  ai_count : Np.count_true (Np.pos_mask st.1) + st.2 = Np.count_true (Np.pos_mask d);
  ai_changed : (st.2 = 0 ∧ st.1 = d)
               ∨ (0 < st.2 ∧ ∃ i, 0 < nth i d 0 ∧ nth i st.1 0 = 0)
}.

Lemma clean_face_value_inv (s : Np.shape) (d : list Z) (st : list Z * Z)
    (face : nat * bool) :
  length d = Np.size s → (face.1 < 3)%nat →
  artifacts_inv s d st → artifacts_inv s d (clean_face_value s st face).
Proof.
  intros Hd Hdim [Hlen Hvox Hcount Hchanged].
  destruct st as [cur removed], face as [dim high]. cbn [fst snd] in *.
  rewrite clean_face_value_policy by lia. cbn zeta.
  destruct (Qltb _ _); [|by split].
  set (slab := edge_mask s dim high) in *.
  set (positives := Np.count_true (Np.and_mask slab (Np.pos_mask cur))).
  assert (length cur ≤ length slab)%nat as Hslab.
  { unfold slab. rewrite edge_mask_length. lia. }
  destruct (mark_step slab cur Hslab) as (H1 & H2 & H3). cbn zeta in *.
  fold positives in H3.
  assert (0 <= removed) as Hrem by (destruct Hchanged as [[? _]|[? _]]; lia).
  pose proof (count_true_nonneg (Np.and_mask slab (Np.pos_mask cur))) as Hpos.
  fold positives in Hpos.
  split; cbn [fst snd].
  - lia.
  - intros i. rewrite H2. destruct (nth i slab false && (0 <? nth i cur 0)) eqn:E.
    + apply andb_true_iff in E as [Hs Hp%Z.ltb_lt]. right.
      destruct (Hvox i) as [Heq|[Hz _]]; [|lia].
      split; [done|]. split; [lia|]. exists dim. split; [done|].
      by apply (nth_edge_mask s dim high).
    + apply Hvox.
  - lia.
  - destruct (Z.eq_dec positives 0) as [Hz|Hnz].
    + rewrite zero_where_nothing by done. by rewrite Hz, Z.add_0_r.
    + right. split; [lia|].
      destruct (count_true_pos_exists (Np.and_mask slab (Np.pos_mask cur)))
        as [i Hi]; [fold positives; lia|].
      rewrite nth_and_mask, nth_pos_mask in Hi.
      exists i. rewrite H2, Hi. split; [|done].
      apply andb_true_iff in Hi as [_ Hp%Z.ltb_lt].
      destruct (Hvox i) as [Heq|[Hz' _]]; lia.
Qed.

Lemma clean_faces_value_inv (s : Np.shape) (d : list Z) (fs : list (nat * bool)) :
  length d = Np.size s →
  ∀ st, (∀ f, f ∈ fs → (f.1 < 3)%nat) →
        artifacts_inv s d st →
        artifacts_inv s d (foldl (clean_face_value s) st fs).
Proof.
  intros Hd. induction fs as [|f fs IH]; intros st Hfs Hinv; [done|].
  simpl. apply IH.
  - intros f' Hf'. apply Hfs. by apply list_elem_of_further.
  - apply clean_face_value_inv; [done| |done]. apply Hfs, list_elem_of_here.
Qed.

Lemma clean_artifacts_value_inv (a : Np.ndarray) :
  Np.wf a →
  let r := clean_artifacts_value a in
  Np.arr_shape r.1 = Np.arr_shape a
  ∧ artifacts_inv (Np.arr_shape a) (Np.arr_data a) (Np.arr_data r.1, r.2).
Proof.
  intros Hwf r. subst r. unfold clean_artifacts_value. cbn [fst snd Np.arr_shape Np.arr_data].
  split; [done|]. rewrite <- surjective_pairing.
  apply clean_faces_value_inv; [done| |].
  - intros f Hf. apply list_elem_of_In in Hf. unfold faces in Hf. simpl in Hf.
    destruct Hf as [<-|[<-|[<-|[<-|[<-|[<-|[]]]]]]]; simpl; lia.
  - split; cbn [fst snd]; [done|by left|lia|by left].
Qed.

End ArtifactsMore.

(** X12.  [clean_artifacts] changes only positive voxels that lie
    within [edge_thickness] voxels of the start or of the end of an
    axis, and it changes them to 0: every other voxel of the returned
    volume, and so every voxel that is zero, negative or in the
    interior, has the value it had.  The returned volume has the shape
    of the given one. *)
Theorem clean_artifacts_changes_only_edge_positives
    (self : SegmentationCleaner) (h : heap) (seg_data : loc) (i : nat) :
  Np.wf (h !!! seg_data) →
  let given := h !!! seg_data in
  let r := clean_artifacts self seg_data h in
  let returned := r.2 !!! r.1.1 in
  Np.arr_shape returned = Np.arr_shape given
  ∧ Np.wf returned
  ∧ (nth i (Np.arr_data returned) 0 = nth i (Np.arr_data given) 0
     ∨ (nth i (Np.arr_data returned) 0 = 0
        ∧ 0 < nth i (Np.arr_data given) 0
        ∧ near_face (Np.arr_shape given) i)).
Proof.
  intros Hwf given r returned. subst returned r.
  rewrite clean_artifacts_run. cbn zeta. cbn [fst snd].
  rewrite lookup_total_newest. fold given.
  destruct (clean_artifacts_value_inv given Hwf) as [Hs [Hlen Hvox _ _]].
  cbn [fst snd] in *.
  split; [done|]. split; [unfold Np.wf in *; by rewrite Hs, Hlen|]. apply Hvox.
Qed.

(** A row of 30 voxels with one positive voxel at its start: the voxel
    is set to 0. *)
Lemma clean_artifacts_changes_only_edge_positives_witness :
  let self := SegmentationCleaner_init (mk_config None None None None None None) in
  let h := [Np.mk_ndarray (1, 1, 30)%nat (7 :: replicate 29 0)] in
  let r := clean_artifacts self 0%nat h in
  (Np.arr_shape (r.2 !!! r.1.1) = (1, 1, 30)%nat
   ∧ Np.wf (r.2 !!! r.1.1)
   ∧ (nth 0 (Np.arr_data (r.2 !!! r.1.1)) 0 = 7
      ∨ (nth 0 (Np.arr_data (r.2 !!! r.1.1)) 0 = 0
         ∧ 0 < 7
         ∧ near_face (1, 1, 30)%nat 0)))
  ∧ nth 0 (Np.arr_data (r.2 !!! r.1.1)) 0 = 0.
Proof.
  intros self h r. split; [|reflexivity].
  apply (clean_artifacts_changes_only_edge_positives self h 0%nat 0%nat).
  reflexivity.
Defined.

(** X13.  The two counts that [clean_artifacts] reports are equal, and
    they are the number of positive voxels of the given volume less the
    number of positive voxels of the returned one; they are 0 exactly
    when the returned volume is equal to the given one. *)
Theorem clean_artifacts_count
    (self : SegmentationCleaner) (h : heap) (seg_data : loc) :
  Np.wf (h !!! seg_data) →
  let given := h !!! seg_data in
  let r := clean_artifacts self seg_data h in
  let returned := r.2 !!! r.1.1 in
  total_cleaned r.1.2 = edge_voxels_removed r.1.2
  ∧ edge_voxels_removed r.1.2
    = Np.count_true (Np.pos_mask (Np.arr_data given))
      - Np.count_true (Np.pos_mask (Np.arr_data returned))
  ∧ (edge_voxels_removed r.1.2 = 0 ↔ returned = given).
Proof.
  intros Hwf given r returned. subst returned r.
  rewrite clean_artifacts_run. cbn zeta. cbn [fst snd edge_voxels_removed total_cleaned].
  rewrite lookup_total_newest. fold given.
  destruct (clean_artifacts_value_inv given Hwf) as [Hs [_ _ Hcount Hchanged]].
  cbn [fst snd] in *.
  split; [done|]. split; [lia|].
  destruct (clean_artifacts_value given).1 as [sh d] eqn:E.
  destruct given as [sh' d']. cbn [Np.arr_shape Np.arr_data] in *. subst sh.
  destruct Hchanged as [[H0 Heq]|[Hpos (i & Hd & Hi)]].
  - by rewrite H0, Heq.
  - split; [lia|]. intros Heq. injection Heq as Heq. rewrite Heq in Hi. lia.
Qed.

(** A row of 30 voxels with one positive voxel at its start: one voxel
    is removed. *)
Lemma clean_artifacts_count_witness :
  let self := SegmentationCleaner_init (mk_config None None None None None None) in
  let h := [Np.mk_ndarray (1, 1, 30)%nat (7 :: replicate 29 0)] in
  let r := clean_artifacts self 0%nat h in
  (total_cleaned r.1.2 = edge_voxels_removed r.1.2
   ∧ edge_voxels_removed r.1.2
     = Np.count_true (Np.pos_mask (7 :: replicate 29 0))
       - Np.count_true (Np.pos_mask (Np.arr_data (r.2 !!! r.1.1)))
   ∧ (edge_voxels_removed r.1.2 = 0 ↔ r.2 !!! r.1.1 = h !!! 0%nat))
  ∧ edge_voxels_removed r.1.2 = 1.
Proof.
  intros self h r. split; [|reflexivity].
  apply (clean_artifacts_count self h 0%nat). reflexivity.
Defined.

(** ** The result of [validate_and_clean] *)

Section OrchestratorMore.

Lemma no_errors_app (a b : list string) :
  no_errors (a ++ b) = no_errors a && no_errors b.
Proof. unfold no_errors. rewrite length_app. by destruct a, b. Qed.

Lemma no_errors_nil (a : list string) : no_errors a = true ↔ a = [].
Proof. unfold no_errors. by destruct a. Qed.

(** The flag that a check returns says whether it returned errors. *)
Lemma validate_dimensions_flag (self : SegmentationValidator)
    (seg_img : Nifti1Image) (input_img : option Nifti1Image) :
  let check := validate_dimensions self seg_img input_img in
  check.1 = no_errors check.2 ∧ (length check.2 ≤ 2)%nat.
Proof.
  intros check. subst check. unfold validate_dimensions.
  destruct (img_shape seg_img) as [[nx ny] nz].
  cbn [shape_tuple length Nat.ltb Nat.leb fst snd]. split; [done|].
  destruct input_img as [input|]; [|simpl; lia].
  destruct (bool_decide _), (allclose _ _ _); simpl; lia.
Qed.

Lemma validate_labels_flag (self : SegmentationValidator)
    (seg_data : Np.ndarray) (label_dict : LabelDict) :
  let check := validate_labels self seg_data label_dict in
  check.1.1 = no_errors check.2 ∧ (length check.2 ≤ 1)%nat.
Proof.
  intros check. subst check. unfold validate_labels. cbn [fst snd].
  split; [done|]. destruct (0 <? _)%nat; simpl; lia.
Qed.

Lemma validate_statistics_flag (self : SegmentationValidator)
    (seg_data : Np.ndarray) (input_data : option Np.ndarray) :
  let check := validate_statistics self seg_data input_data in
  check.1.1 = no_errors check.2 ∧ (length check.2 ≤ 1)%nat.
Proof.
  intros check. subst check. unfold validate_statistics.
  destruct (_ && _); cbn [fst snd]; split; try done; simpl; lia.
Qed.

Lemma int16_range (z : Z) : -32768 <= int16 z <= 32767.
Proof. unfold int16. pose proof (Z.mod_pos_bound (z + 32768) 65536). lia. Qed.

Lemma int16_small (z : Z) : -32768 <= z <= 32767 → int16 z = z.
Proof. intros H. unfold int16. rewrite Z.mod_small by lia. lia. Qed.

Lemma int16_idempotent (z : Z) : int16 (int16 z) = int16 z.
Proof. apply int16_small, int16_range. Qed.

Lemma nth_map_int16 (l : list Z) (i : nat) : nth i (map int16 l) 0 = int16 (nth i l 0).
Proof. change 0 with (int16 0) at 1. apply map_nth. Qed.

Lemma count_nonzero_bounds (d : list Z) :
  0 <= Np.count_nonzero d <= Z.of_nat (length d).
Proof.
  unfold Np.count_nonzero.
  pose proof (List.filter_length_le (fun x => negb (x =? 0)) d). lia.
Qed.

Lemma count_nonzero_zero (d : list Z) :
  Np.count_nonzero d = 0 ↔ unique_labels d = [].
Proof.
  unfold Np.count_nonzero. split.
  - intros H. apply unique_labels_all_zero. intros x Hx.
    destruct (Z.eq_dec x 0) as [|Hne]; [done|]. exfalso.
    assert (In x (List.filter (fun x => negb (x =? 0)) d)) as Hin.
    { apply filter_In. split; [by apply list_elem_of_In|].
      by apply negb_true_iff, Z.eqb_neq. }
    destruct (List.filter _ d); [done|simpl in H; lia].
  - intros H.
    destruct (List.filter (fun x => negb (x =? 0)) d) as [|x rest] eqn:E; [done|].
    exfalso. assert (In x (List.filter (fun x => negb (x =? 0)) d)) as Hin
      by (rewrite E; apply in_eq).
    apply filter_In in Hin as [Hin Hx%negb_true_iff%Z.eqb_neq].
    assert (x ∈ unique_labels d) as Hu
      by (apply elem_of_unique_labels; split; [done|by apply list_elem_of_In]).
    rewrite H in Hu. by apply elem_of_nil in Hu.
Qed.

Lemma ratio_of_unit (a b : Z) :
  0 <= a <= b →
  (0 <= ratio_of a b <= 1)%Q ∧ ((ratio_of a b == 0)%Q ↔ a = 0 ∨ b = 0).
Proof.
  intros H. unfold ratio_of. destruct (Z.ltb_spec 0 b) as [Hb|Hb].
  - destruct b as [|b|b]; try lia.
    unfold Qle, Qeq, Qdiv, Qmult, Qinv. cbn [Qnum Qden inject_Z].
    repeat split; lia.
  - split; [split; [apply Qle_refl|done]|]. split; [lia|done].
Qed.

(** The two cleaning steps, on the voxels: the result has the shape of
    the volume, each of its voxels is that of the volume or 0, and when
    one of the two counts is positive a nonzero voxel of the volume has
    become 0. *)
Lemma cleanup_value_changes (min_voxels : Z) (a : Np.ndarray) :
  Np.wf a →
  let removal := remove_small_components_value min_voxels a in
  let cleaning := clean_artifacts_value removal.1 in
  Np.arr_shape cleaning.1 = Np.arr_shape a
  ∧ length (Np.arr_data cleaning.1) = length (Np.arr_data a)
  ∧ (∀ i, nth i (Np.arr_data cleaning.1) 0 = nth i (Np.arr_data a) 0
          ∨ nth i (Np.arr_data cleaning.1) 0 = 0)
  ∧ ((0 <? removal.2) || (0 <? cleaning.2) = true →
     ∃ i, nth i (Np.arr_data a) 0 ≠ 0 ∧ nth i (Np.arr_data cleaning.1) 0 = 0).
Proof.
  intros Hwf removal cleaning.
  assert (Hrem : Np.arr_shape removal.1 = Np.arr_shape a
                 ∧ removal_inv (Np.arr_data a) (Np.arr_data removal.1, removal.2)).
  { subst removal. unfold remove_small_components_value.
    cbn [fst snd Np.arr_shape Np.arr_data]. split; [done|].
    rewrite <- surjective_pairing. apply remove_labels_value_inv; [done| |].
    - intros l Hl. by apply elem_of_unique_labels in Hl as [? _].
    - split; cbn [fst snd]; [done|by left|by left]. }
  destruct Hrem as [Hs [Hlen Hvox Hcount]]. cbn [fst snd] in *.
  assert (Np.wf removal.1) as Hwf' by (unfold Np.wf in *; by rewrite Hs, Hlen).
  destruct (clean_artifacts_value_inv removal.1 Hwf') as [Hs' [Hlen' Hvox' _ Hchanged]].
  fold cleaning in Hs', Hlen', Hvox', Hchanged. cbn [fst snd] in *.
  split; [by rewrite Hs'|]. split; [by rewrite Hlen'|].
  assert (Hzero : ∀ i, nth i (Np.arr_data removal.1) 0 = 0 →
                       nth i (Np.arr_data cleaning.1) 0 = 0).
  { intros i Hi. destruct (Hvox' i) as [E|[E _]]; [by rewrite E|done]. }
  split.
  - intros i. destruct (Hvox' i) as [E|[E _]]; [rewrite E; apply Hvox|by right].
  - intros Hc. destruct Hcount as [[H0 Heq]|[Hpos (i & Hd & Hi)]].
    + rewrite H0 in Hc. cbn [Z.ltb Z.compare orb] in Hc. apply Z.ltb_lt in Hc.
      destruct Hchanged as [[Hz _]|[_ (i & Hd & Hi)]]; [lia|].
      exists i. rewrite <- Heq. split; [lia|done].
    + exists i. split; [done|by apply Hzero].
Qed.

End OrchestratorMore.

(** X14.  The result of [validate_and_clean] is valid exactly when the
    dimension check, the label check and the statistics check pass: its
    errors are theirs, at most four, the voxel-count check and the
    spatial check add none, and neither the warnings nor the cleanup
    change the verdict. *)
Theorem validate_and_clean_valid_iff
    (segmentation_img : Nifti1Image) (input_img : option Nifti1Image)
    (label_dict : LabelDict) (config : Config) (h : heap) :
  let validator := SegmentationValidator_init config in
  let seg := label_volume segmentation_img in
  let input_data :=
    (fun img => Np.mk_ndarray (img_shape img) (img_dataobj img)) <$> input_img in
  let dimensions := validate_dimensions validator segmentation_img input_img in
  let labels := validate_labels validator seg label_dict in
  let statistics := validate_statistics validator seg input_data in
  let result := (validate_and_clean segmentation_img input_img label_dict config h).1 in
  valid result = dimensions.1 && labels.1.1 && statistics.1.1
  ∧ errors result = dimensions.2 ++ labels.2 ++ statistics.2
  ∧ (valid result = true ↔ errors result = [])
  ∧ (length (errors result) ≤ 4)%nat.
Proof.
  intros validator seg input_data dimensions labels statistics result.
  destruct (validate_and_clean_findings segmentation_img input_img label_dict config h)
    as (Hv & _ & He).
  destruct (run_validations_fields segmentation_img input_img label_dict config seg)
    as (_ & He' & Hv' & _).
  fold seg in Hv, He. fold result in Hv, He.
  fold validator input_data in He'. fold dimensions labels statistics in He'.
  change (validate_voxel_counts validator seg label_dict _).2 with (@nil string) in He'.
  change (validate_spatial_consistency validator seg).2 with (@nil string) in He'.
  cbn [app] in He'.
  destruct (validate_dimensions_flag validator segmentation_img input_img) as [Hd Hdn].
  destruct (validate_labels_flag validator seg label_dict) as [Hl Hln].
  destruct (validate_statistics_flag validator seg input_data) as [Hs Hsn].
  fold dimensions in Hd, Hdn. fold labels in Hl, Hln. fold statistics in Hs, Hsn.
  rewrite Hv, He, Hv', He'.
  split; [by rewrite !no_errors_app, Hd, Hl, Hs, andb_assoc|].
  split; [done|]. split; [apply no_errors_nil|].
  rewrite !length_app. lia.
Qed.

(** X15.  The statistics of the result describe the label volume that
    was given, also when a cleaned image is returned: the label IDs are
    the distinct nonzero values of the volume in ascending order, the
    number of labels is their number, the segmented voxels are the sum
    of the voxel counts of the labels and lie between 0 and the total,
    and the ratio lies between 0 and 1.  No segmented voxel, no label
    and (for a volume that has voxels) a ratio of 0 come together. *)
Theorem validate_and_clean_statistics
    (segmentation_img : Nifti1Image) (input_img : option Nifti1Image)
    (label_dict : LabelDict) (config : Config) (h : heap) :
  length (img_dataobj segmentation_img) = Np.size (img_shape segmentation_img) →
  let st := stats (validate_and_clean segmentation_img input_img label_dict config h).1 in
  let voxels := map int16 (img_dataobj segmentation_img) in
  let ids := unique_labels voxels in
  let segmented := counts_sum voxels ids in
  let total := Z.of_nat (length voxels) in
  st_total_voxels st = Some total
  ∧ st_label_ids st = Some ids
  ∧ st_num_labels st = Some (Z.of_nat (length ids))
  ∧ st_segmented_voxels st = Some segmented
  ∧ st_segmentation_ratio st = Some (ratio_of segmented total)
  ∧ ascending ids
  ∧ (∀ l, l ∈ ids ↔ l ≠ 0 ∧ l ∈ voxels)
  ∧ 0 <= segmented <= total
  ∧ (segmented = 0 ↔ ids = [])
  ∧ (0 <= ratio_of segmented total <= 1)%Q
  ∧ (voxels ≠ [] → ((ratio_of segmented total == 0)%Q ↔ ids = [])).
Proof.
  intros Hwf st voxels ids segmented total.
  assert (Hst : st_total_voxels st = Some total
                ∧ st_label_ids st = Some ids
                ∧ st_num_labels st = Some (Z.of_nat (length ids))
                ∧ st_segmented_voxels st = Some (Np.count_nonzero voxels)
                ∧ st_segmentation_ratio st
                  = Some (ratio_of (Np.count_nonzero voxels) total)).
  { subst st. rewrite validate_and_clean_run.
    assert (Z.of_nat (Np.size (Np.arr_shape (label_volume segmentation_img))) = total)
      as Ht.
    { unfold total, voxels. rewrite length_map, Hwf. done. }
    set (base := run_validations segmentation_img input_img label_dict config
                   (label_volume segmentation_img)).
    assert (st_total_voxels (stats base) = Some total
            ∧ st_label_ids (stats base) = Some ids
            ∧ st_num_labels (stats base) = Some (Z.of_nat (length ids))
            ∧ st_segmented_voxels (stats base) = Some (Np.count_nonzero voxels)
            ∧ st_segmentation_ratio (stats base)
              = Some (ratio_of (Np.count_nonzero voxels) total)) as Hb.
    { subst base. unfold run_validations. rewrite Ht.
      destruct (validate_dimensions _ _ _) as [? ?].
      destruct (validate_labels _ _ _) as [[? ?] ?].
      destruct (validate_voxel_counts _ _ _ _) as [[? ?] ?].
      destruct (validate_spatial_consistency _ _) as [[? ?] ?].
      destruct (validate_statistics _ _ _) as [[? ?] ?].
      done. }
    cbn zeta. destruct (cleanup_due config base); [|done].
    by destruct (_ || _). }
  destruct Hst as (H1 & H2 & H3 & H4 & H5).
  assert (segmented = Np.count_nonzero voxels) as Hseg
    by apply counts_sum_unique_labels.
  rewrite <- Hseg in H4, H5.
  pose proof (count_nonzero_bounds voxels) as Hb. rewrite <- Hseg in Hb. fold total in Hb.
  pose proof (count_nonzero_zero voxels) as Hz. rewrite <- Hseg in Hz. fold ids in Hz.
  destruct (ratio_of_unit segmented total Hb) as [Hr Hr0].
  repeat (split; [done|]).
  split; [apply unique_labels_ascending|].
  split; [intros l; apply elem_of_unique_labels|].
  repeat (split; [done|]).
  intros Hne. rewrite Hr0, <- Hz. split; [|by left].
  intros [?|Ht]; [done|]. exfalso. apply Hne.
  unfold total in Ht. destruct voxels; [done|simpl in Ht; lia].
Qed.

(** A volume of eight voxels with the labels 3 and 5. *)
Lemma validate_and_clean_statistics_witness :
  let img := mk_image (2, 2, 2)%nat [] "" [0; 3; 3; 0; 5; 0; 0; 0] in
  let st := stats (validate_and_clean img None ∅
                     (mk_config None (Some false) None None None None) []).1 in
  st_total_voxels st = Some 8
  ∧ st_label_ids st = Some [3; 5]
  ∧ st_num_labels st = Some 2
  ∧ st_segmented_voxels st = Some 3.
Proof.
  intros img st.
  destruct (validate_and_clean_statistics img None ∅
              (mk_config None (Some false) None None None None) [] eq_refl)
    as (H1 & H2 & H3 & H4 & _).
  split; [exact H1|]. split; [exact H2|]. split; [exact H3|exact H4].
Defined.

(** X16.  [validate_and_clean] returns a cleaned image exactly when it
    sets [cleaned], and only after a cleanup that was due.  The cleaned
    image has the shape, the affine matrix and the header of the given
    image; each of its voxels is the label of the given volume or 0;
    and a nonzero label of the given volume is 0 in it, so that it
    never is a copy of the given volume. *)
Theorem validate_and_clean_cleaned_image
    (segmentation_img : Nifti1Image) (input_img : option Nifti1Image)
    (label_dict : LabelDict) (config : Config) (h : heap) :
  length (img_dataobj segmentation_img) = Np.size (img_shape segmentation_img) →
  let result := (validate_and_clean segmentation_img input_img label_dict config h).1 in
  let voxels := map int16 (img_dataobj segmentation_img) in
  (cleaned result = true ↔ is_Some (cleaned_img result))
  ∧ ∀ image, cleaned_img result = Some image →
      default true (cfg_enable_cleanup config) = true
      ∧ (warnings result ≠ [] ∨ errors result ≠ [])
      ∧ img_shape image = img_shape segmentation_img
      ∧ img_affine image = img_affine segmentation_img
      ∧ img_header image = img_header segmentation_img
      ∧ length (img_dataobj image) = length voxels
      ∧ (∀ i, nth i (img_dataobj image) 0 = nth i voxels 0
              ∨ nth i (img_dataobj image) 0 = 0)
      ∧ (∃ i, nth i voxels 0 ≠ 0 ∧ nth i (img_dataobj image) 0 = 0).
Proof.
  intros Hwf result voxels. subst result. rewrite validate_and_clean_run.
  set (seg := label_volume segmentation_img).
  set (base := run_validations segmentation_img input_img label_dict config seg).
  set (t := cleaner_min_voxels_per_component (SegmentationCleaner_init config)).
  destruct (run_validations_fields segmentation_img input_img label_dict config seg)
    as (_ & _ & _ & Hc & Hi & _).
  fold base in Hc, Hi. cbn zeta.
  assert (Np.wf seg) as Hseg by (unfold Np.wf, seg, label_volume; simpl; by rewrite length_map).
  destruct (cleanup_value_changes t seg Hseg) as (Hs & Hlen & Hvox & Hchg).
  cbn zeta in *.
  set (removal := remove_small_components_value t seg) in *.
  set (cleaning := clean_artifacts_value removal.1) in *.
  pose proof (cleanup_due_iff config base) as Hdue.
  destruct (cleanup_due config base).
  - destruct ((0 <? removal.2) || (0 <? cleaning.2)) eqn:E; cbn [fst cleaned cleaned_img].
    + split; [split; [by eexists|done]|].
      intros image [= <-]. cbn [warnings errors].
      destruct Hdue as [Hdue _]. destruct (Hdue eq_refl) as [Hen Hfind].
      split; [done|]. split; [done|].
      unfold cleaned_image. cbn [img_shape img_affine img_header img_dataobj].
      split; [done|]. split; [done|]. split; [done|].
      assert (Hclean : ∀ i, nth i (map int16 (Np.arr_data cleaning.1)) 0
                            = nth i (Np.arr_data cleaning.1) 0).
      { intros i. rewrite nth_map_int16. destruct (Hvox i) as [Hv|Hv]; rewrite Hv.
        - unfold seg, label_volume. cbn [Np.arr_data].
          rewrite nth_map_int16. apply int16_idempotent.
        - done. }
      split; [rewrite length_map; exact Hlen|].
      split.
      * intros i. rewrite Hclean. apply Hvox.
      * destruct (Hchg eq_refl) as (i & Hd & Hz). exists i. by rewrite Hclean.
    + rewrite Hc, Hi. split; [split; [done|by intros [? ?]]|done].
  - cbn [fst]. rewrite Hc, Hi. split; [split; [done|by intros [? ?]]|done].
Qed.

(** A row of twelve voxels with one isolated voxel of an unknown label:
    the cleanup removes it. *)
Lemma validate_and_clean_cleaned_image_witness :
  let img := mk_image (1, 1, 12)%nat [] "" [0; 0; 0; 0; 0; 7; 0; 0; 0; 0; 0; 0] in
  let result := (validate_and_clean img None ∅
                   (mk_config None None None None None None) []).1 in
  cleaned result = true ∧ is_Some (cleaned_img result).
Proof.
  intros img result.
  destruct (validate_and_clean_cleaned_image img None ∅
              (mk_config None None None None None None) [] eq_refl) as [Hiff _].
  assert (cleaned result = true) as Hc by reflexivity.
  split; [exact Hc|]. apply Hiff. exact Hc.
Defined.

(** ** What the report says *)

Section ReportMore.

Import Report.

(** The recommendation of a report that found nothing to recommend. *)
Definition all_clear : string :=
  "- **No issues detected** - Segmentation quality appears good".

Lemma Qltb_reflect (a b : Q) : reflect (a < b)%Q (Qltb a b).
Proof. apply iff_reflect. symmetry. apply Qltb_lt. Qed.

Lemma high_or_low_ratio (ratio : Q) : (9 # 10 < ratio)%Q → (ratio < 1 # 100)%Q → False.
Proof.
  intros H1 H2. pose proof (Qlt_trans _ _ _ H1 H2) as H.
  revert H. unfold Qlt. simpl. lia.
Qed.

(** The verdict of a result whose [valid] flag says that it has no
    error. *)
Lemma status_lines_verdict (result : ValidationResult) :
  valid result = no_errors (errors result) →
  status_lines result
  = [ "## Overall Status";
      "";
      match errors result, warnings result with
      | [], [] => "✅ **PASSED** - No issues detected"
      | [], _ :: _ =>
          "⚠️ **PASSED WITH WARNINGS** - "
          +:+ Py.str_int (Z.of_nat (length (warnings result))) +:+ " warning(s) found"
      | _ :: _, _ =>
          "❌ **FAILED** - "
          +:+ Py.str_int (Z.of_nat (length (errors result))) +:+ " error(s) found"
      end;
      "" ].
Proof.
  intros Hv. unfold status_lines. rewrite Hv.
  by destruct (errors result), (warnings result).
Qed.

End ReportMore.

(** X17.  The recommendations of a report are never empty and never
    more than five.  The line that no issue was detected is given
    exactly when the result has no error, at most five warnings, a
    segmentation ratio from 1% to 90%, a label, and was not cleaned (a
    result with one to five warnings still gets it); when it is given,
    it is the only recommendation. *)
Theorem recommendations_all_clear (result : ValidationResult) :
  let found := Report.recommendations result in
  let ratio := default 0%Q (st_segmentation_ratio (stats result)) in
  found ≠ []
  ∧ (length found ≤ 5)%nat
  ∧ (all_clear ∈ found
     ↔ errors result = []
       ∧ (length (warnings result) ≤ 5)%nat
       ∧ ¬ (9 # 10 < ratio)%Q
       ∧ ¬ (ratio < 1 # 100)%Q
       ∧ default 0 (st_num_labels (stats result)) ≠ 0
       ∧ cleaned result = false)
  ∧ (all_clear ∈ found → found = [all_clear]).
Proof.
  intros found ratio. subst found. unfold Report.recommendations. fold ratio.
  destruct (Qltb_reflect (9 # 10) ratio) as [Hhigh|Hhigh],
           (Qltb_reflect ratio (1 # 100)) as [Hlow|Hlow];
    try (exfalso; exact (high_or_low_ratio ratio Hhigh Hlow));
    destruct (errors result) as [|e es];
    destruct (Nat.ltb_spec 5 (length (warnings result))) as [Hw|Hw];
    destruct (Z.eqb_spec (default 0 (st_num_labels (stats result))) 0) as [Hn|Hn];
    destruct (cleaned result);
    cbn [app length];
    (split; [done|]); (split; [lia|]);
    (split;
     [split;
      [intros Hin; apply list_elem_of_In in Hin; cbn [In] in Hin; unfold all_clear in Hin;
       repeat (destruct Hin as [Hin|Hin]; [try discriminate Hin|]); try done;
       repeat split; try done; lia
      |intros (H1 & H2 & H3 & H4 & H5 & H6); try done; try lia;
       apply list_elem_of_here]
     |intros Hin; apply list_elem_of_In in Hin; cbn [In] in Hin; unfold all_clear in Hin;
      repeat (destruct Hin as [Hin|Hin]; [try discriminate Hin|]); done]).
Qed.

(** X18.  The verdict that the report gives for a result of
    [validate_and_clean] follows its findings: PASSED without error and
    without warning, PASSED WITH WARNINGS (and their number) without
    error, FAILED otherwise, with the number of errors, which then is
    between 1 and 4. *)
Theorem report_verdict_of_validate_and_clean
    (segmentation_img : Nifti1Image) (input_img : option Nifti1Image)
    (label_dict : LabelDict) (config : Config) (h : heap) :
  let result := (validate_and_clean segmentation_img input_img label_dict config h).1 in
  Report.status_lines result
  = [ "## Overall Status";
      "";
      match errors result, warnings result with
      | [], [] => "✅ **PASSED** - No issues detected"
      | [], _ :: _ =>
          "⚠️ **PASSED WITH WARNINGS** - "
          +:+ Py.str_int (Z.of_nat (length (warnings result))) +:+ " warning(s) found"
      | _ :: _, _ =>
          "❌ **FAILED** - "
          +:+ Py.str_int (Z.of_nat (length (errors result))) +:+ " error(s) found"
      end;
      "" ]
  ∧ (length (errors result) ≤ 4)%nat.
Proof.
  intros result.
  destruct (validate_and_clean_findings segmentation_img input_img label_dict config h)
    as (Hv & _ & He).
  destruct (run_validations_fields segmentation_img input_img label_dict config
              (label_volume segmentation_img)) as (_ & He' & Hv' & _).
  fold result in Hv, He.
  split.
  - apply status_lines_verdict. by rewrite Hv, He.
  - rewrite He, He'.
    set (validator := SegmentationValidator_init config).
    destruct (validate_dimensions_flag validator segmentation_img input_img) as [_ Hd].
    destruct (validate_labels_flag validator (label_volume segmentation_img) label_dict)
      as [_ Hl].
    destruct (validate_statistics_flag validator (label_volume segmentation_img)
                ((fun img => Np.mk_ndarray (img_shape img) (img_dataobj img)) <$> input_img))
      as [_ Hs].
    rewrite !length_app. cbn [validate_voxel_counts validate_spatial_consistency snd length].
    cbn zeta in *. lia.
Qed.

(** X19.  The report is written from the last validation result alone:
    the results before it change nothing, and with no result at all the
    report is its nine header lines. *)
Theorem report_uses_last_result
    (LABEL_DICT : LabelDict) (now : Report.datetime)
    (earlier : list ValidationResult) (result : ValidationResult)
    (patient_id scan_name : string) (nifti_file_path : Report.Path)
    (validation_config : Config) :
  Report.generate_validation_report LABEL_DICT now (earlier ++ [result])
    patient_id scan_name nifti_file_path validation_config
  = Report.generate_validation_report LABEL_DICT now [result]
      patient_id scan_name nifti_file_path validation_config
  ∧ Report.report_lines LABEL_DICT now [] patient_id scan_name nifti_file_path
      validation_config
    = Report.header_lines patient_id scan_name nifti_file_path now
  ∧ length (Report.header_lines patient_id scan_name nifti_file_path now) = 9%nat.
Proof.
  split; [|split].
  - unfold Report.generate_validation_report, Report.report_lines.
    by rewrite last_snoc.
  - unfold Report.report_lines. cbn [last]. by rewrite app_nil_r.
  - done.
Qed.

(** ** The label catalog and the voxel files *)

Section Catalog.

Lemma LABEL_DICT_snoc (items : list LabelItem) (item : LabelItem) :
  LABEL_DICT (items ++ [item])
  = <[item_id item := label_info_of item]> (LABEL_DICT items).
Proof. unfold LABEL_DICT. by rewrite foldl_snoc. Qed.

Lemma NAME_TO_ID_MAP_snoc (items : list LabelItem) (item : LabelItem) :
  NAME_TO_ID_MAP (items ++ [item])
  = <[item_name item := item_id item]> (NAME_TO_ID_MAP items).
Proof. unfold NAME_TO_ID_MAP. by rewrite foldl_snoc. Qed.

Lemma LABEL_DICT_lookup_Some (items : list LabelItem) (id : Z) (info : LabelInfo) :
  LABEL_DICT items !! id = Some info →
  ∃ item, item ∈ items ∧ item_id item = id ∧ info = label_info_of item.
Proof.
  induction items as [|item items IH] using rev_ind; [done|].
  rewrite LABEL_DICT_snoc. intros H.
  destruct (decide (item_id item = id)) as [Heq|Hne].
  - rewrite <- Heq, lookup_insert_eq in H. injection H as <-.
    exists item. split; [|done]. apply elem_of_app. right. apply list_elem_of_here.
  - rewrite lookup_insert_ne in H by done.
    destruct (IH H) as (it & Hin & Hid & Hinfo).
    exists it. split; [|done]. apply elem_of_app. by left.
Qed.

Lemma LABEL_DICT_lookup_None (items : list LabelItem) (id : Z) :
  id ∉ map item_id items → LABEL_DICT items !! id = None.
Proof.
  intros Hid. destruct (LABEL_DICT items !! id) as [info|] eqn:E; [|done].
  apply LABEL_DICT_lookup_Some in E as (item & Hin & <- & _).
  exfalso. apply Hid. apply list_elem_of_In, in_map. by apply list_elem_of_In.
Qed.

Lemma NAME_TO_ID_MAP_lookup_Some (items : list LabelItem) (name : string) (id : Z) :
  NAME_TO_ID_MAP items !! name = Some id →
  ∃ item, item ∈ items ∧ item_name item = name ∧ item_id item = id.
Proof.
  induction items as [|item items IH] using rev_ind; [done|].
  rewrite NAME_TO_ID_MAP_snoc. intros H.
  destruct (decide (item_name item = name)) as [Heq|Hne].
  - rewrite <- Heq, lookup_insert_eq in H. injection H as <-.
    exists item. split; [|done]. apply elem_of_app. right. apply list_elem_of_here.
  - rewrite lookup_insert_ne in H by done.
    destruct (IH H) as (it & Hin & Hid & Hinfo).
    exists it. split; [|done]. apply elem_of_app. by left.
Qed.

(** The entry of an item that no later item overrides. *)
Lemma LABEL_DICT_last_wins (earlier later : list LabelItem) (item : LabelItem) :
  item_id item ∉ map item_id later →
  LABEL_DICT (earlier ++ item :: later) !! item_id item = Some (label_info_of item).
Proof.
  induction later as [|it later IH] using rev_ind; intros Hid.
  - by rewrite LABEL_DICT_snoc, lookup_insert_eq.
  - rewrite map_app in Hid. apply not_elem_of_app in Hid as [Hl Hit].
    change (earlier ++ item :: later ++ [it]) with (earlier ++ (item :: later) ++ [it]).
    rewrite app_assoc, LABEL_DICT_snoc, lookup_insert_ne; [by apply IH|].
    intros Heq. apply Hit. simpl. rewrite Heq. apply list_elem_of_here.
Qed.

Lemma NAME_TO_ID_MAP_last_wins (earlier later : list LabelItem) (item : LabelItem) :
  item_name item ∉ map item_name later →
  NAME_TO_ID_MAP (earlier ++ item :: later) !! item_name item = Some (item_id item).
Proof.
  induction later as [|it later IH] using rev_ind; intros Hid.
  - by rewrite NAME_TO_ID_MAP_snoc, lookup_insert_eq.
  - rewrite map_app in Hid. apply not_elem_of_app in Hid as [Hl Hit].
    change (earlier ++ item :: later ++ [it]) with (earlier ++ (item :: later) ++ [it]).
    rewrite app_assoc, NAME_TO_ID_MAP_snoc, lookup_insert_ne; [by apply IH|].
    intros Heq. apply Hit. simpl. rewrite Heq. apply list_elem_of_here.
Qed.

(** An item of a list whose keys are distinct is followed by no item
    with its key. *)
Lemma NoDup_key_split {K : Type} (key : LabelItem → K) (items : list LabelItem)
    (item : LabelItem) :
  NoDup (map key items) → item ∈ items →
  ∃ earlier later, items = earlier ++ item :: later ∧ key item ∉ map key later.
Proof.
  intros Hnd Hin. apply list_elem_of_split in Hin as (earlier & later & ->).
  exists earlier, later. split; [done|].
  rewrite map_app in Hnd. apply NoDup_app in Hnd as (_ & _ & Hnd).
  simpl in Hnd. by apply NoDup_cons in Hnd as [? _].
Qed.

End Catalog.

(** X20.  The module-level catalogs of segment.py.  Every entry of
    [LABEL_DICT] comes from an item of the list and has a name; an ID
    that no item has is missing; of several items with one ID the last
    is kept.  When the IDs of the items are distinct and so are their
    names, [NAME_TO_ID_MAP] inverts [LABEL_DICT]: a name is mapped to an
    ID exactly when the entry of that ID has that name. *)
Theorem label_catalogs (label_colors_list : list LabelItem) :
  (∀ id info, LABEL_DICT label_colors_list !! id = Some info →
     ∃ item, item ∈ label_colors_list ∧ item_id item = id
             ∧ li_name info = Some (item_name item))
  ∧ (∀ id, id ∉ map item_id label_colors_list →
       LABEL_DICT label_colors_list !! id = None)
  ∧ (∀ earlier item later,
       label_colors_list = earlier ++ item :: later →
       item_id item ∉ map item_id later →
       LABEL_DICT label_colors_list !! item_id item = Some (label_info_of item))
  ∧ (NoDup (map item_id label_colors_list) →
     NoDup (map item_name label_colors_list) →
     ∀ id name,
       NAME_TO_ID_MAP label_colors_list !! name = Some id
       ↔ ∃ info, LABEL_DICT label_colors_list !! id = Some info
                 ∧ li_name info = Some name).
Proof.
  split; [|split; [|split]].
  - intros id info H. apply LABEL_DICT_lookup_Some in H as (item & Hin & Hid & ->).
    by exists item.
  - apply LABEL_DICT_lookup_None.
  - intros earlier item later -> Hid. by apply LABEL_DICT_last_wins.
  - intros Hids Hnames id name. split.
    + intros H. apply NAME_TO_ID_MAP_lookup_Some in H as (item & Hin & <- & <-).
      exists (label_info_of item). split; [|done].
      destruct (NoDup_key_split item_id _ item Hids Hin) as (earlier & later & -> & Hl).
      by apply LABEL_DICT_last_wins.
    + intros (info & H & Hname).
      apply LABEL_DICT_lookup_Some in H as (item & Hin & <- & ->).
      injection Hname as <-.
      destruct (NoDup_key_split item_name _ item Hnames Hin) as (earlier & later & -> & Hl).
      by apply NAME_TO_ID_MAP_last_wins.
Qed.

Section VoxelFilesMore.

Variable str_lower : string → string.
Variable joinpath : Report.Path → string → Report.Path.

(** The name of the file of label [l]. *)
Definition label_file (LABEL_DICT : LabelDict) (l : Z) : string :=
  str_replace "-" "_" (str_replace " " "_" (str_lower (label_name_or LABEL_DICT l "")))
  +:+ ".nii.gz".

(** The image of label [l]: the label where the volume has it, 0
    elsewhere. *)
Definition label_image (segmentation_img : Nifti1Image) (l : Z) : Nifti1Image :=
  {| img_shape := img_shape segmentation_img;
     img_affine := img_affine segmentation_img;
     img_header := img_header segmentation_img;
     img_dataobj := map (fun x => if x =? l then l else 0)
                        (map int16 (img_dataobj segmentation_img)) |}.

(** The label gets a file: it is positive and the catalog knows it. *)
Definition has_file (LABEL_DICT : LabelDict) (l : Z) : bool :=
  (0 <? l) && bool_decide (is_Some (LABEL_DICT !! l)).

(** The images that were saved, in order. *)
Definition saved_images (events : list fs_event) : list Nifti1Image :=
  omap (fun e => match e with Save img _ => Some img | Mkdir _ => None end) events.

Lemma saved_images_saves (dir : Report.Path) (image : Z → Nifti1Image)
    (path : Z → Report.Path) (labels : list Z) :
  saved_images (Mkdir dir :: map (fun l => Save (image l) (path l)) labels)
  = map image labels.
Proof.
  unfold saved_images.
  induction labels as [|l labels IH]; simpl in *; [done|]. f_equal. exact IH.
Qed.

Lemma np_assign_zeros (data : list Z) (l : Z) :
  np_assign (Np.eq_mask data l) l (replicate (length data) 0)
  = map (fun x => if x =? l then l else 0) data.
Proof.
  unfold np_assign, Np.eq_mask. induction data as [|x data IH]; [done|].
  simpl. by rewrite IH.
Qed.

Lemma np_any_label (data : list Z) (l : Z) :
  l ∈ data →
  np_any (Np.pos_mask (map (fun x => if x =? l then l else 0) data)) = (0 <? l).
Proof.
  intros Hin. unfold np_any, Np.pos_mask.
  destruct (Z.ltb_spec 0 l) as [Hpos|Hneg].
  - apply existsb_exists. exists true. split; [|done].
    apply in_map_iff. exists l. split; [by apply Z.ltb_lt|].
    apply in_map_iff. exists l. split; [by rewrite Z.eqb_refl|by apply list_elem_of_In].
  - apply not_true_is_false. intros H. apply existsb_exists in H as (b & Hb & Hid).
    apply in_map_iff in Hb as (y & Hy & Hb). apply in_map_iff in Hb as (x & Hx & _).
    unfold id in Hid. rewrite <- Hy in Hid. apply Z.ltb_lt in Hid. subst y.
    destruct (x =? l); lia.
Qed.

(** The loop over labels that all have a name in the catalog. *)
Lemma create_voxel_files_run (LABEL_DICT : LabelDict) (segmentation_img : Nifti1Image)
    (dir : Report.Path) (labels : list Z) :
  let data := Np.mk_ndarray (img_shape segmentation_img)
                            (map int16 (img_dataobj segmentation_img)) in
  (∀ l info, l ∈ labels → LABEL_DICT !! l = Some info → is_Some (li_name info)) →
  (∀ l, l ∈ labels → l ∈ Np.arr_data data) →
  ∀ events files,
    foldl (create_voxel_file str_lower joinpath LABEL_DICT data
             (img_affine segmentation_img) (img_header segmentation_img) dir)
          (events, Some files) labels
    = (events ++ map (fun l => Save (label_image segmentation_img l)
                                    (joinpath dir (label_file LABEL_DICT l)))
                     (List.filter (has_file LABEL_DICT) labels),
       Some (files ++ map (label_file LABEL_DICT)
                          (List.filter (has_file LABEL_DICT) labels))).
Proof.
  intros data Hnamed Hin. induction labels as [|l labels IH]; intros events files.
  - simpl. by rewrite !app_nil_r.
  - cbn [foldl List.filter].
    assert (create_voxel_file str_lower joinpath LABEL_DICT data
              (img_affine segmentation_img) (img_header segmentation_img) dir
              (events, Some files) l
            = if has_file LABEL_DICT l
              then (events ++ [Save (label_image segmentation_img l)
                                    (joinpath dir (label_file LABEL_DICT l))],
                    Some (files ++ [label_file LABEL_DICT l]))
              else (events, Some files)) as Hstep.
    { unfold create_voxel_file, has_file, label_file, label_name_or. cbn [fst snd].
      destruct (LABEL_DICT !! l) as [info|] eqn:E.
      - destruct (Hnamed l info (list_elem_of_here _ _) E) as [name Hname].
        rewrite Hname. cbn [default]. rewrite np_assign_zeros.
        rewrite np_any_label by apply Hin, list_elem_of_here.
        rewrite bool_decide_eq_true_2 by (by eexists). rewrite andb_true_r.
        by destruct (0 <? l).
      - rewrite bool_decide_eq_false_2 by (by intros [? ?]). by rewrite andb_false_r. }
    rewrite Hstep.
    assert (Hnamed' : ∀ l' info, l' ∈ labels → LABEL_DICT !! l' = Some info →
                                 is_Some (li_name info)).
    { intros l' info Hl'. apply Hnamed. by apply list_elem_of_further. }
    assert (Hin' : ∀ l', l' ∈ labels → l' ∈ Np.arr_data data).
    { intros l' Hl'. apply Hin. by apply list_elem_of_further. }
    destruct (has_file LABEL_DICT l).
    + rewrite (IH Hnamed' Hin'). cbn [map]. by rewrite <- !app_assoc.
    + by rewrite (IH Hnamed' Hin').
Qed.

(** Once [KeyError] is raised the loop is over. *)
Lemma create_voxel_files_raised (LABEL_DICT : LabelDict) (data : Np.ndarray)
    (affine : list Q) (header : string) (dir : Report.Path) (labels : list Z) :
  ∀ events,
    (foldl (create_voxel_file str_lower joinpath LABEL_DICT data affine header dir)
           (events, None) labels).2 = None.
Proof. induction labels as [|l labels IH]; intros events; [done|]. apply IH. Qed.

Lemma create_voxel_files_raises (LABEL_DICT : LabelDict) (data : Np.ndarray)
    (affine : list Q) (header : string) (dir : Report.Path) (labels : list Z) :
  (∃ l info, l ∈ labels ∧ LABEL_DICT !! l = Some info ∧ li_name info = None) →
  ∀ st,
    (foldl (create_voxel_file str_lower joinpath LABEL_DICT data affine header dir)
           st labels).2 = None.
Proof.
  induction labels as [|l labels IH]; intros (l' & info & Hin & Hl & Hname) st.
  - by apply elem_of_nil in Hin.
  - cbn [foldl]. destruct st as [events [files|]];
      [|unfold create_voxel_file at 2; cbn [snd]; apply create_voxel_files_raised].
    apply elem_of_cons in Hin as [->|Hin].
    + unfold create_voxel_file at 2. cbn [fst snd]. rewrite Hl, Hname.
      apply create_voxel_files_raised.
    + apply IH. by exists l', info.
Qed.

Lemma named_or_not (LABEL_DICT : LabelDict) (labels : list Z) :
  (∀ l info, l ∈ labels → LABEL_DICT !! l = Some info → is_Some (li_name info))
  ∨ (∃ l info, l ∈ labels ∧ LABEL_DICT !! l = Some info ∧ li_name info = None).
Proof.
  induction labels as [|l labels [IH|(l' & info & Hin & Hl & Hname)]].
  - left. intros l info Hin. by apply elem_of_nil in Hin.
  - destruct (LABEL_DICT !! l) as [info|] eqn:E.
    + destruct (li_name info) as [name|] eqn:En.
      * left. intros l' info' [->|Hin]%elem_of_cons Hl'; [|by apply (IH l')].
        rewrite E in Hl'. injection Hl' as <-. rewrite En. by eexists.
      * right. exists l, info. split; [apply list_elem_of_here|done].
    + left. intros l' info' [->|Hin]%elem_of_cons Hl'; [congruence|by apply (IH l')].
  - right. exists l', info. split; [by apply list_elem_of_further|done].
Qed.

Lemma sum_of_label_images (v : Z) (labels : list Z) :
  NoDup labels →
  foldr Z.add 0 (map (fun l => if v =? l then l else 0) labels)
  = if bool_decide (v ∈ labels) then v else 0.
Proof.
  induction labels as [|l labels IH]; intros Hnd; [done|].
  apply NoDup_cons in Hnd as [Hl Hnd]. cbn [map foldr]. rewrite (IH Hnd).
  destruct (Z.eqb_spec v l) as [->|Hne].
  - rewrite (bool_decide_eq_true_2 (l ∈ l :: labels)) by apply list_elem_of_here.
    rewrite (bool_decide_eq_false_2 (l ∈ labels)) by done. lia.
  - destruct (bool_decide (v ∈ labels)) eqn:E.
    + apply bool_decide_eq_true in E.
      rewrite (bool_decide_eq_true_2 (v ∈ l :: labels))
        by (by apply list_elem_of_further).
      lia.
    + apply bool_decide_eq_false in E.
      rewrite (bool_decide_eq_false_2 (v ∈ l :: labels)); [lia|].
      intros [?|?]%elem_of_cons; done.
Qed.

Lemma NoDup_filter_list (f : Z → bool) (l : list Z) : NoDup l → NoDup (List.filter f l).
Proof. intros H. apply NoDup_ListNoDup, List.NoDup_filter. by apply NoDup_ListNoDup. Qed.

End VoxelFilesMore.

(** X21.  When every label of the volume that the catalog knows has a
    name there, [create_individual_voxel_files] makes the folder of the
    scan and then saves one file for each label of the volume that is
    positive and known to the catalog, in ascending order of the
    labels, and returns the names of these files in that order.  The
    image of a file has the shape, the affine matrix and the header of
    the segmentation, the label at the voxels that carry it and 0
    elsewhere.  Labels that are negative or unknown get no file. *)
Theorem voxel_files_created
    (str_lower : string → string) (joinpath : Report.Path → string → Report.Path)
    (LABEL_DICT : LabelDict) (segmentation_img : Nifti1Image) (ct_scan_name : string)
    (voxels_base_dir : Report.Path) (target_vessel_ids : list Z) :
  let voxels := map int16 (img_dataobj segmentation_img) in
  (∀ l info, l ∈ voxels → LABEL_DICT !! l = Some info → is_Some (li_name info)) →
  let run :=
    create_individual_voxel_files str_lower joinpath LABEL_DICT segmentation_img
      ct_scan_name voxels_base_dir target_vessel_ids in
  let dir :=
    joinpath voxels_base_dir
      (str_replace ".nii" "" (str_replace ".nii.gz" "" ct_scan_name)) in
  let with_file := List.filter (has_file LABEL_DICT) (unique_labels voxels) in
  run.1 = Mkdir dir
          :: map (fun l => Save (label_image segmentation_img l)
                                (joinpath dir (label_file str_lower LABEL_DICT l)))
                 with_file
  ∧ run.2 = Some (map (label_file str_lower LABEL_DICT) with_file)
  ∧ ascending with_file
  ∧ (∀ l, l ∈ with_file ↔ 0 < l ∧ l ∈ voxels ∧ is_Some (LABEL_DICT !! l)).
Proof.
  intros voxels Hnamed run dir with_file. subst run.
  unfold create_individual_voxel_files. fold dir. cbn [Np.arr_data]. fold voxels.
  rewrite (create_voxel_files_run str_lower joinpath LABEL_DICT segmentation_img dir
             (unique_labels voxels)).
  - fold voxels with_file. cbn [fst snd app]. split; [done|]. split; [done|].
    split; [apply ascending_filter, unique_labels_ascending|].
    intros l. unfold with_file, has_file.
    rewrite list_elem_of_In, filter_In, <- list_elem_of_In, elem_of_unique_labels.
    rewrite andb_true_iff, Z.ltb_lt, bool_decide_eq_true. split.
    + intros [[_ Hin] [Hpos Hknown]]. done.
    + intros (Hpos & Hin & Hknown). repeat split; try done. lia.
  - intros l info Hl. apply Hnamed. by apply elem_of_unique_labels in Hl as [_ ?].
  - intros l Hl. by apply elem_of_unique_labels in Hl as [_ ?].
Qed.

(** A volume with the labels -2, 3 and 5 and a catalog that knows -2
    and 5: one file, for the label 5. *)
Lemma voxel_files_created_witness :
  let catalog := LABEL_DICT [mk_label_item (-2) "Noise"; mk_label_item 5 "Left Kidney"] in
  let img := mk_image (1, 2, 3)%nat [] "" [0; 5; 5; 3; -2; 0] in
  let run :=
    create_individual_voxel_files id (fun dir name => dir ++ [name]) catalog img
      "scan.nii.gz" ["voxels"] [] in
  run.2 = Some ["Left_Kidney.nii.gz"]
  ∧ run.1 = [Mkdir ["voxels"; "scan"];
             Save (mk_image (1, 2, 3)%nat [] "" [0; 5; 5; 0; 0; 0])
                  ["voxels"; "scan"; "Left_Kidney.nii.gz"]].
Proof.
  intros catalog img run.
  assert (Hnamed : ∀ l info, l ∈ map int16 (img_dataobj img) →
                             catalog !! l = Some info → is_Some (li_name info)).
  { intros l info _ H. apply LABEL_DICT_lookup_Some in H as (item & _ & _ & ->).
    by eexists. }
  destruct (voxel_files_created id (fun dir name => dir ++ [name]) catalog img
              "scan.nii.gz" ["voxels"] [] Hnamed) as (H1 & H2 & _).
  split; [exact H2|exact H1].
Defined.

(** X22.  [create_individual_voxel_files] stops with [KeyError] exactly
    when a label of the volume, positive or negative, has an entry
    without a name in the catalog. *)
Theorem voxel_files_key_error
    (str_lower : string → string) (joinpath : Report.Path → string → Report.Path)
    (LABEL_DICT : LabelDict) (segmentation_img : Nifti1Image) (ct_scan_name : string)
    (voxels_base_dir : Report.Path) (target_vessel_ids : list Z) :
  let voxels := map int16 (img_dataobj segmentation_img) in
  let run :=
    create_individual_voxel_files str_lower joinpath LABEL_DICT segmentation_img
      ct_scan_name voxels_base_dir target_vessel_ids in
  run.2 = None
  ↔ ∃ l info, l ∈ voxels ∧ l ≠ 0 ∧ LABEL_DICT !! l = Some info ∧ li_name info = None.
Proof.
  intros voxels run. split.
  - intros Hnone.
    destruct (named_or_not LABEL_DICT (unique_labels voxels))
      as [Hnamed|(l & info & Hl & Hinfo & Hname)].
    + exfalso. subst run. unfold create_individual_voxel_files in Hnone.
      cbn [Np.arr_data] in Hnone. fold voxels in Hnone.
      rewrite (create_voxel_files_run str_lower joinpath LABEL_DICT segmentation_img _
                 (unique_labels voxels)) in Hnone; [done|done|].
      intros l Hl. by apply elem_of_unique_labels in Hl as [_ ?].
    + apply elem_of_unique_labels in Hl as [Hnz Hin]. by exists l, info.
  - intros (l & info & Hin & Hnz & Hinfo & Hname). subst run.
    unfold create_individual_voxel_files. apply create_voxel_files_raises.
    exists l, info. split; [|done]. cbn [Np.arr_data]. by apply elem_of_unique_labels.
Qed.

(** X23.  The files of [create_individual_voxel_files] take the volume
    apart without overlap: at every voxel the saved images add up to
    the label of the volume when that label is positive and known to
    the catalog, and to 0 otherwise. *)
Theorem voxel_files_partition
    (str_lower : string → string) (joinpath : Report.Path → string → Report.Path)
    (LABEL_DICT : LabelDict) (segmentation_img : Nifti1Image) (ct_scan_name : string)
    (voxels_base_dir : Report.Path) (target_vessel_ids : list Z) (i : nat) :
  let voxels := map int16 (img_dataobj segmentation_img) in
  (∀ l info, l ∈ voxels → LABEL_DICT !! l = Some info → is_Some (li_name info)) →
  (i < length voxels)%nat →
  let run :=
    create_individual_voxel_files str_lower joinpath LABEL_DICT segmentation_img
      ct_scan_name voxels_base_dir target_vessel_ids in
  foldr Z.add 0 (map (fun img => nth i (img_dataobj img) 0) (saved_images run.1))
  = if has_file LABEL_DICT (nth i voxels 0) then nth i voxels 0 else 0.
Proof.
  intros voxels Hnamed Hi run. subst run.
  unfold create_individual_voxel_files. cbn [Np.arr_data]. fold voxels.
  rewrite (create_voxel_files_run str_lower joinpath LABEL_DICT segmentation_img _
             (unique_labels voxels)).
  - cbn [fst app].
    set (with_file := List.filter (has_file LABEL_DICT) (unique_labels voxels)).
    match goal with
    | |- context [saved_images ?events] =>
        assert (saved_images events = map (label_image segmentation_img) with_file)
          as -> by apply (saved_images_saves _ (label_image segmentation_img))
    end.
    rewrite map_map.
    assert (Hnth : ∀ l, nth i (img_dataobj (label_image segmentation_img l)) 0
                        = if nth i voxels 0 =? l then l else 0).
    { intros l. unfold label_image. cbn [img_dataobj]. fold voxels.
      rewrite (nth_indep _ 0 ((fun x => if x =? l then l else 0) 0))
        by (by rewrite length_map).
      by rewrite (map_nth (fun x => if x =? l then l else 0)). }
    rewrite (map_ext _ _ Hnth).
    rewrite sum_of_label_images
      by (apply NoDup_filter_list, unique_labels_NoDup).
    assert (nth i voxels 0 ∈ voxels) as Hin by (apply list_elem_of_In, nth_In; lia).
    destruct (has_file LABEL_DICT (nth i voxels 0)) eqn:E.
    + rewrite bool_decide_eq_true_2; [done|].
      apply list_elem_of_In, filter_In. split; [|done].
      apply list_elem_of_In, elem_of_unique_labels. split; [|done].
      unfold has_file in E. apply andb_true_iff in E as [E%Z.ltb_lt _]. lia.
    + rewrite bool_decide_eq_false_2; [done|].
      intros H. apply list_elem_of_In, filter_In in H as [_ H]. congruence.
  - intros l info Hl. apply Hnamed. by apply elem_of_unique_labels in Hl as [_ ?].
  - intros l Hl. by apply elem_of_unique_labels in Hl as [_ ?].
Qed.

(** A volume with the labels 3 and 5, both known: at the voxel 1 the
    two images add up to 5. *)
Lemma voxel_files_partition_witness :
  let catalog := LABEL_DICT [mk_label_item 3 "Aorta"; mk_label_item 5 "Left Kidney"] in
  let img := mk_image (1, 2, 3)%nat [] "" [0; 5; 5; 3; 3; 0] in
  let run :=
    create_individual_voxel_files id (fun dir name => dir ++ [name]) catalog img
      "scan.nii.gz" ["voxels"] [] in
  foldr Z.add 0 (map (fun img => nth 1 (img_dataobj img) 0) (saved_images run.1)) = 5.
Proof.
  intros catalog img run.
  assert (Hnamed : ∀ l info, l ∈ map int16 (img_dataobj img) →
                             catalog !! l = Some info → is_Some (li_name info)).
  { intros l info _ H. apply LABEL_DICT_lookup_Some in H as (item & _ & _ & ->).
    by eexists. }
  assert (Hi : (1 < length (map int16 (img_dataobj img)))%nat) by (simpl; lia).
  exact (voxel_files_partition id (fun dir name => dir ++ [name]) catalog img
           "scan.nii.gz" ["voxels"] [] 1%nat Hnamed Hi).
Defined.
